(** * cd-ripper: a shallow embedding of [cd_ripper/__init__.py] and
    [cd_ripper/raw.py], and the properties of the track matcher, the
    multi-disc sequencer and the album pipeline.

    The Python code is glue around a file system, a terminal and three
    external tools (cdparanoia, ffmpeg, mid3v2).  The embedding makes those
    explicit: a [World] holds the file system, the pending terminal input,
    the discs the operator will load and a chronological trace of the
    observable actions; a computation is a function from a world to an
    outcome (a value or a raised exception) and the world it leaves behind.
    An exception does not roll the world back, as in Python. *)

From Stdlib Require Import String Ascii List ZArith Arith Bool Lia.
From Stdlib Require Import DecimalString Permutation.
Import ListNotations.
Open Scope list_scope.
Open Scope string_scope.

(* ===================================================================== *)
(** ** Python built-ins used by the code *)
(* ===================================================================== *)

Module Py.

(** The exceptions the code raises or lets escape. *)
Inductive Exception : Type :=
| FileNotFoundError (what : string)
| NotADirectoryError (what : string)
| IsADirectoryError (what : string)
| FileExistsError (what : string)
| ValueError (msg : string)
| RuntimeError (msg : string)
| TypeError (msg : string)
| KeyError (key : string)
| JSONDecodeError (what : string)
| EOFError
| CalledProcessError (cmd : string)
| ShutilError (msg : string).

(** Outcome of a call: a value, or the exception that left it. *)
Inductive Exc (A : Type) : Type :=
| Ok (a : A)
| Raise (e : Exception).
Arguments Ok {A} a.
Arguments Raise {A} e.

(** [str(n)] for a non-negative [int]. *)
Definition str_of_nat (n : nat) : string :=
  NilEmpty.string_of_uint (Nat.to_uint n).

(** [str(z)] for an [int]. *)
Definition str_of_Z (z : Z) : string :=
  NilZero.string_of_int (Z.to_int z).

(** [sub in s] on strings. *)
Fixpoint str_in (sub s : string) : bool :=
  prefix sub s ||
  match s with
  | EmptyString => false
  | String _ s' => str_in sub s'
  end.

(** [s.rfind(c)], with [None] for Python's -1. *)
Fixpoint rfind (c : ascii) (s : string) : option nat :=
  match s with
  | EmptyString => None
  | String a s' =>
      match rfind c s' with
      | Some i => Some (S i)
      | None => if Ascii.eqb a c then Some 0 else None
      end
  end.

(** [s[i:]] and [s[:i]] and [s[i:j]] for non-negative bounds. *)
Definition slice_from (i : nat) (s : string) : string :=
  substring i (String.length s - i) s.

Definition slice_to (i : nat) (s : string) : string :=
  substring 0 i s.

Definition slice (i j : nat) (s : string) : string :=
  substring i (j - i) s.

(** [s.split(c)[0]]: the part of [s] before the first [c]. *)
Fixpoint split_head (c : ascii) (s : string) : string :=
  match s with
  | EmptyString => EmptyString
  | String a s' => if Ascii.eqb a c then EmptyString
                   else String a (split_head c s')
  end.

(** [x in l] for a list of strings. *)
Definition str_in_list (x : string) (l : list string) : bool :=
  existsb (String.eqb x) l.

(** White space as [int()] strips it (ASCII range of [str.isspace]). *)
Definition is_space (c : ascii) : bool :=
  let n := nat_of_ascii c in
  (((9 <=? n) && (n <=? 13)) || ((28 <=? n) && (n <=? 32)))%nat.

Definition is_digit (c : ascii) : bool :=
  let n := nat_of_ascii c in ((48 <=? n) && (n <=? 57))%nat.

Definition digit_val (c : ascii) : Z := Z.of_nat (nat_of_ascii c - 48).

Fixpoint lstrip (l : list ascii) : list ascii :=
  match l with
  | c :: l' => if is_space c then lstrip l' else l
  | [] => []
  end.

Definition strip (l : list ascii) : list ascii :=
  rev (lstrip (rev (lstrip l))).

(** Decimal digits with single underscores between digits, as [int()]
    accepts them; [prev] tells whether the previous character was a digit. *)
Fixpoint digits_val (acc : Z) (prev : bool) (l : list ascii) : option Z :=
  match l with
  | [] => if prev then Some acc else None
  | c :: l' =>
      if is_digit c then digits_val (10 * acc + digit_val c) true l'
      else if Ascii.eqb c "_" && prev then digits_val acc false l'
      else None
  end.

(** [int(s)] in base 10 for an ASCII string; [ValueError] otherwise. *)
Definition int (s : string) : Exc Z :=
  let bad := Raise (ValueError ("invalid literal for int() with base 10: '" ++ s ++ "'")) in
  let of_digits (neg : bool) (l : list ascii) :=
    match digits_val 0 false l with
    | Some v => Ok (if neg then (- v)%Z else v)
    | None => bad
    end in
  match strip (list_ascii_of_string s) with
  | c :: l' =>
      if Ascii.eqb c "+" then of_digits false l'
      else if Ascii.eqb c "-" then of_digits true l'
      else of_digits false (c :: l')
  | [] => bad
  end.

(** The double-quote character, as a string. *)
Definition dquote : string := String (ascii_of_nat 34) EmptyString.

End Py.
Import Py.

(* ===================================================================== *)
(** ** Paths and the file system *)
(* ===================================================================== *)

Module Fs.

(** A path is the list of its components below the root; every path of the
    model is absolute and free of symbolic links, so [resolve] is the
    identity. *)
Definition Path : Type := list string.

Definition path_eqb (p q : Path) : bool :=
  (length p =? length q)%nat && forallb (fun pq => String.eqb (fst pq) (snd pq)) (combine p q).

(** [p / n] *)
Definition joinpath (p : Path) (n : string) : Path := (p ++ [n])%list.

(** [p.name] *)
Definition name (p : Path) : string := last p "".

(** [p.parent] *)
Definition parent (p : Path) : Path := removelast p.

(** [p.resolve()].  The paths of the model are absolute and normalised and
    its file system has no symbolic links, so a path resolves to itself.
    The module [Linked] below has the pipeline with the resolution as a
    parameter, for directory entries that are links to files elsewhere. *)
Definition resolve (p : Path) : Path := p.

(** [str(p)] *)
Definition path_str (p : Path) : string :=
  match p with
  | [] => "/"
  | _ => String.concat "" (map (fun c => "/" ++ c) p)
  end.

(** [p.suffix] and [p.stem] (pathlib of Python 3.6 to 3.13): the last dot
    counts when it is neither the first nor the last character. *)
Definition suffix (p : Path) : string :=
  let n := name p in
  match rfind "." n with
  | Some i => if ((0 <? i) && (i <? String.length n - 1))%nat then slice_from i n else ""
  | None => ""
  end.

Definition stem (p : Path) : string :=
  let n := name p in
  match rfind "." n with
  | Some i => if ((0 <? i) && (i <? String.length n - 1))%nat then slice_to i n else n
  | None => n
  end.

Inductive Kind : Type := File | Dir.

(** The file system: the entries that exist, in the order a directory
    listing reports them.  New entries are listed last. *)
Definition FS : Type := list (Path * Kind).

Fixpoint lookup (p : Path) (fs : FS) : option Kind :=
  match fs with
  | [] => None
  | (q, k) :: fs' => if path_eqb p q then Some k else lookup p fs'
  end.

Definition is_file (p : Path) (fs : FS) : bool :=
  match lookup p fs with Some File => true | _ => false end.

Definition is_dir (p : Path) (fs : FS) : bool :=
  match p with
  | [] => true
  | _ => match lookup p fs with Some Dir => true | _ => false end
  end.

Definition exists_ (p : Path) (fs : FS) : bool :=
  match p with
  | [] => true
  | _ => match lookup p fs with Some _ => true | None => false end
  end.

(** Is [p] directly inside directory [d]? *)
Definition child_of (d p : Path) : bool :=
  match p with
  | [] => false
  | _ => path_eqb (parent p) d
  end.

(** The listing of directory [d]. *)
Definition listing (d : Path) (fs : FS) : list Path :=
  filter (child_of d) (map fst fs).

(** [d.iterdir()], consumed at once *)
Definition iterdir (d : Path) (fs : FS) : Exc (list Path) :=
  if is_dir d fs then Ok (listing d fs)
  else if exists_ d fs then Raise (NotADirectoryError (path_str d))
  else Raise (FileNotFoundError (path_str d)).

(** Creating or overwriting the regular file [p]. *)
Definition write_file (p : Path) (fs : FS) : FS :=
  if exists_ p fs then fs else (fs ++ [(p, File)])%list.

(** Is [p] the path [q] or below it? *)
Definition below (q p : Path) : bool :=
  (length q <=? length p)%nat && path_eqb (firstn (length q) p) q.

(** Removing [p] and everything below it. *)
Definition remove_tree (p : Path) (fs : FS) : FS :=
  filter (fun e => negb (below p (fst e))) fs.

(** Renaming [p] (and what is below it) to [q], replacing [q]. *)
Definition rename (p q : Path) (fs : FS) : FS :=
  map (fun e => if below p (fst e)
                then ((q ++ skipn (length p) (fst e))%list, snd e) else e)
      (filter (fun e => negb (path_eqb (fst e) q)) fs).

End Fs.
Import Fs.

(* ===================================================================== *)
(** ** The world the programs run in *)
(* ===================================================================== *)

(** What an album configuration file holds once [json.load] has read it:
    the recognised keys, each present or absent.  Values of other JSON
    types are outside the model. *)
Record AlbumConfig : Type := mkAlbumConfig {
  cfg_artist : option string;
  cfg_album : option string;
  cfg_genre : option string;
  cfg_date : option string;
  cfg_songs : option (list string)
}.

(** A disc as the ripper sees it: the files [cdparanoia -XB] writes into
    the current directory, and whether the shell command that runs it exits
    with status 0. *)
Record Disc : Type := mkDisc {
  disc_tracks : list string;
  disc_ok : bool
}.

(** The parts of the environment the programs only consult. *)
Record Env : Type := mkEnv {
  ffmpeg_ok : Path -> Path -> bool;        (* exit status 0 of ffmpeg on (source, target) *)
  mid3v2_ok : Path -> bool;                (* exit status 0 of mid3v2 on a file *)
  json_of : Path -> option AlbumConfig;    (* parsed content of a file, if it is JSON *)
  mkdtemp : Path;                          (* the directory [tempfile] creates *)
  getenv_pwd : option string               (* the PWD variable, [None] when unset *)
}.

(** Observable actions, recorded in the order they happen. *)
Inductive Event : Type :=
| Input (prompt : string)                  (* [input(prompt)] *)
| Print (line : string)                    (* [print(line)] *)
| Subprocess (cmd : string)                (* [subprocess.run(cmd, shell=True, check=True)] *)
| LogInfo (fmt : string) (args : list Path)   (* [_logger.info(fmt, *args)] *)
| LogDebug (fmt : string) (args : list string) (* [_logger.debug(fmt, *args)] *)
| Move (src dst : Path).                   (* [shutil.move(src, dst)] *)

Record World : Type := mkWorld {
  env : Env;
  fs : FS;
  stdin : list string;      (* the lines the operator will type *)
  drive : list Disc;        (* the discs the operator will load, in turn *)
  trace : list Event
}.

Definition set_fs (f : FS) (w : World) : World :=
  mkWorld (env w) f (stdin w) (drive w) (trace w).

Definition set_stdin (l : list string) (w : World) : World :=
  mkWorld (env w) (fs w) l (drive w) (trace w).

Definition set_drive (d : list Disc) (w : World) : World :=
  mkWorld (env w) (fs w) (stdin w) d (trace w).

Definition record (e : Event) (w : World) : World :=
  mkWorld (env w) (fs w) (stdin w) (drive w) (trace w ++ [e])%list.

(** Computations: state passing with exceptions that keep the state. *)
Definition M (A : Type) : Type := World -> Exc A * World.

Definition ret {A : Type} (a : A) : M A := fun w => (Ok a, w).

Definition raise {A : Type} (e : Exception) : M A := fun w => (Raise e, w).

Definition bind {A B : Type} (m : M A) (k : A -> M B) : M B :=
  fun w =>
    match m w with
    | (Ok a, w') => k a w'
    | (Raise e, w') => (Raise e, w')
    end.

Declare Scope monad_scope.
Delimit Scope monad_scope with monad.
Notation "x <- c ;; k" := (bind c (fun x => k))
  (at level 61, c at next level, right associativity) : monad_scope.
Notation "c ;; k" := (bind c (fun _ => k))
  (at level 61, right associativity) : monad_scope.
Open Scope monad_scope.

Definition get_fs : M FS := fun w => (Ok (fs w), w).

Definition emit (e : Event) : M unit := fun w => (Ok tt, record e w).

(** A read of the file system that may raise. *)
Definition reading {A : Type} (r : FS -> Exc A) : M A :=
  fun w => (r (fs w), w).

(** [for x in l: body(x)] *)
Fixpoint for_each {A : Type} (l : list A) (body : A -> M unit) : M unit :=
  match l with
  | [] => ret tt
  | x :: l' => body x ;; for_each l' body
  end.

(** [input(prompt)]: the next line of the terminal, [EOFError] at its end. *)
Definition input (prompt : string) : M string :=
  fun w =>
    match stdin w with
    | [] => (Raise EOFError, record (Input prompt) w)
    | ans :: rest => (Ok ans, set_stdin rest (record (Input prompt) w))
    end.

(** [p.unlink()] *)
Definition unlink (p : Path) : M unit :=
  fun w =>
    if is_file p (fs w)
    then (Ok tt, set_fs (filter (fun e => negb (path_eqb (fst e) p)) (fs w)) w)
    else (Raise (FileNotFoundError (path_str p)), w).

(** [p.mkdir(exist_ok=True)] *)
Definition mkdir_exist_ok (p : Path) : M unit :=
  fun w =>
    if is_dir p (fs w) then (Ok tt, w)
    else if exists_ p (fs w) then (Raise (FileExistsError (path_str p)), w)
    else if is_dir (parent p) (fs w) then (Ok tt, set_fs (fs w ++ [(p, Dir)])%list w)
    else (Raise (FileNotFoundError (path_str p)), w).

(** [shutil.move(src, dst)]: into [dst] when that is a directory, else a
    rename that replaces [dst]. *)
Definition shutil_move (src dst : Path) : M unit :=
  fun w =>
    let w1 := record (Move src dst) w in
    let f := fs w in
    let real_dst := if is_dir dst f then joinpath dst (name src) else dst in
    if negb (exists_ src f) then (Raise (FileNotFoundError (path_str src)), w1)
    else if is_dir dst f && exists_ real_dst f
    then (Raise (ShutilError ("Destination path '" ++ path_str real_dst ++ "' already exists")), w1)
    else if negb (is_dir (parent real_dst) f)
    then (Raise (FileNotFoundError (path_str real_dst)), w1)
    else (Ok tt, set_fs (rename src real_dst f) w1).

(* ===================================================================== *)
(** ** [cd_ripper/__init__.py]: transcoding, matching, tagging *)
(* ===================================================================== *)

Module CdRipper.

(** [load_album_config_file]: open the file and parse it. *)
Definition load_album_config_file (json_file : Path) : M AlbumConfig :=
  fun w =>
    if is_file json_file (fs w) then
      match json_of (env w) json_file with
      | Some cfg => (Ok cfg, w)
      | None => (Raise (JSONDecodeError (path_str json_file)), w)
      end
    else if is_dir json_file (fs w)
    then (Raise (IsADirectoryError (path_str json_file)), w)
    else (Raise (FileNotFoundError (path_str json_file)), w).

(** The [while True] loop of [wav_to_mp3], one turn per line typed:
    [true] leaves the loop by [break], [false] is the early [return]. *)
Fixpoint overwrite_loop (prompt : string) (answers : list string) (w : World)
  : Exc bool * World :=
  let w1 := record (Input prompt) w in
  match answers with
  | [] => (Raise EOFError, w1)
  | ans :: rest =>
      let w2 := set_stdin rest w1 in
      if String.eqb ans "y" then (Ok true, w2)
      else if String.eqb ans "N" then (Ok false, w2)
      else overwrite_loop prompt rest (record (Print "Error: input 'y' or 'N'") w2)
  end.

Definition ffmpeg_command (wav_file mp3_file : Path) : string :=
  "ffmpeg -hide_banner -loglevel error "
  ++ "-i " ++ dquote ++ path_str wav_file ++ dquote
  ++ " -acodec mp3 " ++ dquote ++ path_str mp3_file ++ dquote.

(** Running ffmpeg, an external tool: by its contract (one compressed file
    of the same base name in the output directory) the target file has been
    written when it exits with status 0. *)
Definition run_ffmpeg (wav_file mp3_file : Path) : M unit :=
  fun w =>
    let w1 := record (Subprocess (ffmpeg_command wav_file mp3_file)) w in
    if ffmpeg_ok (env w) wav_file mp3_file
    then (Ok tt, set_fs (write_file mp3_file (fs w)) w1)
    else (Raise (CalledProcessError (ffmpeg_command wav_file mp3_file)), w1).

Definition wav_to_mp3 (wav_file : Path) (keep_wav : bool)
    (output_dir : option Path) : M Path :=
  let wav_file := resolve wav_file in
  f <- get_fs ;;
  if negb (is_file wav_file f)
  then raise (FileNotFoundError (path_str wav_file))
  else
    let output_dir :=
      match output_dir with None => parent wav_file | Some d => d end in
    if negb (is_dir output_dir f)
    then raise (FileNotFoundError (path_str output_dir))
    else
      let mp3_file := joinpath output_dir (stem wav_file ++ ".mp3") in
      go_on <- (if is_file mp3_file f
                then (fun w => overwrite_loop
                                 (path_str mp3_file ++ " exists. Overwrite? [y/N]: ")
                                 (stdin w) w)
                else ret true) ;;
      if negb go_on then ret mp3_file
      else
        run_ffmpeg wav_file mp3_file ;;
        f' <- get_fs ;;
        (if is_file mp3_file f' && negb keep_wav
         then unlink wav_file else ret tt) ;;
        ret mp3_file.

(** [enumerate(l)] *)
Definition enumerate {A : Type} (l : list A) : list (nat * A) :=
  combine (seq 0 (length l)) l.

(** [sep.join(items)] where the items are [Path] objects, not strings:
    [str.join] raises [TypeError] at the first item. *)
Definition join_paths (sep : string) (items : list Path) : Exc string :=
  match items with
  | [] => Ok ""
  | _ :: _ => Raise (TypeError "sequence item 0: expected str instance, PosixPath found")
  end.

Definition is_music (f : Path) : bool := str_in_list (suffix f) [".wav"; ".mp3"].

(** The test that selects the possible tracks of one title. *)
Definition is_possible (track_number : nat) (title : string) (f : Path) : bool :=
  str_in (str_of_nat track_number) (stem f) || str_in title (stem f).

Definition newline : string := String (ascii_of_nat 10) EmptyString.

(** The [for] loop of [match_titles_to_files] over
    [enumerate(title_list[::-1])]; [n_titles] is [len(title_list)]. *)
Fixpoint match_loop (n_titles : nat) (its : list (nat * string))
    (music_files : list Path) (mapping : list (string * Path))
  : Exc (list (string * Path)) :=
  match its with
  | [] => Ok mapping
  | (i, title) :: its' =>
      let track_number := (n_titles - i)%nat in
      let possible_tracks := filter (is_possible track_number title) music_files in
      if (1 <? length possible_tracks)%nat then
        match join_paths "," possible_tracks with
        | Ok joined =>
            Raise (RuntimeError
                     ("Found multiple music files matching "
                      ++ str_of_nat track_number ++ "-" ++ title ++ ": "
                      ++ newline ++ joined))
        | Raise e => Raise e
        end
      else
        match possible_tracks with
        | [] =>
            Raise (RuntimeError
                     ("Found no music files matching "
                      ++ str_of_nat track_number ++ "-" ++ title))
        | chosen :: _ =>
            let music_files :=
              filter (fun m => negb (path_eqb m chosen)) music_files in
            match_loop n_titles its' music_files (mapping ++ [(title, chosen)])%list
        end
  end.

(** The matcher on the entries a directory listing gave. *)
Definition match_entries (title_list : list string) (entries : list Path)
  : Exc (list (string * Path)) :=
  let music_files := filter is_music entries in
  if negb (length title_list =? length music_files)%nat then
    Raise (ValueError ("Found " ++ str_of_nat (length music_files)
                       ++ " music files, but given "
                       ++ str_of_nat (length title_list) ++ " titles."))
  else
    match match_loop (length title_list) (enumerate (rev title_list)) music_files [] with
    | Ok mapping => Ok (rev mapping)
    | Raise e => Raise e
    end.

Definition match_titles_to_files (title_list : list string) (directory : Path)
    (f : FS) : Exc (list (string * Path)) :=
  match iterdir directory f with
  | Ok entries => match_entries title_list entries
  | Raise e => Raise e
  end.

(** The tag fields handed to [add_metadata] for every file. *)
Record Tags : Type := mkTags {
  tag_artist : option string;
  tag_album : option string;
  tag_genre : option string;
  tag_date : option string
}.

Definition opt_flag (flag : string) (v : option string) : string :=
  match v with
  | Some s => " " ++ flag ++ " " ++ dquote ++ s ++ dquote
  | None => ""
  end.

Definition mid3v2_command (mp3_file : Path) (tags : Tags)
    (title : option string) (track_num : option nat) : string :=
  "mid3v2"
  ++ opt_flag "-a" (tag_artist tags)
  ++ opt_flag "-A" (tag_album tags)
  ++ opt_flag "-t" title
  ++ opt_flag "-g" (tag_genre tags)
  ++ opt_flag "-y" (tag_date tags)
  ++ opt_flag "-T" (option_map str_of_nat track_num)
  ++ " " ++ dquote ++ path_str (resolve mp3_file) ++ dquote.

Definition add_metadata (mp3_file : Path) (tags : Tags)
    (title : option string) (track_num : option nat) : M unit :=
  fun w =>
    if negb (is_file (resolve mp3_file) (fs w))
    then (Raise (FileNotFoundError (path_str (resolve mp3_file))), w)
    else
      let cmd := mid3v2_command mp3_file tags title track_num in
      let w1 := record (Subprocess cmd) w in
      if mid3v2_ok (env w) mp3_file then (Ok tt, w1)
      else (Raise (CalledProcessError cmd), w1).

(** Step (4) of the pipeline: tag the matched files, counting from
    [track_num]. *)
Fixpoint tag_all (tags : Tags) (mapping : list (string * Path)) (track_num : nat)
  : M unit :=
  match mapping with
  | [] => ret tt
  | (title, mp3_file) :: rest =>
      add_metadata mp3_file tags (Some title) (Some track_num) ;;
      tag_all tags rest (track_num + 1)
  end.

(** The configuration file the pipeline reads: the one given, or the first
    [.json] entry of the album directory. *)
Definition resolve_config (album_directory : Path) (config_json : option Path)
  : M Path :=
  match config_json with
  | None =>
      entries <- reading (iterdir album_directory) ;;
      match filter (fun f => String.eqb (suffix f) ".json") entries with
      | found :: _ => ret found
      | [] =>
          raise (FileNotFoundError
                   ("No .json config file found in " ++ path_str album_directory
                    ++ ", and not provided at CLI"))
      end
  | Some given =>
      f <- get_fs ;;
      if negb (is_file given f)
      then raise (FileNotFoundError (path_str (resolve given)))
      else ret given
  end.

(** Step (2) of the pipeline: the loop over the directory entries. *)
Definition convert_wav_files (files : list Path) (output_directory : option Path)
  : M unit :=
  for_each files (fun wav_file =>
    if String.eqb (suffix wav_file) ".wav"
    then wav_to_mp3 wav_file true output_directory ;; ret tt
    else ret tt).

(** The progress bars of [tqdm] write to the terminal only and are left
    out. *)
Definition populate_album_metadata (album_directory : Path)
    (config_json output_directory : option Path) : M unit :=
  f <- get_fs ;;
  if negb (is_dir album_directory f)
  then raise (FileNotFoundError (path_str (resolve album_directory)))
  else
    config_json <- resolve_config album_directory config_json ;;
    emit (Print ("(1) Loading album metadata from " ++ path_str (resolve config_json))) ;;
    album_metadata <- load_album_config_file config_json ;;
    let kwargs := mkTags (cfg_artist album_metadata) (cfg_album album_metadata)
                         (cfg_genre album_metadata) (cfg_date album_metadata) in
    emit (Print "(2) Converting .wav files to .mp3") ;;
    files <- reading (iterdir album_directory) ;;
    convert_wav_files files output_directory ;;
    emit (Print "(3) Attempting to match metadata song titles with files") ;;
    songs <- match cfg_songs album_metadata with
             | Some l => ret l
             | None => raise (KeyError "songs")
             end ;;
    mapping <- reading (match_titles_to_files songs album_directory) ;;
    emit (Print "(4) Adding metadata to .mp3 files") ;;
    tag_all kwargs mapping 1.

End CdRipper.

(* ===================================================================== *)
(** ** [cd_ripper/raw.py]: ripping the discs of an album *)
(* ===================================================================== *)

Module Raw.

Definition cdparanoia_command (folder : Path) (pwd : option string) : string :=
  "cd " ++ path_str (resolve folder) ++ ";"
  ++ "cdparanoia -XB; "
  ++ "cd " ++ match pwd with Some d => d | None => "None" end.

(** Running the ripper, an external tool, on the disc in the drive: by its
    contract it deposits one audio file per track into [folder]; with no
    disc left nothing is written and the run fails. *)
Definition run_cdparanoia (cmd : string) (folder : Path) : M unit :=
  fun w =>
    let w1 := record (Subprocess cmd) w in
    match drive w with
    | [] => (Raise (CalledProcessError cmd), w1)
    | d :: rest =>
        let f' := fold_left (fun f n => write_file (joinpath folder n) f)
                            (disc_tracks d) (fs w) in
        let w2 := set_drive rest (set_fs f' w1) in
        if disc_ok d then (Ok tt, w2) else (Raise (CalledProcessError cmd), w2)
    end.

Definition rip_cd_to_folder (folder : Path) : M unit :=
  fun w =>
    if negb (is_dir folder (fs w))
    then (Raise (FileNotFoundError (path_str folder)), w)
    else
      let cmd := cdparanoia_command folder (getenv_pwd (env w)) in
      (emit (LogDebug "Running command: %s" [cmd]) ;;
       run_cdparanoia cmd folder) w.

(** The name under which a ripped file is stored: prefix, padded number,
    extension. *)
Definition target_name (prefix : string) (number : Z) : string :=
  prefix ++ (if (number <? 10)%Z then "0" else "") ++ str_of_Z number ++ ".wav".

Definition move_wav_files_to_album (wav album : Path) (initial_index : Z)
    (prefix : string) (mock_run : bool) : M Z :=
  let raw := joinpath album "raw" in
  files <- reading (iterdir wav) ;;
  for_each files (fun _file =>
    let name := split_head "." (stem _file) in
    parsed <- (fun w => (int (slice 5 7 name), w)) ;;
    let number := (parsed + initial_index)%Z in
    let target := joinpath raw (target_name prefix number) in
    if mock_run
    then emit (LogInfo "shutil.move(%s, %s)" [_file; target])
    else shutil_move _file target) ;;
  remaining <- reading (iterdir wav) ;;
  ret (Z.of_nat (length remaining)).

(** The prefix of disc [n]. *)
Definition disc_prefix (n : nat) : string :=
  if (n <? 9)%nat then "cd0" ++ str_of_nat n ++ "track"
  else "cd" ++ str_of_nat n ++ "track".

(** The [for n in range(...)] loop of [rip_album_from_cd]. *)
Fixpoint disc_loop (ns : list nat) (temp_dir folder : Path) (track_num : Z)
    (mock_run : bool) : M unit :=
  match ns with
  | [] => ret tt
  | n :: ns' =>
      input ("Load CD " ++ str_of_nat n ++ ", then press <Enter>:") ;;
      rip_cd_to_folder temp_dir ;;
      let prefix := disc_prefix n in
      moved <- move_wav_files_to_album temp_dir folder track_num prefix mock_run ;;
      disc_loop ns' temp_dir folder (track_num + moved)%Z mock_run
  end.

(** [with tempfile.TemporaryDirectory() as temp_dir: body(temp_dir)]: a new
    directory that is removed with its content when the block is left, also
    by an exception. *)
Definition with_temporary_directory {A : Type} (body : Path -> M A) : M A :=
  fun w =>
    let temp_dir := mkdtemp (env w) in
    if exists_ temp_dir (fs w)
    then (Raise (FileExistsError (path_str temp_dir)), w)
    else if negb (is_dir (parent temp_dir) (fs w))
    then (Raise (FileNotFoundError (path_str temp_dir)), w)
    else
      let (r, w') := body temp_dir (set_fs (fs w ++ [(temp_dir, Dir)])%list w) in
      (r, set_fs (remove_tree temp_dir (fs w')) w').

(** [range(1, cd_count + 1)] *)
Definition disc_range (cd_count : Z) : list nat := seq 1 (Z.to_nat cd_count).

Definition rip_album_from_cd (folder : Path) (cd_count : Z) (mock_run : bool)
  : M unit :=
  let raw_dir := joinpath folder "raw" in
  mkdir_exist_ok raw_dir ;;
  with_temporary_directory (fun temp_dir =>
    disc_loop (disc_range cd_count) temp_dir folder 0 mock_run).

End Raw.

(* ===================================================================== *)
(** ** Reading a trace *)
(* ===================================================================== *)

Module Obs.

(** The world after the events [es] have been recorded in turn. *)
Definition record_all (es : list Event) (w : World) : World :=
  mkWorld (env w) (fs w) (stdin w) (drive w) (trace w ++ es)%list.

(** What the terminal shows for [k] answers that are neither y nor N: each
    time the prompt, then the complaint. *)
Fixpoint reprompts (prompt : string) (k : nat) : list Event :=
  match k with
  | O => []
  | S k' => Input prompt :: Print "Error: input 'y' or 'N'" :: reprompts prompt k'
  end.

(** The moves carried out, in order. *)
Fixpoint executed_moves (tr : list Event) : list (Path * Path) :=
  match tr with
  | [] => []
  | Move src dst :: tr' => (src, dst) :: executed_moves tr'
  | _ :: tr' => executed_moves tr'
  end.

(** The moves a dry run reports through the logger, in order. *)
Fixpoint logged_moves (tr : list Event) : list (Path * Path) :=
  match tr with
  | [] => []
  | LogInfo fmt [src; dst] :: tr' =>
      if String.eqb fmt "shutil.move(%s, %s)"
      then (src, dst) :: logged_moves tr' else logged_moves tr'
  | _ :: tr' => logged_moves tr'
  end.

(** From world [w] to world [w'] no move has been carried out. *)
Definition no_move_between (w w' : World) : Prop :=
  executed_moves (trace w') = executed_moves (trace w).

(** From world [w] to world [w'] the file system has not changed. *)
Definition same_fs_between (w w' : World) : Prop := fs w' = fs w.

(** A computation that leaves every world related to the one it started
    from. *)
Definition preserves {A : Type} (I : World -> World -> Prop) (m : M A) : Prop :=
  forall w, I w (snd (m w)).

(** Is the event a run of the tagger? *)
Definition is_tagger_call (e : Event) : bool :=
  match e with
  | Subprocess cmd => prefix "mid3v2" cmd
  | _ => false
  end.

Definition tagger_calls (tr : list Event) : list Event := filter is_tagger_call tr.

(** Is the event a run of the transcoder? *)
Definition is_transcoder_call (e : Event) : bool :=
  match e with
  | Subprocess cmd => prefix "ffmpeg" cmd
  | _ => false
  end.

Definition transcoder_calls (tr : list Event) : list Event :=
  filter is_transcoder_call tr.

Definition is_wav (p : Path) : bool := String.eqb (suffix p) ".wav".

Definition is_json (p : Path) : bool := String.eqb (suffix p) ".json".

(** The .mp3 file the transcoder writes next to a .wav file. *)
Definition sibling_mp3 (wav_file : Path) : Path :=
  joinpath (parent wav_file) (stem wav_file ++ ".mp3").

(** The .wav entries whose .mp3 sibling is there already: each of them
    brings up the overwrite prompt. *)
Definition awaiting_overwrite (entries : list Path) (f : FS) : list Path :=
  filter (fun p => is_wav p && is_file (sibling_mp3 p) f) entries.

(** The two answers the overwrite prompt accepts. *)
Definition valid_answer (a : string) : Prop := a = "y" \/ a = "N".

(** The configuration file the pipeline settles on: the path given, when
    one is given, and else the first .json entry of the album directory. *)
Definition config_settled (album : Path) (config_json : option Path)
    (config : Path) (f : FS) : Prop :=
  match config_json with
  | Some given => given = config
  | None => hd_error (filter is_json (listing album f)) = Some config
  end.

End Obs.
Import Obs.

(** Unfolding the world updates down to the record fields. *)
Ltac world_simpl :=
  unfold set_fs, set_stdin, set_drive, record, record_all;
  cbn [env fs stdin drive trace].

(* ===================================================================== *)
(** ** The naming scheme as the specification words it *)
(* ===================================================================== *)

Module Spec.

Definition digit_char (k : nat) : ascii := ascii_of_nat (48 + k).

(** A number below 100 written with two digits, zero-padded. *)
Definition two_digits (k : nat) : string :=
  String (digit_char (k / 10)) (String (digit_char (k mod 10)) EmptyString).

(** The destination name of relocated track [m] of disc [n]: the disc
    index on two digits, the marker track, the track number on two digits,
    the extension. *)
Definition relocated_name (n m : nat) : string :=
  "cd" ++ two_digits n ++ "track" ++ two_digits m ++ ".wav".

(** Does the code name track [m] of disc [n] by the scheme? *)
Definition follows_scheme (n m : nat) : bool :=
  String.eqb (Raw.target_name (Raw.disc_prefix n) (Z.of_nat m))
             (relocated_name n m).

(** The disc indices from 1 to 99 other than [skip]. *)
Definition discs_but (skip : nat) : list nat :=
  filter (fun n => negb (n =? skip)%nat) (seq 1 99).

End Spec.

(* ===================================================================== *)
(** ** Concrete albums and worlds *)
(* ===================================================================== *)

Module Scenario.

Definition album : Path := ["music"; "album"].

(** An environment in which every external tool succeeds and no file
    holds a configuration. *)
Definition plain_env : Env :=
  mkEnv (fun _ _ => true) (fun _ => true) (fun _ => None)
        ["tmp"; "tmpa1b2c3"] (Some "/home/operator").

(** The album directory with the given regular files, in listing order. *)
Definition album_with (names : list string) : FS :=
  ([(["music"], Dir); (album, Dir)]
   ++ map (fun n => (joinpath album n, File)) names)%list.

(** Two titles, one file named after its track number only, one after
    number and title. *)
Definition intro_titles : list string := ["Intro"; "Main Theme"].
Definition intro_file : Path := joinpath album "cd01track01.wav".
Definition theme_file : Path := joinpath album "02-Main-Theme.wav".

(** One title, two files. *)
Definition song_titles : list string := ["Song"].
Definition song_fs : FS := album_with ["1-Song.wav"; "2-Other.wav"].

(** Two files that both carry the number of the second track. *)
Definition clash_titles : list string := ["A"; "B"].
Definition clash_fs : FS := album_with ["2-B.wav"; "B-2.mp3"].

(** A world with nothing typed beyond [answers], no disc loaded and an
    empty trace. *)
Definition world_of (e : Env) (f : FS) (answers : list string) : World :=
  mkWorld e f answers [] [].

(** A track that has been converted before, and an operator who needs four
    tries to decline the overwrite. *)
Definition overwrite_world : World :=
  world_of plain_env (album_with ["a.wav"; "a.mp3"])
           ["maybe"; ""; "Y"; "N"; "later"].

Definition overwrite_prompt : string :=
  "/music/album/a.mp3 exists. Overwrite? [y/N]: ".

(** An album with two configuration files and one track. *)
Definition only_config : AlbumConfig :=
  mkAlbumConfig (Some "The Band") (Some "The Album") None None (Some ["Only"]).

Definition config_env (config : Path) (cfg : AlbumConfig) : Env :=
  mkEnv (fun _ _ => true) (fun _ => true)
        (fun p => if path_eqb p config then Some cfg else None)
        ["tmp"; "tmpa1b2c3"] (Some "/home/operator").

Definition two_configs_world : World :=
  world_of (config_env (joinpath album "a.json") only_config)
           (album_with ["a.json"; "b.json"; "01-Only.mp3"]) [].

(** An album with no configuration file. *)
Definition no_config_world : World :=
  world_of plain_env (album_with ["01-Only.mp3"]) [].

(** An album with one configuration file. *)
Definition one_config_world : World :=
  world_of (config_env (joinpath album "album.json") only_config)
           (album_with ["01-Only.mp3"; "album.json"]) [].

(** An album whose only track has been converted before; the operator
    lets the transcoder overwrite the .mp3. *)
Definition rerun_config : AlbumConfig :=
  mkAlbumConfig (Some "The Band") None None None (Some ["Alpha"; "Beta"]).

Definition rerun_world : World :=
  world_of (config_env (joinpath album "album.json") rerun_config)
           (album_with ["1-Alpha.wav"; "1-Alpha.mp3"; "album.json"]) ["y"].

(** An album with two ripped tracks, one of them converted before. *)
Definition fresh_config : AlbumConfig :=
  mkAlbumConfig (Some "The Band") (Some "The Album") None (Some "1999")
                (Some ["Alpha"; "Beta"; "Gamma"]).

Definition fresh_world : World :=
  world_of (config_env (joinpath album "album.json") fresh_config)
           (album_with ["01-Alpha.wav"; "02-Beta.wav"; "02-Beta.mp3"; "album.json"])
           ["y"].

(** The names [cdparanoia -B] gives the tracks of a disc. *)
Definition cdda_name (k : nat) : string :=
  "track" ++ Spec.two_digits k ++ ".cdda.wav".

(** A readable disc with [n] tracks. *)
Definition disc_of (n : nat) : Disc := mkDisc (map cdda_name (seq 1 n)) true.

Definition temp_dir : Path := mkdtemp plain_env.

Definition raw_dir : Path := joinpath album "raw".

(** Before the first disc: an album directory, and an operator who presses
    Enter once per disc. *)
Definition ripping_world (discs : list Disc) : World :=
  mkWorld plain_env [(["tmp"], Dir); (["music"], Dir); (album, Dir)]
          (repeat "" (length discs)) discs [].

(** After the first disc, of ten tracks, has been ripped into the scratch
    directory. *)
Definition ripped_world : World :=
  mkWorld plain_env
          ([(["tmp"], Dir); (["music"], Dir); (album, Dir); (raw_dir, Dir);
            (temp_dir, Dir)]
           ++ map (fun k => (joinpath temp_dir (cdda_name k), File)) (seq 1 10))%list
          [] [] [].

(** The move of ripped file [k] of the scratch directory to a name in the
    raw-track directory. *)
Definition move_of (k : nat) (target : string) : Path * Path :=
  (joinpath temp_dir (cdda_name k), joinpath raw_dir target).

End Scenario.

(* ===================================================================== *)
(** ** The rest of [cd_ripper/__init__.py] *)
(* ===================================================================== *)

Module CdRipperMore.

Definition show_command (mp3_file : Path) : string :=
  "mid3v2 -l " ++ path_str (resolve mp3_file).

(** [show_metadata]: the tagger lists the tags of the file. *)
Definition show_metadata (mp3_file : Path) : M unit :=
  fun w =>
    if negb (is_file (resolve mp3_file) (fs w))
    then (Raise (FileNotFoundError (path_str (resolve mp3_file))), w)
    else
      let cmd := show_command mp3_file in
      let w1 := record (Subprocess cmd) w in
      if mid3v2_ok (env w) mp3_file then (Ok tt, w1)
      else (Raise (CalledProcessError cmd), w1).

End CdRipperMore.

(* ===================================================================== *)
(** ** More readings of a trace *)
(* ===================================================================== *)

Module Watch.

(** The tagger runs that tag the pairs of [mapping], in order, with the
    track numbers from [track_num] on. *)
Fixpoint tagging_events (tags : CdRipper.Tags) (mapping : list (string * Path))
    (track_num : nat) : list Event :=
  match mapping with
  | [] => []
  | (title, file) :: rest =>
      Subprocess (CdRipper.mid3v2_command file tags (Some title) (Some track_num))
      :: tagging_events tags rest (track_num + 1)
  end.

(** The tag fields a configuration gives. *)
Definition tags_of (cfg : AlbumConfig) : CdRipper.Tags :=
  CdRipper.mkTags (cfg_artist cfg) (cfg_album cfg) (cfg_genre cfg) (cfg_date cfg).

(** The four progress lines of a complete run of the pipeline. *)
Definition progress_lines (config : Path) : list Event :=
  [Print ("(1) Loading album metadata from " ++ path_str (resolve config));
   Print "(2) Converting .wav files to .mp3";
   Print "(3) Attempting to match metadata song titles with files";
   Print "(4) Adding metadata to .mp3 files"].

(** The file the transcoder writes for [wav_file]: in the output directory
    when one is given, else next to [wav_file]. *)
Definition mp3_target (output_dir : option Path) (wav_file : Path) : Path :=
  joinpath (match output_dir with None => parent wav_file | Some d => d end)
           (stem wav_file ++ ".mp3").

(** The prompt of the sequencer for disc [n]. *)
Definition load_prompt (n : nat) : string :=
  "Load CD " ++ str_of_nat n ++ ", then press <Enter>:".

(** The prompts and the runs of external tools of a trace, in order. *)
Definition is_dialogue (e : Event) : bool :=
  match e with
  | Input _ => true
  | Subprocess _ => true
  | _ => false
  end.

Definition dialogue (tr : list Event) : list Event := filter is_dialogue tr.

(** No entry of the file system is the path [q] or below it. *)
Definition outside (q : Path) (f : FS) : Prop :=
  forall p, In p (map fst f) -> below q p = false.

End Watch.
Import Watch.

(* ===================================================================== *)
(** ** Names of ripped and relocated files *)
(* ===================================================================== *)

Module Names.

(** Does the relocation read the index [k] back from the name the ripper
    gives track [k]? *)
Definition parses_back (k : nat) : bool :=
  match int (slice 5 7 (split_head "." (stem [Scenario.cdda_name k]))) with
  | Ok z => Z.eqb z (Z.of_nat k)
  | Raise _ => false
  end.

(** Is the prefix of disc [n1] no prefix of the prefix of disc [n2]? *)
Definition prefixes_apart (n1 n2 : nat) : bool :=
  negb (prefix (Raw.disc_prefix n1) (Raw.disc_prefix n2)).

(** What a dry relocation reports for the ripped track [k]. *)
Definition log_of (wav album : Path) (prefix : string) (initial_index : Z)
    (k : nat) : Event :=
  LogInfo "shutil.move(%s, %s)"
          [joinpath wav (Scenario.cdda_name k);
           joinpath (joinpath album "raw")
                    (Raw.target_name prefix (Z.of_nat k + initial_index))].

(** The prompts and ripper runs of the discs [ns], in turn. *)
Definition rip_script (cmd : string) (ns : list nat) : list Event :=
  flat_map (fun n => [Input (load_prompt n); Subprocess cmd]) ns.

(** The name the sequencer gives track [k] of a single-disc album. *)
Definition single_disc_name (k : nat) : string :=
  Raw.target_name (Raw.disc_prefix 1) (Z.of_nat k).

(** Does the stem of track [j] of a single-disc album contain the number
    [i]? *)
Definition number_in_name (i j : nat) : bool :=
  str_in (str_of_nat i) (stem [single_disc_name j]).

(** The checks behind the facts on single-disc names, for the numbers 1 to
    99: a name contains its own number, no name contains a higher number,
    and different numbers give different names. *)
Definition single_disc_names_checked : bool :=
  forallb (fun i =>
    number_in_name i i
    && forallb (fun j => (i <=? j)%nat || negb (number_in_name i j)) (seq 1 99)
    && forallb (fun j => (i =? j)%nat
                         || negb (String.eqb (single_disc_name i) (single_disc_name j)))
               (seq 1 99))
    (seq 1 99).

End Names.
Import Names.

(* ===================================================================== *)
(** ** Relations between the world before and after *)
(* ===================================================================== *)

Module Between.

(** From [w] to [w'] the environment is the same and neither the operator
    has been prompted nor an external tool run. *)
Definition quiet_between (w w' : World) : Prop :=
  env w' = env w /\ dialogue (trace w') = dialogue (trace w).


End Between.
Import Between.

(* ===================================================================== *)
(** ** [cd_ripper/__init__.py] on a file system with symbolic links *)
(* ===================================================================== *)

(** The pipeline once more, with [Path.resolve()] as a parameter: [links p]
    is what [p.resolve()] returns, the path itself unless a symbolic link
    lies on it.  An entry that is a link to a regular file is a [File]
    entry of the file system, since [is_file] follows links.  With [resolve]
    for [links] these are the definitions of [CdRipper]. *)
Module Linked.

Import CdRipper.

Section Links.

Variable links : Path -> Path.

Definition wav_to_mp3 (wav_file : Path) (keep_wav : bool)
    (output_dir : option Path) : M Path :=
  let wav_file := links wav_file in
  f <- get_fs ;;
  if negb (is_file wav_file f)
  then raise (FileNotFoundError (path_str wav_file))
  else
    let output_dir :=
      match output_dir with None => parent wav_file | Some d => d end in
    if negb (is_dir output_dir f)
    then raise (FileNotFoundError (path_str output_dir))
    else
      let mp3_file := joinpath output_dir (stem wav_file ++ ".mp3") in
      go_on <- (if is_file mp3_file f
                then (fun w => overwrite_loop
                                 (path_str mp3_file ++ " exists. Overwrite? [y/N]: ")
                                 (stdin w) w)
                else ret true) ;;
      if negb go_on then ret mp3_file
      else
        run_ffmpeg wav_file mp3_file ;;
        f' <- get_fs ;;
        (if is_file mp3_file f' && negb keep_wav
         then unlink wav_file else ret tt) ;;
        ret mp3_file.

Definition mid3v2_command (mp3_file : Path) (tags : Tags)
    (title : option string) (track_num : option nat) : string :=
  "mid3v2"
  ++ opt_flag "-a" (tag_artist tags)
  ++ opt_flag "-A" (tag_album tags)
  ++ opt_flag "-t" title
  ++ opt_flag "-g" (tag_genre tags)
  ++ opt_flag "-y" (tag_date tags)
  ++ opt_flag "-T" (option_map str_of_nat track_num)
  ++ " " ++ dquote ++ path_str (links mp3_file) ++ dquote.

Definition add_metadata (mp3_file : Path) (tags : Tags)
    (title : option string) (track_num : option nat) : M unit :=
  fun w =>
    if negb (is_file (links mp3_file) (fs w))
    then (Raise (FileNotFoundError (path_str (links mp3_file))), w)
    else
      let cmd := mid3v2_command mp3_file tags title track_num in
      let w1 := record (Subprocess cmd) w in
      if mid3v2_ok (env w) mp3_file then (Ok tt, w1)
      else (Raise (CalledProcessError cmd), w1).

Fixpoint tag_all (tags : Tags) (mapping : list (string * Path)) (track_num : nat)
  : M unit :=
  match mapping with
  | [] => ret tt
  | (title, mp3_file) :: rest =>
      add_metadata mp3_file tags (Some title) (Some track_num) ;;
      tag_all tags rest (track_num + 1)
  end.

Definition resolve_config (album_directory : Path) (config_json : option Path)
  : M Path :=
  match config_json with
  | None =>
      entries <- reading (iterdir album_directory) ;;
      match filter (fun f => String.eqb (suffix f) ".json") entries with
      | found :: _ => ret found
      | [] =>
          raise (FileNotFoundError
                   ("No .json config file found in " ++ path_str album_directory
                    ++ ", and not provided at CLI"))
      end
  | Some given =>
      f <- get_fs ;;
      if negb (is_file given f)
      then raise (FileNotFoundError (path_str (links given)))
      else ret given
  end.

Definition convert_wav_files (files : list Path) (output_directory : option Path)
  : M unit :=
  for_each files (fun wav_file =>
    if String.eqb (suffix wav_file) ".wav"
    then wav_to_mp3 wav_file true output_directory ;; ret tt
    else ret tt).

Definition populate_album_metadata (album_directory : Path)
    (config_json output_directory : option Path) : M unit :=
  f <- get_fs ;;
  if negb (is_dir album_directory f)
  then raise (FileNotFoundError (path_str (links album_directory)))
  else
    config_json <- resolve_config album_directory config_json ;;
    emit (Print ("(1) Loading album metadata from " ++ path_str (links config_json))) ;;
    album_metadata <- load_album_config_file config_json ;;
    let kwargs := mkTags (cfg_artist album_metadata) (cfg_album album_metadata)
                         (cfg_genre album_metadata) (cfg_date album_metadata) in
    emit (Print "(2) Converting .wav files to .mp3") ;;
    files <- reading (iterdir album_directory) ;;
    convert_wav_files files output_directory ;;
    emit (Print "(3) Attempting to match metadata song titles with files") ;;
    songs <- match cfg_songs album_metadata with
             | Some l => ret l
             | None => raise (KeyError "songs")
             end ;;
    mapping <- reading (match_titles_to_files songs album_directory) ;;
    emit (Print "(4) Adding metadata to .mp3 files") ;;
    tag_all kwargs mapping 1.

End Links.

End Linked.

(* ===================================================================== *)
(** ** More albums and worlds *)
(* ===================================================================== *)

Module Cases.

Import Scenario.

Definition out_dir : Path := ["music"; "out"].

Definition trio_titles : list string := ["Alpha"; "Beta"; "Gamma"].

(** Three files of which only the last is named after a track. *)
Definition stray_fs : FS := album_with ["x.mp3"; "y.mp3"; "3-Gamma.mp3"].

(** Three files of which two carry the number 2. *)
Definition twin_fs : FS := album_with ["2-a.mp3"; "2-b.mp3"; "3-Gamma.mp3"].

(** The two tracks of a single-disc album, as the sequencer names them. *)
Definition single_disc_fs : FS :=
  album_with [single_disc_name 1; single_disc_name 2].

(** One ripped track, not converted yet. *)
Definition wav_only_world : World := world_of plain_env (album_with ["a.wav"]) [].

(** One converted track, and an operator who accepts the overwrite. *)
Definition mp3_only_world : World :=
  world_of plain_env (album_with ["a.mp3"]) ["y"].

(** An album directory and a separate output directory. *)
Definition two_dirs_world : World :=
  world_of plain_env
           [(["music"], Dir); (album, Dir); (out_dir, Dir);
            (joinpath album "a.wav", File)] [].

(** An environment whose tagger rejects the file [bad]. *)
Definition picky_env (bad : Path) : Env :=
  mkEnv (fun _ _ => true) (fun p => negb (path_eqb p bad)) (fun _ => None)
        ["tmp"; "tmpa1b2c3"] (Some "/home/operator").

Definition three_pairs : list (string * Path) :=
  [("One", joinpath album "1.mp3"); ("Two", joinpath album "2.mp3");
   ("Three", joinpath album "3.mp3")].

Definition picky_world : World :=
  world_of (picky_env (joinpath album "2.mp3"))
           (album_with ["1.mp3"; "2.mp3"; "3.mp3"]) [].

Definition plain_world : World :=
  world_of plain_env (album_with ["1.mp3"; "2.mp3"; "3.mp3"]) [].

Definition band_tags : CdRipper.Tags :=
  CdRipper.mkTags (Some "The Band") None None None.

(** A configuration file without the key songs. *)
Definition no_songs_config : AlbumConfig :=
  mkAlbumConfig (Some "The Band") None None None None.

Definition no_songs_world : World :=
  world_of (config_env (joinpath album "album.json") no_songs_config)
           (album_with ["01-Alpha.wav"; "album.json"]) [].

(** An album whose configuration file lies outside the album directory and
    is given by its path. *)
Definition given_config : Path := ["music"; "tracks.json"].

Definition given_config_world : World :=
  world_of (config_env given_config fresh_config)
           ([(["music"], Dir); (album, Dir)]
            ++ map (fun n => (joinpath album n, File))
                   ["01-Alpha.wav"; "02-Beta.wav"; "02-Beta.mp3"]
            ++ [(given_config, File)])%list
           ["y"].

(** An album of two ripped tracks of which the second is a symbolic link
    to a file kept in another directory. *)
Definition store : Path := ["store"].

Definition link_to_store (entry : Path) (target : string) (p : Path) : Path :=
  if path_eqb p entry then joinpath store target else p.

Definition beta_links : Path -> Path :=
  link_to_store (joinpath album "02-Beta.wav") "b.wav".

Definition beta_linked_world : World :=
  world_of (config_env (joinpath album "album.json") rerun_config)
           ([(["music"], Dir); (album, Dir); (store, Dir);
             (joinpath store "b.wav", File)]
            ++ map (fun n => (joinpath album n, File))
                   ["01-Alpha.wav"; "02-Beta.wav"; "album.json"])%list
           [].

(** An album whose only track is such a link. *)
Definition only_links : Path -> Path :=
  link_to_store (joinpath album "01-Only.wav") "x.wav".

Definition only_linked_world : World :=
  world_of (config_env (joinpath album "album.json") only_config)
           ([(["music"], Dir); (album, Dir); (store, Dir);
             (joinpath store "x.wav", File)]
            ++ map (fun n => (joinpath album n, File))
                   ["01-Only.wav"; "album.json"])%list
           [].

(** A scratch directory that holds a file the ripper has not written. *)
Definition odd_scratch_world : World :=
  mkWorld plain_env
          [(["tmp"], Dir); (temp_dir, Dir); (joinpath temp_dir "a.wav", File)]
          [] [] [].

End Cases.

(* ===================================================================== *)
(** ** Facts about lists and paths *)
(* ===================================================================== *)

Section ListFacts.

Context {A : Type}.

Lemma filter_none (P : A -> bool) (l : list A) :
  (forall x, In x l -> P x = false) -> filter P l = [].
Proof.
  induction l as [|a l IH]; intros H; simpl; [reflexivity|].
  rewrite (H a (or_introl eq_refl)). apply IH.
  intros x Hx. apply H. now right.
Qed.

(** A duplicate-free list in which exactly one member passes the test
    filters to that member. *)
Lemma filter_single (P : A -> bool) (l : list A) (g : A) :
  NoDup l -> In g l -> P g = true ->
  (forall x, In x l -> x <> g -> P x = false) ->
  filter P l = [g].
Proof.
  induction l as [|a l IH]; intros Hnd Hin Hg Hothers; [contradiction|].
  inversion Hnd as [|? ? Hnotin Hnd']; subst.
  simpl. destruct Hin as [->|Hin].
  - rewrite Hg. f_equal. apply filter_none.
    intros x Hx. apply Hothers; [now right|].
    intros ->. contradiction.
  - assert (Ha : P a = false).
    { apply Hothers; [now left|]. intros ->. contradiction. }
    rewrite Ha. apply IH; auto.
    intros x Hx Hne. apply Hothers; [now right|assumption].
Qed.

Lemma combine_snoc {B : Type} (l : list A) (l' : list B) (a : A) (b : B) :
  length l = length l' ->
  combine (l ++ [a]) (l' ++ [b]) = (combine l l' ++ [(a, b)])%list.
Proof.
  revert l'. induction l as [|x l IH]; intros [|y l'] Hlen; simpl in *;
    try discriminate; [reflexivity|].
  f_equal. apply IH. now inversion Hlen.
Qed.

Lemma map_fst_combine {B : Type} (l : list A) (l' : list B) :
  length l = length l' -> map fst (combine l l') = l.
Proof.
  revert l'. induction l as [|x l IH]; intros [|y l'] Hlen; simpl in *;
    try discriminate; [reflexivity|].
  f_equal. apply IH. now inversion Hlen.
Qed.

Lemma map_snd_combine {B : Type} (l : list A) (l' : list B) :
  length l = length l' -> map snd (combine l l') = l'.
Proof.
  revert l'. induction l as [|x l IH]; intros [|y l'] Hlen; simpl in *;
    try discriminate; [reflexivity|].
  f_equal. apply IH. now inversion Hlen.
Qed.

End ListFacts.

Section PathFacts.

Lemma path_eqb_eq (p q : Path) : path_eqb p q = true <-> p = q.
Proof.
  unfold path_eqb. revert q.
  induction p as [|a p IH]; intros [|b q]; simpl; split; intros H;
    try reflexivity; try discriminate.
  - apply andb_true_iff in H as [Hlen Hall].
    apply andb_true_iff in Hall as [Hab Hrest].
    apply String.eqb_eq in Hab. subst b. f_equal.
    apply IH. now rewrite Hlen, Hrest.
  - inversion H; subst.
    assert (Hq : ((length q =? length q)%nat
                  && forallb (fun pq => (fst pq =? snd pq)%string) (combine q q)) = true)
      by (now apply IH).
    apply andb_true_iff in Hq as [Hlen Hrest].
    now rewrite Hlen, String.eqb_refl, Hrest.
Qed.

Lemma iterdir_of_dir (d : Path) (f : FS) :
  is_dir d f = true -> iterdir d f = Ok (listing d f).
Proof. unfold iterdir. now intros ->. Qed.

Lemma path_eqb_refl (p : Path) : path_eqb p p = true.
Proof. now apply path_eqb_eq. Qed.

Lemma path_eqb_neq (p q : Path) : path_eqb p q = false <-> p <> q.
Proof.
  split.
  - intros H Heq. apply path_eqb_eq in Heq. congruence.
  - intros H. destruct (path_eqb p q) eqn:E; [|reflexivity].
    apply path_eqb_eq in E. contradiction.
Qed.

End PathFacts.

(* ===================================================================== *)
(** ** The track matcher *)
(* ===================================================================== *)

Section Matcher.

Import CdRipper.

(** The loop over the last [length ts] titles, when the unclaimed files are
    exactly [gs] and, for each of these titles, the file of the same rank
    is the only one among the files of lower or equal rank that passes the
    test: every title claims the file of its rank. *)
Lemma match_loop_claims (N : nat) :
  forall (ts : list string) (gs : list Path) (k : nat)
         (music : list Path) (mapping : list (string * Path)),
    length ts = length gs ->
    k + length ts = N ->
    NoDup music -> NoDup gs ->
    (forall x, In x music <-> In x gs) ->
    (forall i t g, nth_error ts i = Some t -> nth_error gs i = Some g ->
                   is_possible (i + 1) t g = true) ->
    (forall i j t g, j < i -> nth_error ts i = Some t -> nth_error gs j = Some g ->
                     is_possible (i + 1) t g = false) ->
    match_loop N (combine (seq k (length ts)) (rev ts)) music mapping
    = Ok (mapping ++ rev (combine ts gs))%list.
Proof.
  induction ts as [|t ts IH] using rev_ind;
    intros gs k music mapping Hlen Hk Hndm Hndg Hsame Hhit Hmiss.
  - destruct gs; [|discriminate]. simpl. now rewrite app_nil_r.
  - destruct gs as [|g0 gs0] using rev_ind; [rewrite length_app in Hlen; simpl in Hlen; lia|].
    clear IHgs0. rename gs0 into gs, g0 into g.
    rewrite !length_app in *. simpl in Hlen, Hk.
    assert (Hlen' : length ts = length gs) by lia.
    rewrite rev_app_distr.
    assert (Hg : is_possible (length ts + 1) t g = true).
    { apply Hhit.
      - rewrite nth_error_app2 by lia. now rewrite Nat.sub_diag.
      - rewrite nth_error_app2 by lia. rewrite Hlen'. now rewrite Nat.sub_diag. }
    apply NoDup_remove in Hndg as [Hndg Hgnotin]. rewrite app_nil_r in Hndg, Hgnotin.
    assert (Hposs : filter (is_possible (length ts + 1) t) music = [g]).
    { apply filter_single; auto.
      - apply Hsame. apply in_or_app. right. now left.
      - intros x Hx Hne. apply Hsame in Hx. apply in_app_or in Hx as [Hx|[Hx|[]]];
          [|congruence].
        apply In_nth_error in Hx as [j Hj].
        apply (Hmiss (length ts) j).
        + assert (j < length gs) by (apply nth_error_Some; congruence). lia.
        + rewrite nth_error_app2 by lia. now rewrite Nat.sub_diag.
        + rewrite nth_error_app1; [assumption|].
          apply nth_error_Some; congruence. }
    change (length [t]) with 1.
    replace (seq k (length ts + 1)) with (k :: seq (S k) (length ts))
      by (now rewrite Nat.add_1_r).
    cbn [rev app combine match_loop].
    replace (N - k) with (length ts + 1) by lia.
    rewrite Hposs. cbn [length Nat.ltb Nat.leb].
    rewrite combine_snoc by assumption.
    rewrite rev_app_distr. simpl.
    rewrite (IH gs (S k) _ (mapping ++ [(t, g)])%list); auto.
    + now rewrite <- app_assoc.
    + lia.
    + now apply NoDup_filter.
    + intros x. rewrite filter_In, negb_true_iff, path_eqb_neq, Hsame, in_app_iff.
      simpl. split.
      * intros [[Hx|[Hx|[]]] Hne]; [assumption|congruence].
      * intros Hx. split; [now left|]. intros ->. contradiction.
    + intros i t' g' Ht' Hg'. apply Hhit.
      * rewrite nth_error_app1; [assumption|apply nth_error_Some; congruence].
      * rewrite nth_error_app1; [assumption|apply nth_error_Some; congruence].
    + intros i j t' g' Hji Ht' Hg'. apply (Hmiss i j); auto.
      * rewrite nth_error_app1; [assumption|apply nth_error_Some; congruence].
      * rewrite nth_error_app1; [assumption|apply nth_error_Some; congruence].
Qed.

End Matcher.

Section MatcherClaims.

Import CdRipper.

Lemma match_titles_to_files_listing (titles : list string) (d : Path) (f : FS) :
  is_dir d f = true ->
  match_titles_to_files titles d f = match_entries titles (listing d f).
Proof.
  intros Hd. unfold match_titles_to_files, iterdir. now rewrite Hd.
Qed.

(** C3.  Let the candidate files of the directory be enumerated without
    repetition as [gs], as many as there are titles, so that for every
    rank [i] the file [gs[i]] passes the test of track [i+1] (its stem
    contains the decimal number [i+1] or the title of rank [i]) and none of
    the files of lower rank does.  These lower-or-equal ranks are the
    candidates still unclaimed when track [i+1] is processed, so exactly
    one of them matches.  Then the matcher succeeds, and its result pairs
    the titles, in their order, with the files [gs]: as many pairs as
    titles, the titles in ascending order, the files pairwise distinct and
    together exactly the candidate set. *)
Theorem matcher_pairs_titles_with_distinct_files
    (titles : list string) (d : Path) (f : FS) (gs : list Path) :
  is_dir d f = true ->
  Permutation gs (filter is_music (listing d f)) ->
  NoDup gs ->
  length titles = length gs ->
  (forall i t g, nth_error titles i = Some t -> nth_error gs i = Some g ->
                 is_possible (i + 1) t g = true) ->
  (forall i j t g, j < i -> nth_error titles i = Some t -> nth_error gs j = Some g ->
                   is_possible (i + 1) t g = false) ->
  exists mapping,
    match_titles_to_files titles d f = Ok mapping
    /\ mapping = combine titles gs
    /\ length mapping = length titles
    /\ map fst mapping = titles
    /\ NoDup (map snd mapping)
    /\ Permutation (map snd mapping) (filter is_music (listing d f)).
Proof.
  intros Hd Hperm Hnd Hlen Hhit Hmiss.
  exists (combine titles gs).
  split; [|split; [reflexivity|split; [|split; [|split]]]].
  - rewrite match_titles_to_files_listing by assumption.
    unfold match_entries.
    rewrite <- (Permutation_length Hperm), <- Hlen, Nat.eqb_refl. simpl.
    unfold enumerate. rewrite length_rev.
    rewrite (match_loop_claims (length titles) titles gs 0); auto.
    + simpl. now rewrite rev_involutive.
    + apply (Permutation_NoDup Hperm Hnd).
    + intros x. split; intros Hx.
      * apply (Permutation_in x (Permutation_sym Hperm) Hx).
      * apply (Permutation_in x Hperm Hx).
  - rewrite length_combine. lia.
  - now apply map_fst_combine.
  - now rewrite map_snd_combine.
  - now rewrite map_snd_combine.
Qed.

(** C6.  When the number of titles differs from the number of candidate
    files, the matcher raises the count-mismatch error, whose message gives
    both counts; the outcome is fixed by the two counts alone, and no
    mapping is returned. *)
Theorem matcher_count_mismatch (titles : list string) (d : Path) (f : FS) :
  is_dir d f = true ->
  length titles <> length (filter is_music (listing d f)) ->
  match_titles_to_files titles d f
  = Raise (ValueError
             ("Found " ++ str_of_nat (length (filter is_music (listing d f)))
              ++ " music files, but given "
              ++ str_of_nat (length titles) ++ " titles.")).
Proof.
  intros Hd Hne.
  rewrite match_titles_to_files_listing by assumption.
  unfold match_entries.
  apply Nat.eqb_neq in Hne. now rewrite Hne.
Qed.

(** C9.  With the titles Intro and Main Theme and the candidate files
    cd01track01.wav and 02-Main-Theme.wav, listed in either order, the
    matcher returns Intro with cd01track01.wav and Main Theme with
    02-Main-Theme.wav. *)
Theorem matcher_intro_main_theme (d : Path) (f : FS) :
  is_dir d f = true ->
  Permutation (filter is_music (listing d f))
              [Scenario.intro_file; Scenario.theme_file] ->
  match_titles_to_files Scenario.intro_titles d f
  = Ok [("Intro", Scenario.intro_file); ("Main Theme", Scenario.theme_file)].
Proof.
  intros Hd Hperm.
  rewrite match_titles_to_files_listing by assumption.
  unfold match_entries.
  apply Permutation_sym, Permutation_length_2_inv in Hperm.
  destruct Hperm as [-> | ->]; vm_compute; reflexivity.
Qed.

(** At a track for which more than one unclaimed file passes the test, the
    loop stops with the [TypeError] of [str.join], whatever the files. *)
Lemma match_loop_ambiguous (N i : nat) (title : string)
    (its : list (nat * string)) (music : list Path)
    (mapping : list (string * Path)) :
  1 < length (filter (is_possible (N - i) title) music) ->
  match_loop N ((i, title) :: its) music mapping
  = Raise (TypeError "sequence item 0: expected str instance, PosixPath found").
Proof.
  intros Hmany. cbn [match_loop].
  apply Nat.ltb_lt in Hmany. rewrite Hmany.
  destruct (filter (is_possible (N - i) title) music); [discriminate|reflexivity].
Qed.

(** The loop never raises the [RuntimeError] that reports several matching
    files: its outcomes are a mapping, the [TypeError] above, or the
    no-match error. *)
Lemma match_loop_outcomes (N : nat) (its : list (nat * string)) :
  forall (music : list Path) (mapping : list (string * Path)),
    (exists m, match_loop N its music mapping = Ok m)
    \/ match_loop N its music mapping
       = Raise (TypeError "sequence item 0: expected str instance, PosixPath found")
    \/ (exists n t, match_loop N its music mapping
                    = Raise (RuntimeError ("Found no music files matching "
                                           ++ str_of_nat n ++ "-" ++ t))).
Proof.
  induction its as [|[i title] its IH]; intros music mapping.
  - left. now exists mapping.
  - cbn [match_loop].
    destruct (1 <? length (filter (is_possible (N - i) title) music))%nat eqn:Hmany.
    + right. left.
      destruct (filter (is_possible (N - i) title) music); [discriminate|reflexivity].
    + destruct (filter (is_possible (N - i) title) music) as [|chosen rest].
      * right. right. now exists (N - i), title.
      * apply IH.
Qed.

(** C5.  Two files carry the number of the second track.  The matcher
    fails, and returns no pair, but the error is the [TypeError] raised
    while the message is built, not an error naming the two files. *)
Theorem matcher_clash_raises_type_error :
  match_titles_to_files Scenario.clash_titles Scenario.album Scenario.clash_fs
  = Raise (TypeError "sequence item 0: expected str instance, PosixPath found")
  /\ filter (is_possible 2 "B") (filter is_music (listing Scenario.album Scenario.clash_fs))
     = [joinpath Scenario.album "2-B.wav"; joinpath Scenario.album "B-2.mp3"].
Proof. split; vm_compute; reflexivity. Qed.

End MatcherClaims.

Section MatcherWitnesses.

Import CdRipper.

Lemma matcher_pairs_titles_with_distinct_files_witness :
  exists mapping,
    match_titles_to_files Scenario.intro_titles Scenario.album
      (Scenario.album_with ["02-Main-Theme.wav"; "cd01track01.wav"]) = Ok mapping
    /\ mapping = [("Intro", Scenario.intro_file); ("Main Theme", Scenario.theme_file)]
    /\ length mapping = 2
    /\ map fst mapping = Scenario.intro_titles
    /\ NoDup (map snd mapping)
    /\ Permutation (map snd mapping) [Scenario.theme_file; Scenario.intro_file].
Proof.
  apply (matcher_pairs_titles_with_distinct_files
           Scenario.intro_titles Scenario.album
           (Scenario.album_with ["02-Main-Theme.wav"; "cd01track01.wav"])
           [Scenario.intro_file; Scenario.theme_file]).
  - reflexivity.
  - vm_compute. apply perm_swap.
  - repeat constructor; simpl; intros H; repeat destruct H as [H|H]; try discriminate; exact H.
  - reflexivity.
  - intros [|[|[|i]]] t g Ht Hg; simpl in Ht, Hg; try discriminate;
      inversion Ht; inversion Hg; subst; vm_compute; reflexivity.
  - intros [|[|[|i]]] [|j] t g Hlt Ht Hg; simpl in Ht, Hg; try discriminate; try lia.
    inversion Ht; inversion Hg; subst. vm_compute. reflexivity.
Defined.

Lemma matcher_count_mismatch_witness :
  match_titles_to_files Scenario.song_titles Scenario.album Scenario.song_fs
  = Raise (ValueError "Found 2 music files, but given 1 titles.").
Proof.
  apply (matcher_count_mismatch Scenario.song_titles Scenario.album Scenario.song_fs).
  - reflexivity.
  - vm_compute. discriminate.
Defined.

Lemma matcher_intro_main_theme_witness :
  match_titles_to_files Scenario.intro_titles Scenario.album
    (Scenario.album_with ["cd01track01.wav"; "02-Main-Theme.wav"])
  = Ok [("Intro", Scenario.intro_file); ("Main Theme", Scenario.theme_file)].
Proof.
  apply matcher_intro_main_theme.
  - reflexivity.
  - vm_compute. apply Permutation_refl.
Defined.

End MatcherWitnesses.

(* ===================================================================== *)
(** ** The transcoder and its overwrite prompt *)
(* ===================================================================== *)

Section Transcoder.

Import CdRipper.

Lemma is_file_exists (p : Path) (f : FS) : is_file p f = true -> exists_ p f = true.
Proof.
  unfold is_file, exists_. destruct p; [reflexivity|].
  destruct (lookup _ f) as [[|]|]; intros H; try discriminate; reflexivity.
Qed.

Lemma write_file_existing (p : Path) (f : FS) :
  exists_ p f = true -> write_file p f = f.
Proof. unfold write_file. now intros ->. Qed.

(** The loop asks again after every answer that is neither y nor N, and
    stops at the first y or N. *)
Lemma overwrite_loop_settles (prompt : string) (bad : list string) :
  forall (ans : string) (rest : list string) (w : World),
    Forall (fun a => a <> "y" /\ a <> "N") bad ->
    ans = "y" \/ ans = "N" ->
    overwrite_loop prompt (bad ++ ans :: rest) w
    = (Ok (String.eqb ans "y"),
       set_stdin rest (record_all (reprompts prompt (length bad) ++ [Input prompt]) w)).
Proof.
  induction bad as [|a bad IH]; intros ans rest w Hbad Hans.
  - simpl. destruct Hans as [-> | ->]; reflexivity.
  - inversion Hbad as [|? ? [Hy HN] Hbad']; subst.
    cbn [app overwrite_loop].
    apply String.eqb_neq in Hy, HN. rewrite Hy, HN.
    rewrite IH by assumption.
    unfold set_stdin, record_all, record. simpl.
    now rewrite <- !app_assoc.
Qed.


End Transcoder.

Section TranscoderWitness.

Import CdRipper.


(** The same track when the operator, after one other answer, accepts the
    overwrite: the transcoder is run after the second prompt. *)
Example overwrite_accepted :
  let run := wav_to_mp3 (joinpath Scenario.album "a.wav") true None
               (set_stdin ["no"; "y"] Scenario.overwrite_world) in
  fst run = Ok (joinpath Scenario.album "a.mp3")
  /\ trace (snd run)
     = [Input Scenario.overwrite_prompt; Print "Error: input 'y' or 'N'";
        Input Scenario.overwrite_prompt;
        Subprocess (ffmpeg_command (joinpath Scenario.album "a.wav")
                                   (joinpath Scenario.album "a.mp3"))].
Proof. split; vm_compute; reflexivity. Qed.

End TranscoderWitness.

(* ===================================================================== *)
(** ** The album pipeline: finding the configuration file *)
(* ===================================================================== *)

Section ConfigResolution.

Import CdRipper.

(** C8, as the code has it.  With no configuration path given, the pipeline
    raises the missing-file error when the album directory lists no .json
    entry, and otherwise takes the first .json entry of the listing, the
    sole one when there is exactly one; further .json entries are not an
    error. *)
Theorem config_is_first_json (album_directory : Path)
    (output_directory : option Path) (w : World) :
  is_dir album_directory (fs w) = true ->
  match filter is_json (listing album_directory (fs w)) with
  | [] =>
      populate_album_metadata album_directory None output_directory w
      = (Raise (FileNotFoundError
                  ("No .json config file found in " ++ path_str album_directory
                   ++ ", and not provided at CLI")), w)
  | found :: _ =>
      resolve_config album_directory None w = (Ok found, w)
  end.
Proof.
  intros Hd.
  unfold populate_album_metadata, resolve_config, bind, get_fs, reading.
  change (fun f : Path => (suffix f =? ".json")%string) with is_json.
  cbv beta. rewrite Hd. cbn [negb]. cbv beta iota.
  rewrite (iterdir_of_dir _ _ Hd). cbv beta iota.
  destruct (filter is_json (listing album_directory (fs w))); reflexivity.
Qed.

Lemma config_is_first_json_witness :
  resolve_config Scenario.album None Scenario.one_config_world
  = (Ok (joinpath Scenario.album "album.json"), Scenario.one_config_world).
Proof.
  exact (config_is_first_json Scenario.album None Scenario.one_config_world eq_refl).
Defined.

(** With no .json entry the error is raised (an instance of the theorem). *)
Example no_config_is_missing_file :
  fst (populate_album_metadata Scenario.album None None Scenario.no_config_world)
  = Raise (FileNotFoundError
             "No .json config file found in /music/album, and not provided at CLI").
Proof. vm_compute. reflexivity. Qed.

(** C8, as stated, fails: a directory with two .json files does not make
    the pipeline fail.  The first one is read and the run completes. *)
Lemma two_json_files_are_accepted :
  length (filter is_json (listing Scenario.album (fs Scenario.two_configs_world))) = 2
  /\ resolve_config Scenario.album None Scenario.two_configs_world
     = (Ok (joinpath Scenario.album "a.json"), Scenario.two_configs_world)
  /\ fst (populate_album_metadata Scenario.album None None Scenario.two_configs_world)
     = Ok tt.
Proof. repeat split; vm_compute; reflexivity. Qed.

End ConfigResolution.

(* ===================================================================== *)
(** ** File names: stems and suffixes *)
(* ===================================================================== *)

Section NameFacts.

Lemma length_append (s t : string) :
  String.length (s ++ t) = String.length s + String.length t.
Proof. induction s as [|c s IH]; simpl; [reflexivity|now rewrite IH]. Qed.

Lemma append_inv_tail (s1 s2 t : string) : s1 ++ t = s2 ++ t -> s1 = s2.
Proof.
  revert s2. induction s1 as [|c s1 IH]; intros [|c2 s2] H; simpl in H.
  - reflexivity.
  - apply (f_equal String.length) in H. simpl in H.
    rewrite length_append in H. lia.
  - apply (f_equal String.length) in H. simpl in H.
    rewrite length_append in H. lia.
  - inversion H; subst. f_equal. now apply IH.
Qed.

Lemma substring_all (s : string) : substring 0 (String.length s) s = s.
Proof. induction s as [|c s IH]; simpl; [reflexivity|now rewrite IH]. Qed.

(** [s[:i] + s[i:] == s] *)
Lemma slice_to_from (i : nat) (s : string) : slice_to i s ++ slice_from i s = s.
Proof.
  unfold slice_to, slice_from. revert i.
  induction s as [|c s IH]; intros [|i]; simpl; try reflexivity.
  - now rewrite substring_all.
  - now rewrite IH.
Qed.

Lemma slice_from_append (s t : string) : slice_from (String.length s) (s ++ t) = t.
Proof.
  unfold slice_from. induction s as [|c s IH]; simpl.
  - rewrite Nat.sub_0_r. apply substring_all.
  - exact IH.
Qed.

Lemma rfind_append_mp3 (s : string) :
  rfind "." (s ++ ".mp3") = Some (String.length s).
Proof. induction s as [|c s IH]; simpl; [reflexivity|]. simpl in IH. now rewrite IH. Qed.

Lemma name_joinpath (d : Path) (n : string) : name (joinpath d n) = n.
Proof. unfold name, joinpath. apply last_last. Qed.

Lemma parent_joinpath (d : Path) (n : string) : parent (joinpath d n) = d.
Proof. unfold parent, joinpath. apply removelast_last. Qed.

(** A file written as a non-empty stem followed by .mp3 has suffix .mp3. *)
Lemma suffix_mp3 (d : Path) (s : string) :
  s <> "" -> suffix (joinpath d (s ++ ".mp3")) = ".mp3".
Proof.
  intros Hs. unfold suffix. rewrite name_joinpath, rfind_append_mp3.
  rewrite length_append, slice_from_append.
  destruct s as [|c s]; [contradiction|]. simpl String.length.
  replace (0 <? S (String.length s))%nat with true by reflexivity.
  replace (S (String.length s) <? S (String.length s) + 4 - 1)%nat with true
    by (symmetry; apply Nat.ltb_lt; lia).
  reflexivity.
Qed.

(** A name with a suffix is its stem followed by that suffix, and the stem
    is not empty. *)
Lemma name_stem_suffix (p : Path) :
  suffix p <> "" -> name p = stem p ++ suffix p /\ stem p <> "".
Proof.
  unfold suffix, stem. destruct (rfind "." (name p)) as [i|]; [|congruence].
  destruct ((0 <? i) && (i <? String.length (name p) - 1))%nat eqn:Hi; [|congruence].
  intros _. split; [now rewrite slice_to_from|].
  apply andb_true_iff in Hi as [Hpos Hlt].
  apply Nat.ltb_lt in Hpos, Hlt.
  unfold slice_to. destruct i as [|i]; [lia|].
  destruct (name p); simpl in *; [lia|discriminate].
Qed.

Lemma is_wav_suffix (p : Path) : is_wav p = true <-> suffix p = ".wav".
Proof. unfold is_wav. apply String.eqb_eq. Qed.

Lemma child_of_parent (d p : Path) :
  child_of d p = true -> parent p = d /\ p <> [].
Proof.
  unfold child_of. destruct p as [|a p]; [discriminate|].
  intros H. apply path_eqb_eq in H. split; [assumption|discriminate].
Qed.

Lemma child_of_joinpath (d : Path) (n : string) : child_of d (joinpath d n) = true.
Proof.
  unfold child_of. rewrite parent_joinpath, path_eqb_refl.
  unfold joinpath. destruct d; reflexivity.
Qed.

(** Two different .wav files never share their .mp3 sibling. *)
Lemma sibling_mp3_inj (p q : Path) :
  p <> [] -> q <> [] -> is_wav p = true -> is_wav q = true ->
  sibling_mp3 p = sibling_mp3 q -> p = q.
Proof.
  intros Hp Hq Hwp Hwq Heq.
  apply is_wav_suffix in Hwp, Hwq.
  unfold sibling_mp3, joinpath in Heq.
  apply app_inj_tail in Heq as [Hparent Hstem].
  apply append_inv_tail in Hstem.
  destruct (name_stem_suffix p) as [Hnp _]; [rewrite Hwp; discriminate|].
  destruct (name_stem_suffix q) as [Hnq _]; [rewrite Hwq; discriminate|].
  rewrite (app_removelast_last "" Hp), (app_removelast_last "" Hq).
  fold (parent p) (parent q) (name p) (name q).
  now rewrite Hparent, Hnp, Hnq, Hstem, Hwp, Hwq.
Qed.

Lemma sibling_mp3_is_music (d p : Path) :
  child_of d p = true -> is_wav p = true ->
  child_of d (sibling_mp3 p) = true /\ suffix (sibling_mp3 p) = ".mp3".
Proof.
  intros Hc Hw. apply child_of_parent in Hc as [Hparent _].
  apply is_wav_suffix in Hw.
  unfold sibling_mp3. rewrite Hparent. split.
  - apply child_of_joinpath.
  - apply suffix_mp3. apply name_stem_suffix. rewrite Hw. discriminate.
Qed.

End NameFacts.

(* ===================================================================== *)
(** ** The file system under appended entries *)
(* ===================================================================== *)

Section FsFacts.

Lemma lookup_app (p : Path) (f g : FS) :
  lookup p (f ++ g)%list
  = match lookup p f with Some k => Some k | None => lookup p g end.
Proof.
  induction f as [|[q k] f IH]; simpl; [reflexivity|].
  destruct (path_eqb p q); [reflexivity|exact IH].
Qed.

Lemma is_file_app (p : Path) (f g : FS) :
  is_file p f = true -> is_file p (f ++ g)%list = true.
Proof.
  unfold is_file. rewrite lookup_app.
  destruct (lookup p f) as [[|]|]; intros H; try discriminate; reflexivity.
Qed.

Lemma is_dir_app (p : Path) (f g : FS) :
  is_dir p f = true -> is_dir p (f ++ g)%list = true.
Proof.
  unfold is_dir. destruct p; [reflexivity|]. rewrite lookup_app.
  destruct (lookup _ f) as [[|]|]; intros H; try discriminate; reflexivity.
Qed.

(** A new entry does not change what another path is. *)
Lemma is_file_other (p q : Path) (k : Kind) (f : FS) :
  q <> p -> is_file q (f ++ [(p, k)])%list = is_file q f.
Proof.
  intros Hne. unfold is_file. rewrite lookup_app. simpl.
  apply path_eqb_neq in Hne. rewrite Hne.
  destruct (lookup q f); reflexivity.
Qed.

Lemma listing_app (d : Path) (f g : FS) :
  listing d (f ++ g)%list = (listing d f ++ listing d g)%list.
Proof. unfold listing. now rewrite map_app, filter_app. Qed.

(** The listing after files have been added inside the directory. *)
Lemma listing_added (d : Path) (f : FS) (added : list Path) :
  Forall (fun p => child_of d p = true /\ suffix p = ".mp3") added ->
  listing d (f ++ map (fun p => (p, File)) added)%list
  = (listing d f ++ added)%list.
Proof.
  intros Hall. rewrite listing_app. f_equal.
  unfold listing. rewrite map_map. simpl. rewrite map_id.
  induction Hall as [|p l [Hc _] _ IH]; simpl; [reflexivity|].
  now rewrite Hc, IH.
Qed.

Lemma music_added (l added : list Path) (d : Path) :
  Forall (fun p => child_of d p = true /\ suffix p = ".mp3") added ->
  filter CdRipper.is_music (l ++ added)%list
  = (filter CdRipper.is_music l ++ added)%list.
Proof.
  intros Hall. rewrite filter_app. f_equal.
  induction Hall as [|p l' [_ Hs] _ IH]; simpl; [reflexivity|].
  unfold CdRipper.is_music at 1. rewrite Hs. simpl. now rewrite IH.
Qed.

End FsFacts.

(* ===================================================================== *)
(** ** The album pipeline: transcoding, then matching *)
(* ===================================================================== *)

Section Pipeline.

Import CdRipper.

Lemma tagger_calls_app (tr es : list Event) :
  forallb (fun e => negb (is_tagger_call e)) es = true ->
  tagger_calls (tr ++ es)%list = tagger_calls tr.
Proof.
  intros Hes. unfold tagger_calls. rewrite filter_app.
  rewrite (filter_none is_tagger_call es), app_nil_r; [reflexivity|].
  intros e He. rewrite forallb_forall in Hes.
  apply negb_true_iff. now apply Hes.
Qed.

(** One conversion of the loop, when the file is there, the transcoder
    works and the operator answers the prompt, if there is one, by y or N:
    it returns, the .mp3 sibling is written, at most one answer is used and
    the tagger is not run. *)
Lemma wav_to_mp3_returns (p : Path) (w : World) :
  is_file p (fs w) = true ->
  is_dir (parent p) (fs w) = true ->
  ffmpeg_ok (env w) p (sibling_mp3 p) = true ->
  Forall valid_answer (stdin w) ->
  (is_file (sibling_mp3 p) (fs w) = true -> stdin w <> []) ->
  exists w',
    wav_to_mp3 p true None w = (Ok (sibling_mp3 p), w')
    /\ env w' = env w
    /\ fs w' = write_file (sibling_mp3 p) (fs w)
    /\ stdin w' = (if is_file (sibling_mp3 p) (fs w) then tl (stdin w) else stdin w)
    /\ tagger_calls (trace w') = tagger_calls (trace w).
Proof.
  intros Hfile Hdir Hffmpeg Hvalid Hans.
  unfold wav_to_mp3, bind, get_fs, resolve. cbv beta.
  rewrite Hfile. cbn [negb]. cbv beta iota.
  rewrite Hdir. cbn [negb]. cbv beta iota.
  fold (sibling_mp3 p).
  destruct (is_file (sibling_mp3 p) (fs w)) eqn:Hmp3.
  - destruct (stdin w) as [|a rest] eqn:Hin; [now specialize (Hans eq_refl)|].
    inversion Hvalid as [|? ? Ha _]; subst.
    rewrite (overwrite_loop_settles _ [] a rest w (Forall_nil _) Ha).
    unfold run_ffmpeg.
    destruct Ha as [-> | ->]; cbn [String.eqb Ascii.eqb Bool.eqb negb]; cbv beta iota.
    + world_simpl. rewrite Hffmpeg. world_simpl.
      rewrite write_file_existing by (now apply is_file_exists).
      rewrite Hmp3. cbn [andb negb ret].
      eexists. split; [reflexivity|]. world_simpl. cbn [tl].
      repeat split; try reflexivity.
      rewrite <- app_assoc. now apply tagger_calls_app.
    + eexists. split; [reflexivity|]. world_simpl. cbn [tl].
      rewrite write_file_existing by (now apply is_file_exists).
      repeat split; try reflexivity.
      now apply tagger_calls_app.
  - unfold run_ffmpeg, ret. cbn [negb]. cbv beta iota. rewrite Hffmpeg. world_simpl.
    destruct (is_file (sibling_mp3 p) (write_file (sibling_mp3 p) (fs w)));
      cbn [andb negb]; eexists; (split; [reflexivity|]);
      world_simpl; repeat split; try reflexivity;
      now apply tagger_calls_app.
Qed.

Lemma convert_wav_files_cons (p : Path) (l : list Path)
    (output_directory : option Path) (w : World) :
  convert_wav_files (p :: l) output_directory w
  = if is_wav p
    then match wav_to_mp3 p true output_directory w with
         | (Ok _, w1) => convert_wav_files l output_directory w1
         | (Raise e, w1) => (Raise e, w1)
         end
    else convert_wav_files l output_directory w.
Proof.
  unfold convert_wav_files, is_wav. cbn [for_each]. unfold bind, ret.
  destruct (suffix p =? ".wav")%string; [|reflexivity].
  destruct (wav_to_mp3 p true output_directory w) as [[mp3|e] w1]; reflexivity.
Qed.

Lemma awaiting_overwrite_cons (p : Path) (l : list Path) (f : FS) :
  awaiting_overwrite (p :: l) f
  = if is_wav p && is_file (sibling_mp3 p) f
    then p :: awaiting_overwrite l f else awaiting_overwrite l f.
Proof. reflexivity. Qed.

(** Writing a file appends at most that file. *)
Lemma write_file_cases (p : Path) (f : FS) :
  (exists_ p f = true /\ write_file p f = (f ++ map (fun q => (q, File)) [])%list)
  \/ (exists_ p f = false /\ is_file p f = false
      /\ write_file p f = (f ++ map (fun q => (q, File)) [p])%list).
Proof.
  unfold write_file. destruct (exists_ p f) eqn:He.
  - left. split; [reflexivity|]. simpl. now rewrite app_nil_r.
  - right. repeat split.
    unfold exists_, is_file in *. destruct p; [discriminate|].
    destruct (lookup _ f); [discriminate|reflexivity].
Qed.

(** The conversion loop over entries of the album directory, each .wav a
    regular file the transcoder accepts, with an answer y or N ready for
    every overwrite prompt: the loop completes, it only adds .mp3 files to
    the directory, it adds at least one when some .wav had no sibling, and
    it does not run the tagger. *)
Lemma convert_wav_files_adds (album : Path) :
  forall (l : list Path) (w : World),
    is_dir album (fs w) = true ->
    NoDup l ->
    (forall p, In p l -> child_of album p = true) ->
    (forall p, In p l -> is_wav p = true ->
               is_file p (fs w) = true
               /\ ffmpeg_ok (env w) p (sibling_mp3 p) = true) ->
    Forall valid_answer (stdin w) ->
    length (awaiting_overwrite l (fs w)) <= length (stdin w) ->
    exists w' added,
      convert_wav_files l None w = (Ok tt, w')
      /\ env w' = env w
      /\ fs w' = (fs w ++ map (fun p => (p, File)) added)%list
      /\ Forall (fun p => child_of album p = true /\ suffix p = ".mp3") added
      /\ tagger_calls (trace w') = tagger_calls (trace w)
      /\ ((exists q, In q l /\ is_wav q = true
                     /\ exists_ (sibling_mp3 q) (fs w) = false)
          -> added <> []).
Proof.
  induction l as [|p l IH]; intros w Hdir Hnd Hchild Hok Hvalid Hans.
  - exists w, []. simpl. rewrite app_nil_r.
    repeat split; auto. intros [q [[] _]].
  - inversion Hnd as [|? ? Hpl Hnd']; subst.
    rewrite convert_wav_files_cons.
    rewrite awaiting_overwrite_cons in Hans.
    destruct (is_wav p) eqn:Hw.
    + destruct (Hok p (or_introl eq_refl) Hw) as [Hfile Hff].
      pose proof (Hchild p (or_introl eq_refl)) as Hcp.
      destruct (child_of_parent album p Hcp) as [Hparent Hpne].
      destruct (wav_to_mp3_returns p w) as [w1 [Hrun [Henv [Hfs [Hstdin Htag]]]]];
        auto.
      { now rewrite Hparent. }
      { intros Hmp3. rewrite Hmp3 in Hans. simpl in Hans.
        destruct (stdin w); simpl in Hans; [lia|discriminate]. }
      rewrite Hrun.
      assert (Hext : exists ext,
                 fs w1 = (fs w ++ map (fun q => (q, File)) ext)%list
                 /\ Forall (fun q => child_of album q = true /\ suffix q = ".mp3") ext
                 /\ (forall q, In q l -> is_wav q = true ->
                                is_file (sibling_mp3 q) (fs w1)
                                = is_file (sibling_mp3 q) (fs w))
                 /\ (ext = [] -> exists_ (sibling_mp3 p) (fs w) = true)).
      { rewrite Hfs.
        destruct (write_file_cases (sibling_mp3 p) (fs w))
          as [[Hex Hwr] | [Hex [_ Hwr]]]; rewrite Hwr.
        - exists []. repeat split; auto.
          intros q _ _. simpl. now rewrite app_nil_r.
        - exists [sibling_mp3 p]. repeat split.
          + constructor; [|constructor]. now apply sibling_mp3_is_music.
          + intros q Hq Hwq. simpl. apply is_file_other.
            intros Heq. apply sibling_mp3_inj in Heq; auto.
            * subst q. contradiction.
            * apply (child_of_parent album q). apply Hchild. now right.
          + discriminate. }
      destruct Hext as [ext [Hfs1 [Hextmusic [Hsame Hextnil]]]].
      destruct (IH w1) as [w' [added [Hloop [Henv' [Hfs' [Hmusic [Htag' Hsome]]]]]]].
      { rewrite Hfs1. now apply is_dir_app. }
      { assumption. }
      { intros q Hq. apply Hchild. now right. }
      { intros q Hq Hwq. destruct (Hok q (or_intror Hq) Hwq) as [Hfq Hffq].
        rewrite Henv, Hfs1. split; [now apply is_file_app|assumption]. }
      { rewrite Hstdin. destruct (is_file (sibling_mp3 p) (fs w)); [|assumption].
        destruct (stdin w); [constructor|]. now inversion Hvalid. }
      { assert (Haw : awaiting_overwrite l (fs w1) = awaiting_overwrite l (fs w)).
        { unfold awaiting_overwrite. apply filter_ext_in. intros q Hq.
          destruct (is_wav q) eqn:Hwq; [|reflexivity]. simpl. now apply Hsame. }
        rewrite Haw, Hstdin.
        destruct (is_file (sibling_mp3 p) (fs w)); simpl in Hans; [|assumption].
        destruct (stdin w); simpl in *; lia. }
      exists w', (ext ++ added)%list. repeat split.
      * assumption.
      * congruence.
      * rewrite Hfs', Hfs1, map_app. now rewrite app_assoc.
      * apply Forall_app. now split.
      * congruence.
      * intros [q [Hq [Hwq Hnone]]] Hnil.
        apply app_eq_nil in Hnil as [Hextnil' Haddednil].
        specialize (Hextnil Hextnil').
        destruct Hq as [<- | Hq]; [congruence|].
        apply Hsome; [|assumption].
        exists q. repeat split; auto.
        rewrite Hfs1, Hextnil'. simpl. now rewrite app_nil_r.
    + simpl in Hans.
      destruct (IH w) as [w' [added [Hloop [Henv' [Hfs' [Hmusic [Htag' Hsome]]]]]]];
        auto.
      { intros q Hq. apply Hchild. now right. }
      { intros q Hq. apply Hok. now right. }
      exists w', added. repeat split; auto.
      intros [q [Hq [Hwq Hnone]]]. apply Hsome.
      destruct Hq as [<- | Hq]; [congruence|].
      exists q. repeat split; auto.
Qed.

Lemma resolve_config_settled
    (album : Path) (config_json : option Path) (config : Path) (w : World) :
  is_dir album (fs w) = true ->
  config_settled album config_json config (fs w) ->
  is_file config (fs w) = true ->
  resolve_config album config_json w = (Ok config, w).
Proof.
  intros Hdir Hcfg Hfile. destruct config_json as [given|]; simpl in Hcfg.
  - subst given.
    unfold resolve_config, bind, get_fs. cbv beta iota.
    rewrite Hfile. reflexivity.
  - unfold resolve_config, reading, bind. cbv beta.
    rewrite (iterdir_of_dir _ _ Hdir). cbv beta iota.
    change (fun f : Path => (suffix f =? ".json")%string) with is_json.
    destruct (filter is_json (listing album (fs w))) as [|c others];
      [discriminate|].
    simpl in Hcfg. inversion Hcfg; subst c. reflexivity.
Qed.

(** C4, as the code has it.  No output directory is given; the
    configuration file, which is the path given or, when none is given, the
    first .json entry of the album directory, is a regular file that holds
    the titles; every .wav entry of the album directory is a regular file
    the transcoder accepts; the operator has an answer y or N for every
    overwrite prompt; and at least one .wav entry has no .mp3 sibling yet.
    Then the transcoding step adds at least one .mp3 next to the .wav files,
    so when the number of titles equals the number of audio files the
    directory had at the start, the matcher raises the count-mismatch error
    and the tagger is never run. *)
Theorem pipeline_stops_at_count_mismatch
    (album : Path) (config_json : option Path) (config : Path)
    (cfg : AlbumConfig) (titles : list string) (wav_file : Path) (w : World) :
  is_dir album (fs w) = true ->
  NoDup (listing album (fs w)) ->
  config_settled album config_json config (fs w) ->
  is_file config (fs w) = true ->
  json_of (env w) config = Some cfg ->
  cfg_songs cfg = Some titles ->
  (forall p, In p (listing album (fs w)) -> is_wav p = true ->
             is_file p (fs w) = true
             /\ ffmpeg_ok (env w) p (sibling_mp3 p) = true) ->
  Forall valid_answer (stdin w) ->
  length (awaiting_overwrite (listing album (fs w)) (fs w)) <= length (stdin w) ->
  In wav_file (listing album (fs w)) ->
  is_wav wav_file = true ->
  exists_ (sibling_mp3 wav_file) (fs w) = false ->
  length titles = length (filter is_music (listing album (fs w))) ->
  exists (n : nat) (w' : World),
    populate_album_metadata album config_json None w
    = (Raise (ValueError ("Found " ++ str_of_nat n ++ " music files, but given "
                          ++ str_of_nat (length titles) ++ " titles.")), w')
    /\ length titles < n
    /\ n = length (filter is_music (listing album (fs w')))
    /\ tagger_calls (trace w') = tagger_calls (trace w).
Proof.
  intros Hdir Hnd Hcfg Hcfile Hjson Hsongs Hok Hvalid Hans Hin Hwav Hnone Hcount.
  set (w2 := record (Print "(2) Converting .wav files to .mp3")
               (record (Print ("(1) Loading album metadata from "
                               ++ path_str (resolve config))) w)).
  destruct (convert_wav_files_adds album (listing album (fs w)) w2)
    as [w3 [added [Hloop [Henv [Hfs [Hmusic [Htag Hsome]]]]]]]; auto.
  { intros p Hp. unfold listing in Hp. apply filter_In in Hp. tauto. }
  assert (Hadded : added <> []) by (apply Hsome; now exists wav_file).
  change (fs w2) with (fs w) in Hfs.
  change (trace w2) with ((trace w ++ [Print ("(1) Loading album metadata from "
                                               ++ path_str (resolve config))])
                          ++ [Print "(2) Converting .wav files to .mp3"])%list in Htag.
  assert (Hdir3 : is_dir album (fs w3) = true)
    by (rewrite Hfs; now apply is_dir_app).
  assert (Hmusic3 : filter is_music (listing album (fs w3))
                    = (filter is_music (listing album (fs w)) ++ added)%list).
  { rewrite Hfs, listing_added by assumption. now apply (music_added _ _ album). }
  exists (length (filter is_music (listing album (fs w3)))),
         (record (Print "(3) Attempting to match metadata song titles with files") w3).
  split; [|split; [|split]].
  - unfold populate_album_metadata, bind, get_fs. cbv beta.
    rewrite Hdir. cbn [negb]. cbv beta iota.
    rewrite (resolve_config_settled album config_json config w Hdir Hcfg Hcfile).
    cbv beta iota.
    unfold ret, emit, load_album_config_file, reading. cbv beta iota.
    change (fs (record _ w)) with (fs w).
    change (env (record _ w)) with (env w).
    rewrite Hcfile, Hjson. cbv beta iota.
    fold w2. change (fs w2) with (fs w).
    rewrite (iterdir_of_dir _ _ Hdir). cbv beta iota.
    rewrite Hloop. cbv beta iota.
    rewrite Hsongs. unfold ret. cbv beta iota.
    change (fs (record _ w3)) with (fs w3).
    rewrite (match_titles_to_files_listing _ _ _ Hdir3).
    unfold match_entries.
    replace (length titles =? length (filter is_music (listing album (fs w3))))%nat
      with false; [reflexivity|].
    symmetry. apply Nat.eqb_neq. rewrite Hmusic3, length_app, <- Hcount.
    destruct added; [contradiction|simpl; lia].
  - rewrite Hmusic3, length_app, <- Hcount.
    destruct added; [contradiction|simpl; lia].
  - reflexivity.
  - world_simpl. rewrite tagger_calls_app by reflexivity.
    rewrite Htag. now rewrite !tagger_calls_app by reflexivity.
Qed.

End Pipeline.

Section PipelineWitness.

Import CdRipper.

Lemma pipeline_stops_at_count_mismatch_witness :
  (exists (n : nat) (w' : World),
     populate_album_metadata Scenario.album None None Scenario.fresh_world
     = (Raise (ValueError ("Found " ++ str_of_nat n ++ " music files, but given "
                           ++ str_of_nat 3 ++ " titles.")), w')
     /\ 3 < n
     /\ n = length (filter is_music (listing Scenario.album (fs w')))
     /\ tagger_calls (trace w') = [])
  /\ (exists (n : nat) (w' : World),
        populate_album_metadata Scenario.album (Some Cases.given_config) None
                                Cases.given_config_world
        = (Raise (ValueError ("Found " ++ str_of_nat n ++ " music files, but given "
                              ++ str_of_nat 3 ++ " titles.")), w')
        /\ 3 < n
        /\ n = length (filter is_music (listing Scenario.album (fs w')))
        /\ tagger_calls (trace w') = []).
Proof.
  split.
  - apply (pipeline_stops_at_count_mismatch
             Scenario.album None (joinpath Scenario.album "album.json")
             Scenario.fresh_config ["Alpha"; "Beta"; "Gamma"]
             (joinpath Scenario.album "01-Alpha.wav") Scenario.fresh_world).
    + reflexivity.
    + vm_compute.
      repeat constructor; simpl; intros H;
        repeat (destruct H as [H|H]; [discriminate H|]); exact H.
    + reflexivity.
    + reflexivity.
    + reflexivity.
    + reflexivity.
    + intros p Hp Hw. vm_compute in Hp.
      destruct Hp as [<-|[<-|[<-|[<-|[]]]]]; try discriminate Hw;
        split; reflexivity.
    + repeat constructor.
    + vm_compute. constructor.
    + vm_compute. left. reflexivity.
    + reflexivity.
    + reflexivity.
    + reflexivity.
  - apply (pipeline_stops_at_count_mismatch
             Scenario.album (Some Cases.given_config) Cases.given_config
             Scenario.fresh_config ["Alpha"; "Beta"; "Gamma"]
             (joinpath Scenario.album "01-Alpha.wav") Cases.given_config_world).
    + reflexivity.
    + vm_compute.
      repeat constructor; simpl; intros H;
        repeat (destruct H as [H|H]; [discriminate H|]); exact H.
    + reflexivity.
    + reflexivity.
    + reflexivity.
    + reflexivity.
    + intros p Hp Hw. vm_compute in Hp.
      destruct Hp as [<-|[<-|[<-|[]]]]; try discriminate Hw;
        split; reflexivity.
    + repeat constructor.
    + vm_compute. constructor.
    + vm_compute. left. reflexivity.
    + reflexivity.
    + reflexivity.
    + reflexivity.
Defined.

(** The run of the theorem's witness, in full: four audio files are found
    for three titles. *)
Example fresh_album_count_mismatch :
  fst (populate_album_metadata Scenario.album None None Scenario.fresh_world)
  = Raise (ValueError "Found 4 music files, but given 3 titles.").
Proof. vm_compute. reflexivity. Qed.

(** The same album with the configuration given by its path, outside the
    album directory. *)
Example given_config_count_mismatch :
  fst (populate_album_metadata Scenario.album (Some Cases.given_config) None
                               Cases.given_config_world)
  = Raise (ValueError "Found 4 music files, but given 3 titles.").
Proof. vm_compute. reflexivity. Qed.

(** C4, as stated, fails: the album directory holds a .wav file, no output
    directory is given, the transcoder is run on the .wav (the operator
    answers y) and the .wav is kept, and the number of titles equals the
    number of audio files the directory had at the start; yet the matcher
    does not raise the count-mismatch error, because the .mp3 was there
    before.  It raises the no-match error, and so it does when the operator
    answers N and the transcoder is not run. *)
Lemma rerun_is_no_count_mismatch :
  In (joinpath Scenario.album "1-Alpha.wav")
     (filter is_wav (listing Scenario.album (fs Scenario.rerun_world)))
  /\ option_map (@length string) (cfg_songs Scenario.rerun_config)
     = Some (length (filter is_music
                       (listing Scenario.album (fs Scenario.rerun_world))))
  /\ fst (populate_album_metadata Scenario.album None None Scenario.rerun_world)
     = Raise (RuntimeError "Found no music files matching 2-Beta")
  /\ transcoder_calls
       (trace (snd (populate_album_metadata Scenario.album None None
                      Scenario.rerun_world)))
     = [Subprocess (ffmpeg_command (joinpath Scenario.album "1-Alpha.wav")
                                   (joinpath Scenario.album "1-Alpha.mp3"))]
  /\ is_file (joinpath Scenario.album "1-Alpha.wav")
             (fs (snd (populate_album_metadata Scenario.album None None
                         Scenario.rerun_world))) = true
  /\ (forall msg,
        fst (populate_album_metadata Scenario.album None None Scenario.rerun_world)
        <> Raise (ValueError msg))
  /\ fst (populate_album_metadata Scenario.album None None
            (set_stdin ["N"] Scenario.rerun_world))
     = Raise (RuntimeError "Found no music files matching 2-Beta").
Proof.
  split; [vm_compute; left; reflexivity|].
  split; [vm_compute; reflexivity|].
  split; [vm_compute; reflexivity|].
  split; [vm_compute; reflexivity|].
  split; [vm_compute; reflexivity|].
  split; [intros msg; vm_compute; discriminate|].
  vm_compute. reflexivity.
Qed.

End PipelineWitness.

(* ===================================================================== *)
(** ** The multi-disc sequencer *)
(* ===================================================================== *)

Section Sequencer.

Import Raw.

(** C1.  A live run over a disc of ten tracks and a disc of one track.
    Relocating the first disc moves ten files but returns 0, the number of
    files left in the scratch directory after the moves; the running offset
    therefore stays 0, and the first file of the second disc is stored
    under number 01, not 11. *)
Theorem live_run_restarts_numbering :
  let first := move_wav_files_to_album Scenario.temp_dir Scenario.album 0
                 "cd01track" false Scenario.ripped_world in
  let run := rip_album_from_cd Scenario.album 2 false
               (Scenario.ripping_world [Scenario.disc_of 10; Scenario.disc_of 1]) in
  fst first = Ok 0%Z
  /\ length (executed_moves (trace (snd first))) = 10
  /\ fst run = Ok tt
  /\ executed_moves (trace (snd run))
     = (map (fun k => Scenario.move_of k (Spec.relocated_name 1 k)) (seq 1 10)
        ++ [Scenario.move_of 1 "cd02track01.wav"])%list
  /\ ~ In (Scenario.move_of 1 "cd02track11.wav") (executed_moves (trace (snd run))).
Proof.
  cbv zeta. split; [vm_compute; reflexivity|].
  split; [vm_compute; reflexivity|].
  split; [vm_compute; reflexivity|].
  split; [vm_compute; reflexivity|].
  vm_compute. intros H.
  repeat (destruct H as [H|H]; [discriminate H|]). exact H.
Qed.

End Sequencer.

(* ===================================================================== *)
(** ** Dry runs carry out no move *)
(* ===================================================================== *)

Section Preservation.

Variable I : World -> World -> Prop.
Hypothesis I_refl : forall w, I w w.
Hypothesis I_trans : forall w1 w2 w3, I w1 w2 -> I w2 w3 -> I w1 w3.

Lemma preserves_ret {A : Type} (a : A) : preserves I (ret a).
Proof. intros w. apply I_refl. Qed.

Lemma preserves_raise {A : Type} (e : Exception) : preserves I (@raise A e).
Proof. intros w. apply I_refl. Qed.

Lemma preserves_reading {A : Type} (r : FS -> Exc A) : preserves I (reading r).
Proof. intros w. apply I_refl. Qed.

Lemma preserves_bind {A B : Type} (m : M A) (k : A -> M B) :
  preserves I m -> (forall a, preserves I (k a)) -> preserves I (bind m k).
Proof.
  intros Hm Hk w. unfold bind. specialize (Hm w).
  destruct (m w) as [[a|e] w1]; simpl in *; [|assumption].
  apply (I_trans _ w1); [assumption|apply Hk].
Qed.

Lemma preserves_for_each {A : Type} (l : list A) (body : A -> M unit) :
  (forall x, preserves I (body x)) -> preserves I (for_each l body).
Proof.
  intros Hbody. induction l as [|x l IH]; simpl.
  - apply preserves_ret.
  - apply preserves_bind; [apply Hbody|intros _; exact IH].
Qed.

End Preservation.

Section DryRun.

Import Raw.

Lemma executed_moves_app (tr es : list Event) :
  executed_moves (tr ++ es)%list = (executed_moves tr ++ executed_moves es)%list.
Proof.
  induction tr as [|e tr IH]; simpl; [reflexivity|].
  destruct e; simpl; now rewrite IH.
Qed.

Lemma no_move_refl (w : World) : no_move_between w w.
Proof. reflexivity. Qed.

Lemma no_move_trans (w1 w2 w3 : World) :
  no_move_between w1 w2 -> no_move_between w2 w3 -> no_move_between w1 w3.
Proof. unfold no_move_between. congruence. Qed.

Lemma no_move_record (e : Event) (w : World) :
  executed_moves [e] = [] -> no_move_between w (record e w).
Proof.
  intros He. unfold no_move_between. world_simpl.
  now rewrite executed_moves_app, He, app_nil_r.
Qed.

Lemma emit_no_move (e : Event) :
  executed_moves [e] = [] -> preserves no_move_between (emit e).
Proof. intros He w. now apply no_move_record. Qed.

Lemma input_no_move (prompt : string) : preserves no_move_between (input prompt).
Proof.
  intros w. unfold input. destruct (stdin w); simpl; now apply no_move_record.
Qed.

Lemma mkdir_no_move (p : Path) : preserves no_move_between (mkdir_exist_ok p).
Proof.
  intros w. unfold mkdir_exist_ok.
  destruct (is_dir p (fs w)); [reflexivity|].
  destruct (exists_ p (fs w)); [reflexivity|].
  destruct (is_dir (parent p) (fs w)); reflexivity.
Qed.

Lemma rip_no_move (folder : Path) : preserves no_move_between (rip_cd_to_folder folder).
Proof.
  intros w. unfold rip_cd_to_folder.
  destruct (is_dir folder (fs w)); [|reflexivity]. cbn [negb].
  refine (preserves_bind _ no_move_trans _ _ _ _ w).
  - now apply emit_no_move.
  - intros _ w1. unfold run_cdparanoia.
    destruct (drive w1) as [|d rest]; [now apply no_move_record|].
    destruct (disc_ok d); simpl; now apply (no_move_record _ w1).
Qed.

(** A dry relocation carries out no move. *)
Lemma dry_relocation_no_move (wav album : Path) (initial_index : Z) (prefix : string) :
  preserves no_move_between
    (move_wav_files_to_album wav album initial_index prefix true).
Proof.
  unfold move_wav_files_to_album.
  apply (preserves_bind _ no_move_trans);
    [apply (preserves_reading _ no_move_refl)|].
  intros files.
  apply (preserves_bind _ no_move_trans).
  - apply (preserves_for_each _ no_move_refl no_move_trans).
    intros x.
    apply (preserves_bind _ no_move_trans).
    + intros w. reflexivity.
    + intros parsed. now apply emit_no_move.
  - intros _.
    apply (preserves_bind _ no_move_trans);
      [apply (preserves_reading _ no_move_refl)|].
    intros remaining. apply (preserves_ret _ no_move_refl).
Qed.

Lemma dry_disc_loop_no_move (ns : list nat) (temp_dir folder : Path) :
  forall track_num,
    preserves no_move_between (disc_loop ns temp_dir folder track_num true).
Proof.
  induction ns as [|n ns IH]; intros track_num; cbn [disc_loop].
  - apply (preserves_ret _ no_move_refl).
  - apply (preserves_bind _ no_move_trans); [apply input_no_move|].
    intros _.
    apply (preserves_bind _ no_move_trans); [apply rip_no_move|].
    intros _.
    apply (preserves_bind _ no_move_trans); [apply dry_relocation_no_move|].
    intros moved. apply IH.
Qed.

(** A dry run of the sequencer carries out no move, whatever the discs,
    the directories and the operator. *)
Lemma dry_run_no_move (folder : Path) (cd_count : Z) :
  preserves no_move_between (rip_album_from_cd folder cd_count true).
Proof.
  unfold rip_album_from_cd.
  apply (preserves_bind _ no_move_trans); [apply mkdir_no_move|].
  intros _ w. unfold with_temporary_directory.
  destruct (exists_ (mkdtemp (env w)) (fs w)); [reflexivity|].
  destruct (is_dir (parent (mkdtemp (env w))) (fs w)); [|reflexivity].
  cbn [negb].
  pose proof (dry_disc_loop_no_move (disc_range cd_count) (mkdtemp (env w)) folder 0
                (set_fs (fs w ++ [(mkdtemp (env w), Dir)])%list w)) as H.
  destruct (disc_loop _ _ _ _ _ _) as [r w'].
  exact H.
Qed.

End DryRun.

Section SequencerClaims.

Import Raw.

(** C2.  Two discs of one track each, so that the scratch directory holds
    the same single file at both relocations, in a dry run and in a live
    run.  The dry run carries out no move.  But it reports, for the second
    disc, the target number 02, where the live run moves the file to number
    01: in the dry run the file stays in the scratch directory and is
    counted into the offset, in the live run it has been moved away before
    the count is taken. *)
Theorem dry_run_reports_other_targets :
  let discs := [Scenario.disc_of 1; Scenario.disc_of 1] in
  let dry := rip_album_from_cd Scenario.album 2 true (Scenario.ripping_world discs) in
  let live := rip_album_from_cd Scenario.album 2 false (Scenario.ripping_world discs) in
  fst dry = Ok tt
  /\ fst live = Ok tt
  /\ executed_moves (trace (snd dry)) = []
  /\ logged_moves (trace (snd dry))
     = [Scenario.move_of 1 "cd01track01.wav"; Scenario.move_of 1 "cd02track02.wav"]
  /\ executed_moves (trace (snd live))
     = [Scenario.move_of 1 "cd01track01.wav"; Scenario.move_of 1 "cd02track01.wav"]
  /\ map fst (logged_moves (trace (snd dry)))
     = map fst (executed_moves (trace (snd live)))
  /\ logged_moves (trace (snd dry)) <> executed_moves (trace (snd live)).
Proof.
  cbv zeta. repeat split; try (vm_compute; reflexivity).
  vm_compute. discriminate.
Qed.

Lemma scheme_checked :
  forallb (fun n => forallb (Spec.follows_scheme n) (seq 1 99)) (Spec.discs_but 9)
  = true.
Proof. vm_compute. reflexivity. Qed.

(** For the disc indices 1 to 99 other than 9 and the track numbers 1 to
    99 the destination name is the disc index on two digits, the marker
    track, the track number on two digits and the extension. *)
Lemma other_discs_follow_scheme (n m : nat) :
  1 <= n <= 99 -> n <> 9 -> 1 <= m <= 99 ->
  target_name (disc_prefix n) (Z.of_nat m) = Spec.relocated_name n m.
Proof.
  intros Hn Hn9 Hm.
  pose proof scheme_checked as H.
  rewrite forallb_forall in H.
  assert (Hin : In n (Spec.discs_but 9)).
  { unfold Spec.discs_but. apply filter_In. split.
    - apply in_seq. lia.
    - apply negb_true_iff, Nat.eqb_neq. assumption. }
  specialize (H n Hin). rewrite forallb_forall in H.
  specialize (H m). apply String.eqb_eq. apply H. apply in_seq. lia.
Qed.

(** C7.  The prefix of disc 9 is not padded: the test that pads the disc
    index is [n < 9], so the ninth disc is named cd9track, and its first
    track cd9track01.wav instead of cd09track01.wav. *)
Theorem ninth_disc_is_not_padded :
  disc_prefix 9 = "cd9track"
  /\ str_in (Spec.two_digits 9 ++ "track") (disc_prefix 9) = false
  /\ target_name (disc_prefix 9) 1 = "cd9track01.wav"
  /\ Spec.relocated_name 9 1 = "cd09track01.wav"
  /\ last (executed_moves
             (trace (snd (rip_album_from_cd Scenario.album 9 false
                            (Scenario.ripping_world (repeat (Scenario.disc_of 1) 9))))))
          ([], [])
     = Scenario.move_of 1 "cd9track01.wav".
Proof. repeat split; vm_compute; reflexivity. Qed.

End SequencerClaims.

(* ===================================================================== *)
(** ** What a live relocation returns *)
(* ===================================================================== *)

Section LiveRelocation.

Import Raw.

Lemma firstn_length_app (q s : Path) : firstn (length q) (q ++ s)%list = q.
Proof. induction q as [|a q IH]; simpl; [reflexivity|now rewrite IH]. Qed.

Lemma below_app (q s : Path) : below q (q ++ s)%list = true.
Proof.
  unfold below. rewrite firstn_length_app, path_eqb_refl, length_app.
  rewrite andb_true_r. apply Nat.leb_le. lia.
Qed.

Lemma below_refl (q : Path) : below q q = true.
Proof. rewrite <- (app_nil_r q) at 2. apply below_app. Qed.

(** No path below [raw] other than [raw] itself is a child of a directory
    that is not below [raw]. *)
Lemma not_child_of_outside (raw wav s : Path) :
  below raw wav = false -> s <> [] -> child_of wav (raw ++ s)%list = false.
Proof.
  intros Hout Hs. destruct (child_of wav (raw ++ s)%list) eqn:Hc; [|reflexivity].
  apply child_of_parent in Hc as [Hparent _].
  unfold parent in Hparent. rewrite removelast_app in Hparent by assumption.
  rewrite <- Hparent, below_app in Hout. discriminate.
Qed.

(** Renaming an entry to a place below [raw] takes it out of the listing of
    [wav] and brings nothing in. *)
Lemma listing_rename (raw wav x s : Path) (f : FS) :
  below raw wav = false -> s <> [] ->
  forall e, In e (listing wav (rename x (raw ++ s)%list f)) ->
            In e (listing wav f) /\ e <> x.
Proof.
  intros Hout Hs e He. unfold listing in He.
  apply filter_In in He as [He Hc].
  unfold rename in He. rewrite map_map in He.
  apply in_map_iff in He as [[p k] [Hep Hp]].
  apply filter_In in Hp as [Hp _]. simpl in Hep.
  destruct (below x p) eqn:Hb; simpl in Hep; subst e.
  - rewrite <- app_assoc, not_child_of_outside in Hc; auto; [discriminate|].
    destruct s; [contradiction|discriminate].
  - split.
    + unfold listing. apply filter_In. split; [|assumption].
      apply in_map_iff. now exists (p, k).
    + intros ->. rewrite below_refl in Hb. discriminate.
Qed.

Lemma shutil_move_inv (src dst : Path) (w w' : World) :
  shutil_move src dst w = (Ok tt, w') ->
  exists t, (t = [] \/ t = [name src])
            /\ fs w' = rename src (dst ++ t)%list (fs w).
Proof.
  unfold shutil_move. intros H.
  destruct (negb (exists_ src (fs w))); [discriminate|].
  destruct (is_dir dst (fs w)) eqn:Hd; cbn [andb] in H.
  - destruct (exists_ (joinpath dst (name src)) (fs w)); [discriminate|].
    destruct (negb (is_dir (parent (joinpath dst (name src))) (fs w)));
      [discriminate|].
    inversion H; subst. exists [name src]. split; [now right|reflexivity].
  - destruct (negb (is_dir (parent dst) (fs w))); [discriminate|].
    inversion H; subst. exists []. split; [now left|].
    simpl. now rewrite app_nil_r.
Qed.

(** The loop of a live relocation, once through, has emptied the listing
    it was started on. *)
Lemma live_loop_empties (wav album : Path) (initial_index : Z) (prefix : string) :
  below (joinpath album "raw") wav = false ->
  forall (files : list Path) (w w' : World),
    incl (listing wav (fs w)) files ->
    for_each files (fun _file =>
      parsed <- (fun w => (int (slice 5 7 (split_head "." (stem _file))), w)) ;;
      shutil_move _file
        (joinpath (joinpath album "raw")
                  (target_name prefix (parsed + initial_index)%Z))) w
    = (Ok tt, w') ->
    listing wav (fs w') = [].
Proof.
  intros Hout. induction files as [|x files IH]; intros w w' Hincl Hrun.
  - simpl in Hrun. inversion Hrun; subst.
    destruct (listing wav (fs w')) as [|e l]; [reflexivity|].
    destruct (Hincl e (or_introl eq_refl)).
  - cbn [for_each] in Hrun. unfold bind at 1 in Hrun.
    unfold bind at 1 in Hrun.
    destruct (int (slice 5 7 (split_head "." (stem x)))) as [parsed|e];
      [|discriminate].
    destruct (shutil_move x _ w) as [[[]|e] w1] eqn:Hmove; [|discriminate].
    apply shutil_move_inv in Hmove as [t [Ht Hfs]].
    apply (IH w1 w'); [|assumption].
    intros e He. rewrite Hfs in He.
    unfold joinpath in He. rewrite <- app_assoc in He.
    apply listing_rename in He as [He Hne]; auto; [|discriminate].
    destruct (Hincl e He) as [<-|Hin]; [contradiction|assumption].
Qed.

(** A live relocation out of a scratch directory that is not the raw-track
    directory nor below it returns 0 whenever it returns: the files are
    counted after they have been moved away. *)
Lemma live_relocation_returns_zero (wav album : Path) (initial_index : Z)
    (prefix : string) (w w' : World) (n : Z) :
  below (joinpath album "raw") wav = false ->
  move_wav_files_to_album wav album initial_index prefix false w = (Ok n, w') ->
  n = 0%Z.
Proof.
  intros Hout Hrun. unfold move_wav_files_to_album in Hrun.
  unfold bind at 1 in Hrun. unfold reading at 1 in Hrun.
  unfold iterdir at 1 in Hrun.
  destruct (is_dir wav (fs w)); [|destruct (exists_ wav (fs w)); discriminate].
  unfold bind at 1 in Hrun.
  destruct (for_each _ _ w) as [[[]|e] w1] eqn:Hloop; [|discriminate].
  apply (live_loop_empties wav album initial_index prefix Hout) in Hloop;
    [|apply incl_refl].
  unfold bind, reading, iterdir, ret in Hrun.
  destruct (is_dir wav (fs w1)); [|destruct (exists_ wav (fs w1)); discriminate].
  inversion Hrun; subst. now rewrite Hloop.
Qed.

End LiveRelocation.

Section DryRelocation.

Import Raw.

Lemma same_fs_refl (w : World) : same_fs_between w w.
Proof. reflexivity. Qed.

Lemma same_fs_trans (w1 w2 w3 : World) :
  same_fs_between w1 w2 -> same_fs_between w2 w3 -> same_fs_between w1 w3.
Proof. unfold same_fs_between. congruence. Qed.

(** A dry relocation returns the number of entries of the scratch
    directory whenever it returns, and leaves the file system as it is. *)
Lemma dry_relocation_returns_count (wav album : Path) (initial_index : Z)
    (prefix : string) (w w' : World) (n : Z) :
  move_wav_files_to_album wav album initial_index prefix true w = (Ok n, w') ->
  n = Z.of_nat (length (listing wav (fs w))) /\ fs w' = fs w.
Proof.
  intros Hrun. unfold move_wav_files_to_album in Hrun.
  unfold bind at 1 in Hrun. unfold reading at 1 in Hrun.
  unfold iterdir at 1 in Hrun.
  destruct (is_dir wav (fs w)) eqn:Hd;
    [|destruct (exists_ wav (fs w)); discriminate].
  unfold bind at 1 in Hrun.
  match type of Hrun with
  | context [for_each ?l ?body w] =>
      assert (Hsame : same_fs_between w (snd (for_each l body w)));
      [|destruct (for_each l body w) as [[[]|e] w1]; [|discriminate]]
  end.
  { apply (preserves_for_each _ same_fs_refl same_fs_trans).
    intros x. apply (preserves_bind _ same_fs_trans).
    - intros w0. reflexivity.
    - intros parsed w0. reflexivity. }
  simpl in Hsame. unfold same_fs_between in Hsame.
  unfold bind, reading, ret in Hrun. rewrite Hsame in Hrun.
  rewrite (iterdir_of_dir _ _ Hd) in Hrun.
  inversion Hrun; subst. split; [reflexivity|assumption].
Qed.

End DryRelocation.

(* ===================================================================== *)
(** ** The track matcher: what a returned mapping guarantees *)
(* ===================================================================== *)

Section MatcherSoundness.

Import CdRipper.

Lemma nth_error_combine_some {A B : Type} (l : list A) (l' : list B)
    (i : nat) (a : A) (b : B) :
  nth_error l i = Some a -> nth_error l' i = Some b ->
  nth_error (combine l l') i = Some (a, b).
Proof.
  revert l l'. induction i as [|i IH]; intros [|x l] [|y l'] Ha Hb;
    simpl in *; try discriminate.
  - now inversion Ha; inversion Hb.
  - now apply IH.
Qed.

(** When the test singles out one file, that file occurs once, and taking
    it away leaves the others. *)
Lemma single_out (P : Path -> bool) (l : list Path) (c : Path) :
  filter P l = [c] ->
  Permutation l (c :: filter (fun m => negb (path_eqb m c)) l).
Proof.
  induction l as [|a l IH]; intros Hf; [discriminate|].
  simpl in Hf. destruct (P a) eqn:Ha.
  - inversion Hf as [[Hac Hnone]]. subst a.
    simpl. rewrite path_eqb_refl. simpl.
    rewrite forallb_filter_id; [reflexivity|].
    apply forallb_forall. intros x Hx.
    apply negb_true_iff, path_eqb_neq. intros ->.
    assert (Hin : In c (filter P l)) by (apply filter_In; now split).
    rewrite Hnone in Hin. contradiction.
  - assert (Hc : In c (filter P (a :: l))) by (simpl; rewrite Ha, Hf; now left).
    apply filter_In in Hc as [_ Hpc].
    assert (Hne : a <> c) by (intros ->; congruence).
    simpl. apply path_eqb_neq in Hne. rewrite Hne. simpl.
    apply (perm_trans (l' := a :: c :: filter (fun m => negb (path_eqb m c)) l)).
    + apply perm_skip. now apply IH.
    + apply perm_swap.
Qed.

(** The loop, when it returns: one pair per step, in the order of the
    steps, each pair made of the title of its step and a file that passes
    the test of that step; the files are pairwise distinct and were all
    among the unclaimed files. *)
Lemma match_loop_sound (N : nat) :
  forall (its : list (nat * string)) (music : list Path)
         (mapping result : list (string * Path)),
    match_loop N its music mapping = Ok result ->
    exists claimed remaining,
      result = (mapping ++ claimed)%list
      /\ length claimed = length its
      /\ (forall j it pr,
             nth_error its j = Some it -> nth_error claimed j = Some pr ->
             fst pr = snd it
             /\ is_possible (N - fst it) (snd it) (snd pr) = true)
      /\ NoDup (map snd claimed)
      /\ Permutation music (map snd claimed ++ remaining).
Proof.
  induction its as [|[i title] its IH]; intros music mapping result Hrun.
  - simpl in Hrun. inversion Hrun; subst.
    exists [], music. rewrite app_nil_r.
    split; [reflexivity|]. split; [reflexivity|].
    split; [intros [|j] it pr H; discriminate H|].
    split; [constructor|reflexivity].
  - cbn [match_loop] in Hrun.
    destruct (1 <? length (filter (is_possible (N - i) title) music))%nat eqn:Hmany.
    { destruct (filter (is_possible (N - i) title) music); discriminate. }
    destruct (filter (is_possible (N - i) title) music) as [|c others] eqn:Hposs;
      [discriminate|].
    destruct others as [|c' others]; [|discriminate].
    apply IH in Hrun as [claimed [remaining [Hres [Hlen [Hnth [Hnd Hperm]]]]]].
    assert (Hc : In c (filter (is_possible (N - i) title) music))
      by (rewrite Hposs; now left).
    apply filter_In in Hc as [Hcin Hcp].
    exists ((title, c) :: claimed), remaining.
    split; [|split; [|split; [|split]]].
    + rewrite Hres, <- app_assoc. reflexivity.
    + simpl. now rewrite Hlen.
    + intros [|j] it pr Hit Hpr; simpl in Hit, Hpr.
      * inversion Hit; inversion Hpr; subst. now split.
      * now apply (Hnth j it pr).
    + simpl. constructor; [|assumption].
      intros Hin.
      assert (Hin' : In c (filter (fun m => negb (path_eqb m c)) music)).
      { apply (Permutation_in c (Permutation_sym Hperm)).
        apply in_or_app. now left. }
      apply filter_In in Hin' as [_ Hneg].
      rewrite path_eqb_refl in Hneg. discriminate.
    + simpl. rewrite (single_out _ _ _ Hposs). now apply perm_skip.
Qed.

(** X1.  Whenever the matcher returns a mapping, the mapping has one pair
    per title, the titles in their order; the file paired with the title of
    rank [i] passes the test of track [i+1]; the files are pairwise distinct
    and are exactly the candidate files of the directory. *)
Theorem matcher_result_is_sound
    (titles : list string) (d : Path) (f : FS) (mapping : list (string * Path)) :
  match_titles_to_files titles d f = Ok mapping ->
  length mapping = length titles
  /\ map fst mapping = titles
  /\ (forall i t g, nth_error mapping i = Some (t, g) ->
                    is_possible (i + 1) t g = true)
  /\ NoDup (map snd mapping)
  /\ Permutation (map snd mapping) (filter is_music (listing d f)).
Proof.
  unfold match_titles_to_files, iterdir. intros Hrun.
  destruct (is_dir d f); [|destruct (exists_ d f); discriminate].
  unfold match_entries in Hrun.
  destruct (length titles =? length (filter is_music (listing d f)))%nat eqn:Hcount;
    [|discriminate].
  apply Nat.eqb_eq in Hcount. cbn [negb] in Hrun.
  destruct (match_loop _ _ _ _) as [result|e] eqn:Hloop; [|discriminate].
  inversion Hrun; subst mapping. clear Hrun.
  apply match_loop_sound in Hloop
    as [claimed [remaining [Hres [Hlen [Hnth [Hnd Hperm]]]]]].
  simpl in Hres. subst result.
  unfold enumerate in Hlen, Hnth. rewrite length_rev in Hnth.
  rewrite length_combine, length_seq, length_rev, Nat.min_id in Hlen.
  assert (Hrem : remaining = []).
  { apply Permutation_length in Hperm.
    rewrite length_app, length_map in Hperm.
    destruct remaining; [reflexivity|simpl in Hperm; lia]. }
  subst remaining. rewrite app_nil_r in Hperm.
  assert (Hpair : forall i t g,
             nth_error (rev claimed) i = Some (t, g) ->
             nth_error titles i = Some t /\ is_possible (i + 1) t g = true).
  { intros i t g Hi.
    assert (Hilt : i < length claimed).
    { rewrite <- length_rev. apply nth_error_Some. congruence. }
    rewrite nth_error_rev in Hi.
    destruct (i <? length claimed)%nat eqn:Hb; [|discriminate].
    set (j := length claimed - S i) in *.
    assert (Hj : j < length titles) by (unfold j; lia).
    destruct (nth_error titles i) as [ti|] eqn:Hti;
      [|apply nth_error_None in Hti; lia].
    assert (Hit : nth_error (combine (seq 0 (length titles)) (rev titles)) j
                  = Some (j, ti)).
    { apply nth_error_combine_some.
      - rewrite nth_error_seq.
        replace (j <? length titles)%nat with true
          by (symmetry; now apply Nat.ltb_lt).
        reflexivity.
      - rewrite nth_error_rev.
        replace (j <? length titles)%nat with true
          by (symmetry; now apply Nat.ltb_lt).
        replace (length titles - S j) with i by (unfold j; lia).
        assumption. }
    destruct (Hnth j (j, ti) (t, g) Hit Hi) as [Ht Hp]. simpl in Ht, Hp.
    subst ti. split; [reflexivity|].
    replace (i + 1) with (length titles - j) by (unfold j; lia).
    assumption. }
  split; [now rewrite length_rev|].
  split.
  - apply nth_error_ext. intros i.
    rewrite nth_error_map.
    destruct (nth_error (rev claimed) i) as [[t g]|] eqn:Hi; simpl.
    + destruct (Hpair i t g Hi) as [Ht _]. now rewrite Ht.
    + symmetry. apply nth_error_None. apply nth_error_None in Hi.
      rewrite length_rev in Hi. lia.
  - split; [intros i t g Hi; now apply (Hpair i t g)|].
    rewrite map_rev. split.
    + apply (Permutation_NoDup (Permutation_rev _) Hnd).
    + rewrite <- (Permutation_rev _). now apply Permutation_sym.
Qed.

End MatcherSoundness.

Section SameStem.

Import CdRipper.

Lemma is_possible_same_stem (n : nat) (t : string) (p q : Path) :
  stem p = stem q -> is_possible n t p = is_possible n t q.
Proof. unfold is_possible. now intros ->. Qed.

(** Two unclaimed files of the same stem stop the loop: the step that
    would claim one of them finds both. *)
Lemma match_loop_same_stem (N : nat) (p q : Path) :
  p <> q -> stem p = stem q ->
  forall (its : list (nat * string)) (music : list Path)
         (mapping result : list (string * Path)),
    In p music -> In q music -> length music <= length its ->
    match_loop N its music mapping <> Ok result.
Proof.
  intros Hne Hstem.
  induction its as [|[i title] its IH]; intros music mapping result Hp Hq Hlen Hrun.
  - destruct music; [contradiction|simpl in Hlen; lia].
  - cbn [match_loop] in Hrun.
    destruct (1 <? length (filter (is_possible (N - i) title) music))%nat eqn:Hmany.
    { destruct (filter (is_possible (N - i) title) music); discriminate. }
    destruct (filter (is_possible (N - i) title) music) as [|c others] eqn:Hposs;
      [discriminate|].
    destruct others as [|c' others]; [|discriminate].
    assert (Hc : In c (filter (is_possible (N - i) title) music))
      by (rewrite Hposs; now left).
    apply filter_In in Hc as [Hcin Hcp].
    assert (Honly : forall x, In x music -> stem x = stem c -> x = c).
    { intros x Hx Hxs.
      assert (Hin : In x (filter (is_possible (N - i) title) music)).
      { apply filter_In. split; [assumption|].
        now rewrite (is_possible_same_stem _ _ x c Hxs). }
      rewrite Hposs in Hin. destruct Hin as [<-|[]]. reflexivity. }
    assert (Hcp' : c <> p).
    { intros ->. apply Hne. symmetry. apply Honly; [assumption|now symmetry]. }
    assert (Hcq : c <> q).
    { intros ->. apply Hne. apply Honly; assumption. }
    apply (IH _ _ _) in Hrun; auto.
    + apply filter_In. split; [assumption|].
      apply negb_true_iff, path_eqb_neq. congruence.
    + apply filter_In. split; [assumption|].
      apply negb_true_iff, path_eqb_neq. congruence.
    + pose proof (Permutation_length (single_out _ _ _ Hposs)) as Hl.
      simpl in Hl, Hlen. lia.
Qed.

Lemma same_stem_no_mapping
    (titles : list string) (d : Path) (f : FS) (p q : Path)
    (mapping : list (string * Path)) :
  In p (filter is_music (listing d f)) ->
  In q (filter is_music (listing d f)) ->
  p <> q -> stem p = stem q ->
  match_titles_to_files titles d f <> Ok mapping.
Proof.
  intros Hp Hq Hne Hstem Hrun.
  unfold match_titles_to_files, iterdir in Hrun.
  destruct (is_dir d f); [|destruct (exists_ d f); discriminate].
  unfold match_entries in Hrun.
  destruct (length titles =? length (filter is_music (listing d f)))%nat eqn:Hcount;
    [|discriminate].
  apply Nat.eqb_eq in Hcount. cbn [negb] in Hrun.
  destruct (match_loop _ _ _ _) as [result|e] eqn:Hloop; [|discriminate].
  apply (match_loop_same_stem _ p q Hne Hstem) in Hloop; auto.
  unfold enumerate.
  rewrite length_combine, length_seq, length_rev, Nat.min_id. lia.
Qed.

(** X2.  Two candidate files of the same stem, such as a .wav file and the
    .mp3 made from it, make the matcher fail, whatever the titles. *)
Theorem same_stem_blocks_matching
    (titles : list string) (d : Path) (f : FS) (p q : Path) :
  In p (filter is_music (listing d f)) ->
  In q (filter is_music (listing d f)) ->
  p <> q -> stem p = stem q ->
  forall mapping, match_titles_to_files titles d f <> Ok mapping.
Proof. intros Hp Hq Hne Hstem mapping. now apply (same_stem_no_mapping _ _ _ p q). Qed.

End SameStem.

(* ===================================================================== *)
(** ** The track matcher: a track that cannot be settled *)
(* ===================================================================== *)

Section MatcherFailures.

Import CdRipper.

Lemma combine_app_eq {A B : Type} (a a' : list A) (b b' : list B) :
  length a = length b ->
  combine (a ++ a') (b ++ b') = (combine a b ++ combine a' b')%list.
Proof.
  revert b. induction a as [|x a IH]; intros [|y b] Hlen; simpl in *;
    try discriminate; [reflexivity|].
  f_equal. apply IH. now inversion Hlen.
Qed.

(** The steps of the loop for the titles [pre ++ t :: post]: first those of
    [post], last title first, then the one of [t], then those of [pre]. *)
Lemma enumerate_rev_split (pre post : list string) (t : string) :
  enumerate (rev (pre ++ t :: post))
  = (combine (seq 0 (length post)) (rev post)
     ++ (length post, t)
        :: combine (seq (S (length post)) (length pre)) (rev pre))%list.
Proof.
  unfold enumerate. rewrite length_rev, length_app. simpl length.
  rewrite rev_app_distr. simpl rev. rewrite <- app_assoc. simpl app.
  replace (length pre + S (length post)) with (length post + S (length pre)) by lia.
  rewrite seq_app. simpl seq.
  rewrite combine_app_eq by (now rewrite length_seq, length_rev).
  reflexivity.
Qed.

Lemma filter_two (P : Path -> bool) (l : list Path) (x y : Path) :
  In x l -> In y l -> x <> y -> P x = true -> P y = true ->
  1 < length (filter P l).
Proof.
  intros Hx Hy Hne Hpx Hpy.
  assert (Hx' : In x (filter P l)) by (apply filter_In; now split).
  assert (Hy' : In y (filter P l)) by (apply filter_In; now split).
  destruct (filter P l) as [|a [|b r]]; simpl in *; [contradiction| |lia].
  destruct Hx' as [<-|[]], Hy' as [<-|[]]. contradiction.
Qed.

(** The steps for the titles [ts], when the files [gs] are claimed by them
    rank by rank and the files [rem] pass none of their tests: the loop
    goes on with the other steps, the files [rem] being the unclaimed
    ones. *)
Lemma match_loop_claims_then (N : nat) :
  forall (ts : list string) (gs rem : list Path) (k : nat)
         (music : list Path) (mapping : list (string * Path))
         (rest : list (nat * string)),
    length ts = length gs ->
    k + length ts <= N ->
    NoDup music ->
    NoDup (rem ++ gs) ->
    (forall x, In x music <-> In x (rem ++ gs)%list) ->
    (forall j t g, nth_error ts j = Some t -> nth_error gs j = Some g ->
                   is_possible (N - k - length ts + j + 1) t g = true) ->
    (forall j t x, nth_error ts j = Some t ->
                   In x rem \/ (exists j', j' < j /\ nth_error gs j' = Some x) ->
                   is_possible (N - k - length ts + j + 1) t x = false) ->
    exists music',
      match_loop N (combine (seq k (length ts)) (rev ts) ++ rest) music mapping
      = match_loop N rest music' (mapping ++ rev (combine ts gs))%list
      /\ NoDup music'
      /\ (forall x, In x music' <-> In x rem).
Proof.
  induction ts as [|t ts IH] using rev_ind;
    intros gs rem k music mapping rest Hlen Hk Hndm Hndg Hsame Hhit Hmiss.
  - destruct gs; [|discriminate]. exists music. simpl.
    rewrite !app_nil_r in *. auto.
  - destruct gs as [|g gs _] using rev_ind;
      [rewrite length_app in Hlen; simpl in Hlen; lia|].
    rewrite !length_app in *. simpl length in *.
    assert (Hlen' : length ts = length gs) by lia.
    rewrite rev_app_distr.
    replace (seq k (length ts + 1)) with (k :: seq (S k) (length ts))
      by (now rewrite Nat.add_1_r).
    cbn [rev app combine match_loop].
    rewrite app_assoc in Hndg.
    apply NoDup_remove in Hndg as [Hndg Hgnotin].
    rewrite app_nil_r in Hndg, Hgnotin.
    assert (Hg : is_possible (N - k) t g = true).
    { replace (N - k) with (N - k - (length ts + 1) + length ts + 1) by lia.
      apply Hhit.
      - rewrite nth_error_app2 by lia. now rewrite Nat.sub_diag.
      - rewrite nth_error_app2 by lia. rewrite Hlen'. now rewrite Nat.sub_diag. }
    assert (Hposs : filter (is_possible (N - k) t) music = [g]).
    { apply filter_single; auto.
      - apply Hsame. rewrite !in_app_iff. right. right. now left.
      - intros x Hx Hne. apply Hsame in Hx.
        replace (N - k) with (N - k - (length ts + 1) + length ts + 1) by lia.
        apply Hmiss.
        + rewrite nth_error_app2 by lia. now rewrite Nat.sub_diag.
        + rewrite !in_app_iff in Hx. destruct Hx as [Hx|[Hx|[Hx|[]]]].
          * now left.
          * right. apply In_nth_error in Hx as [j' Hj'].
            exists j'. split.
            -- assert (j' < length gs) by (apply nth_error_Some; congruence). lia.
            -- rewrite nth_error_app1; [assumption|].
               apply nth_error_Some; congruence.
          * congruence. }
    rewrite Hposs. cbn [length Nat.ltb Nat.leb].
    rewrite combine_snoc by assumption.
    rewrite rev_app_distr. simpl rev. simpl app.
    destruct (IH gs rem (S k) (filter (fun m => negb (path_eqb m g)) music)
                 (mapping ++ [(t, g)])%list rest)
      as [music' [Hrun [Hnd' Hrem]]]; auto.
    + lia.
    + now apply NoDup_filter.
    + intros x. rewrite filter_In, negb_true_iff, path_eqb_neq, Hsame.
      rewrite !in_app_iff. simpl. split.
      * intros [[Hx|[Hx|[Hx|[]]]] Hne]; auto. congruence.
      * intros [Hx|Hx]; (split; [auto|]); intros ->; apply Hgnotin;
          apply in_or_app; auto.
    + intros j t' g' Ht' Hg'.
      replace (N - S k - length ts + j + 1)
        with (N - k - (length ts + 1) + j + 1) by lia.
      apply Hhit.
      * rewrite nth_error_app1; [assumption|apply nth_error_Some; congruence].
      * rewrite nth_error_app1; [assumption|apply nth_error_Some; congruence].
    + intros j t' x Ht' Hx.
      replace (N - S k - length ts + j + 1)
        with (N - k - (length ts + 1) + j + 1) by lia.
      apply Hmiss.
      * rewrite nth_error_app1; [assumption|apply nth_error_Some; congruence].
      * destruct Hx as [Hx|[j' [Hlt Hj']]]; [now left|right].
        exists j'. split; [assumption|].
        rewrite nth_error_app1; [assumption|apply nth_error_Some; congruence].
    + exists music'. split; [|now split].
      rewrite Hrun. now rewrite <- app_assoc.
Qed.

(** The run of the matcher up to the step of title [t] of
    [pre ++ t :: post], when the titles of [post] claim the files [gpost]
    rank by rank and [rem] are the other candidates. *)
Lemma matcher_reaches (pre post : list string) (t : string) (d : Path) (f : FS)
    (rem gpost : list Path) :
  is_dir d f = true ->
  Permutation (rem ++ gpost) (filter is_music (listing d f)) ->
  NoDup (rem ++ gpost) ->
  length gpost = length post ->
  length rem = length pre + 1 ->
  (forall j t' g, nth_error post j = Some t' -> nth_error gpost j = Some g ->
                  is_possible (length pre + j + 2) t' g = true) ->
  (forall j t' x, nth_error post j = Some t' ->
                  In x rem \/ (exists j', j' < j /\ nth_error gpost j' = Some x) ->
                  is_possible (length pre + j + 2) t' x = false) ->
  exists music' mapping' rest,
    match_titles_to_files (pre ++ t :: post) d f
    = match match_loop (length (pre ++ t :: post))
                       ((length post, t) :: rest) music' mapping' with
      | Ok mapping => Ok (rev mapping)
      | Raise e => Raise e
      end
    /\ length (pre ++ t :: post) - length post = length pre + 1
    /\ NoDup music'
    /\ (forall x, In x music' <-> In x rem).
Proof.
  intros Hd Hperm Hnd Hlg Hlr Hhit Hmiss.
  rewrite match_titles_to_files_listing by assumption.
  unfold match_entries.
  assert (HN : length (pre ++ t :: post) = length pre + 1 + length post)
    by (rewrite length_app; simpl; lia).
  assert (Hc : length (filter is_music (listing d f)) = length (pre ++ t :: post)).
  { rewrite <- (Permutation_length Hperm), HN, length_app. lia. }
  rewrite Hc, Nat.eqb_refl, HN.
  cbn [negb]. rewrite enumerate_rev_split.
  destruct (match_loop_claims_then (length pre + 1 + length post) post gpost rem 0
              (filter is_music (listing d f)) []
              ((length post, t)
               :: combine (seq (S (length post)) (length pre)) (rev pre)))
    as [music' [Hrun [Hnd' Hrem]]]; auto; try lia.
  - apply (Permutation_NoDup Hperm Hnd).
  - intros x. split; intros Hx.
    + apply (Permutation_in x (Permutation_sym Hperm) Hx).
    + apply (Permutation_in x Hperm Hx).
  - intros j t' g Ht' Hg.
    replace (length pre + 1 + length post - 0 - length post + j + 1)
      with (length pre + j + 2) by lia.
    now apply (Hhit j).
  - intros j t' x Ht' Hx.
    replace (length pre + 1 + length post - 0 - length post + j + 1)
      with (length pre + j + 2) by lia.
    now apply (Hmiss j).
  - exists music', ([] ++ rev (combine post gpost))%list,
           (combine (seq (S (length post)) (length pre)) (rev pre)).
    rewrite Hrun. repeat split; auto; try apply Hrem. lia.
Qed.

(** X3.  When the titles after [t] claim their files one by one and none of
    the candidates then left passes the test of [t], the matcher raises the
    no-match error, which gives the track number of [t] and [t] itself. *)
Theorem matcher_no_match (pre post : list string) (t : string) (d : Path) (f : FS)
    (rem gpost : list Path) :
  is_dir d f = true ->
  Permutation (rem ++ gpost) (filter is_music (listing d f)) ->
  NoDup (rem ++ gpost) ->
  length gpost = length post ->
  length rem = length pre + 1 ->
  (forall j t' g, nth_error post j = Some t' -> nth_error gpost j = Some g ->
                  is_possible (length pre + j + 2) t' g = true) ->
  (forall j t' x, nth_error post j = Some t' ->
                  In x rem \/ (exists j', j' < j /\ nth_error gpost j' = Some x) ->
                  is_possible (length pre + j + 2) t' x = false) ->
  (forall x, In x rem -> is_possible (length pre + 1) t x = false) ->
  match_titles_to_files (pre ++ t :: post) d f
  = Raise (RuntimeError ("Found no music files matching "
                         ++ str_of_nat (length pre + 1) ++ "-" ++ t)).
Proof.
  intros Hd Hperm Hnd Hlg Hlr Hhit Hmiss Hnone.
  destruct (matcher_reaches pre post t d f rem gpost)
    as [music' [mapping' [rest [Hrun [HN [Hnd' Hrem]]]]]]; auto.
  rewrite Hrun. cbn [match_loop]. rewrite HN.
  rewrite (filter_none (is_possible (length pre + 1) t) music').
  - reflexivity.
  - intros x Hx. apply Hnone. now apply Hrem.
Qed.

(** X4.  When the titles after [t] claim their files one by one and two of
    the candidates then left pass the test of [t], the matcher stops with
    the [TypeError] of [str.join]; no mapping is returned. *)
Theorem matcher_ambiguous (pre post : list string) (t : string) (d : Path) (f : FS)
    (rem gpost : list Path) (x y : Path) :
  is_dir d f = true ->
  Permutation (rem ++ gpost) (filter is_music (listing d f)) ->
  NoDup (rem ++ gpost) ->
  length gpost = length post ->
  length rem = length pre + 1 ->
  (forall j t' g, nth_error post j = Some t' -> nth_error gpost j = Some g ->
                  is_possible (length pre + j + 2) t' g = true) ->
  (forall j t' z, nth_error post j = Some t' ->
                  In z rem \/ (exists j', j' < j /\ nth_error gpost j' = Some z) ->
                  is_possible (length pre + j + 2) t' z = false) ->
  In x rem -> In y rem -> x <> y ->
  is_possible (length pre + 1) t x = true ->
  is_possible (length pre + 1) t y = true ->
  match_titles_to_files (pre ++ t :: post) d f
  = Raise (TypeError "sequence item 0: expected str instance, PosixPath found").
Proof.
  intros Hd Hperm Hnd Hlg Hlr Hhit Hmiss Hx Hy Hne Hpx Hpy.
  destruct (matcher_reaches pre post t d f rem gpost)
    as [music' [mapping' [rest [Hrun [HN [Hnd' Hrem]]]]]]; auto.
  rewrite Hrun, match_loop_ambiguous; [reflexivity|].
  rewrite HN. apply (filter_two _ _ x y); auto; now apply Hrem.
Qed.

End MatcherFailures.

(* ===================================================================== *)
(** ** The transcoder: what a conversion leaves behind *)
(* ===================================================================== *)

Section Conversion.

Import CdRipper.

Lemma lookup_filter_out (p : Path) (f : FS) :
  lookup p (filter (fun e => negb (path_eqb (fst e) p)) f) = None.
Proof.
  induction f as [|[q k] f IH]; simpl; [reflexivity|].
  destruct (path_eqb q p) eqn:Hqp; simpl; [exact IH|].
  replace (path_eqb p q) with false; [exact IH|].
  symmetry. apply path_eqb_neq. apply path_eqb_neq in Hqp. congruence.
Qed.

Lemma lookup_filter_other (p q : Path) (f : FS) :
  q <> p ->
  lookup q (filter (fun e => negb (path_eqb (fst e) p)) f) = lookup q f.
Proof.
  intros Hne. induction f as [|[r k] f IH]; simpl; [reflexivity|].
  destruct (path_eqb r p) eqn:Hrp; simpl.
  - apply path_eqb_eq in Hrp. subst r.
    apply path_eqb_neq in Hne. now rewrite Hne.
  - now rewrite IH.
Qed.

Lemma is_file_appended (p : Path) (f : FS) :
  exists_ p f = false -> is_file p (f ++ [(p, File)])%list = true.
Proof.
  intros He. unfold is_file. rewrite lookup_app.
  unfold exists_ in He. destruct p as [|a p]; [discriminate|].
  destruct (lookup (a :: p) f); [discriminate|].
  simpl. now rewrite path_eqb_refl.
Qed.

(** X5.  A conversion when the target does not exist yet. The transcoder is
    run without a prompt. When it succeeds the target is written, and the
    source is removed exactly when [keep_wav] is false; when it fails,
    [CalledProcessError] is raised and the source stays, whatever
    [keep_wav]. *)
Theorem first_conversion (wav_file : Path) (keep_wav : bool)
    (output_dir : option Path) (w : World) :
  let mp3_file := mp3_target output_dir wav_file in
  let ran := record (Subprocess (ffmpeg_command wav_file mp3_file)) w in
  let written := (fs w ++ [(mp3_file, File)])%list in
  is_file wav_file (fs w) = true ->
  is_dir (parent mp3_file) (fs w) = true ->
  exists_ mp3_file (fs w) = false ->
  wav_to_mp3 wav_file keep_wav output_dir w
  = (if ffmpeg_ok (env w) wav_file mp3_file
     then (Ok mp3_file,
           set_fs (if keep_wav then written
                   else filter (fun e => negb (path_eqb (fst e) wav_file)) written)
                  ran)
     else (Raise (CalledProcessError (ffmpeg_command wav_file mp3_file)), ran))
  /\ is_file mp3_file written = true
  /\ is_file mp3_file
       (filter (fun e => negb (path_eqb (fst e) wav_file)) written) = true
  /\ is_file wav_file
       (filter (fun e => negb (path_eqb (fst e) wav_file)) written) = false.
Proof.
  intros mp3_file ran written Hwav Hdir Hnew.
  assert (Hnofile : is_file mp3_file (fs w) = false).
  { unfold is_file. unfold exists_ in Hnew.
    destruct mp3_file; [discriminate|]. destruct (lookup _ (fs w)); [discriminate|].
    reflexivity. }
  assert (Hne : mp3_file <> wav_file).
  { intros Heq. rewrite Heq in Hnew.
    apply is_file_exists in Hwav. congruence. }
  assert (Hwritten : is_file mp3_file written = true)
    by (now apply is_file_appended).
  split; [|split; [assumption|split]].
  - unfold mp3_file, mp3_target in Hdir. rewrite parent_joinpath in Hdir.
    unfold wav_to_mp3, bind, get_fs, resolve. cbv beta.
    rewrite Hwav. cbn [negb]. cbv beta iota.
    rewrite Hdir. cbn [negb]. cbv beta iota.
    change (joinpath _ (stem wav_file ++ ".mp3")) with mp3_file.
    rewrite Hnofile.
    unfold ret, run_ffmpeg. cbn [negb]. cbv beta iota.
    destruct (ffmpeg_ok (env w) wav_file mp3_file); [|reflexivity].
    world_simpl. unfold write_file. rewrite Hnew. fold written.
    rewrite Hwritten. cbn [andb].
    destruct keep_wav; cbn [negb]; [reflexivity|].
    unfold unlink. world_simpl.
    unfold written at 1. rewrite (is_file_app _ _ _ Hwav). reflexivity.
  - unfold is_file. rewrite lookup_filter_other by assumption.
    exact Hwritten.
  - unfold is_file. now rewrite lookup_filter_out.
Qed.

(** X6.  Converting a file whose name already ends in .mp3, next to itself
    and without keeping the source: the target is the file itself, the
    operator is asked, and after the answer y and a run of the transcoder
    the file is removed; the path returned names nothing. *)
Theorem converting_an_mp3_removes_it (p : Path) (w : World) (rest : list string) :
  p <> [] ->
  suffix p = ".mp3" ->
  is_file p (fs w) = true ->
  is_dir (parent p) (fs w) = true ->
  stdin w = "y" :: rest ->
  ffmpeg_ok (env w) p p = true ->
  mp3_target None p = p
  /\ fst (wav_to_mp3 p false None w) = Ok p
  /\ exists_ p (fs (snd (wav_to_mp3 p false None w))) = false.
Proof.
  intros Hp Hsuf Hfile Hdir Hin Hff.
  assert (Hself : mp3_target None p = p).
  { unfold mp3_target, joinpath.
    destruct (name_stem_suffix p) as [Hname _]; [rewrite Hsuf; discriminate|].
    rewrite Hsuf in Hname. rewrite <- Hname.
    symmetry. apply (app_removelast_last "" Hp). }
  split; [assumption|].
  unfold wav_to_mp3, bind, get_fs, resolve. cbv beta.
  rewrite Hfile. cbn [negb]. cbv beta iota.
  rewrite Hdir. cbn [negb]. cbv beta iota.
  change (joinpath (parent p) (stem p ++ ".mp3")) with (mp3_target None p).
  rewrite Hself, Hfile, Hin.
  rewrite (overwrite_loop_settles _ [] "y" rest w (Forall_nil _) (or_introl eq_refl)).
  cbn [String.eqb Ascii.eqb Bool.eqb negb]. cbv beta iota.
  unfold run_ffmpeg. world_simpl. rewrite Hff. world_simpl.
  rewrite write_file_existing by (now apply is_file_exists).
  rewrite Hfile. cbn [andb negb].
  unfold unlink. world_simpl. rewrite Hfile. cbn [fst snd]. world_simpl.
  split; [reflexivity|].
  unfold exists_. destruct p; [contradiction|].
  unfold ret. cbn [snd fs]. now rewrite lookup_filter_out.
Qed.

End Conversion.

(* ===================================================================== *)
(** ** The pipeline: what the conversion step can and cannot change *)
(* ===================================================================== *)

Section ConversionStep.

Import CdRipper.

Lemma exists_app (p : Path) (f g : FS) :
  exists_ p f = true -> exists_ p (f ++ g)%list = true.
Proof.
  unfold exists_. destruct p; [reflexivity|]. rewrite lookup_app.
  destruct (lookup _ f); [reflexivity|discriminate].
Qed.

Lemma lookup_in (p : Path) (f : FS) (k : Kind) :
  lookup p f = Some k -> In p (map fst f).
Proof.
  induction f as [|[q k'] f IH]; simpl; [discriminate|].
  destruct (path_eqb p q) eqn:Hpq.
  - apply path_eqb_eq in Hpq. intros _. now left.
  - intros H. right. now apply IH.
Qed.

Lemma exists_in_listing (d p : Path) (f : FS) :
  child_of d p = true -> exists_ p f = true -> In p (listing d f).
Proof.
  intros Hc He. unfold listing. apply filter_In. split; [|assumption].
  unfold exists_ in He. destruct p as [|a p]; [discriminate|].
  destruct (lookup (a :: p) f) as [k|] eqn:Hl; [|discriminate].
  now apply (lookup_in _ _ k).
Qed.

(** The prompt loop touches neither the file system nor the tagger. *)
Lemma overwrite_loop_quiet (prompt : string) (answers : list string) :
  forall w,
    env (snd (overwrite_loop prompt answers w)) = env w
    /\ fs (snd (overwrite_loop prompt answers w)) = fs w
    /\ tagger_calls (trace (snd (overwrite_loop prompt answers w)))
       = tagger_calls (trace w).
Proof.
  induction answers as [|a answers IH]; intros w; cbn [overwrite_loop].
  - simpl. repeat split. now apply tagger_calls_app.
  - destruct (a =? "y")%string; [|destruct (a =? "N")%string].
    + simpl. repeat split. now apply tagger_calls_app.
    + simpl. repeat split. now apply tagger_calls_app.
    + destruct (IH (record (Print "Error: input 'y' or 'N'")
                      (set_stdin answers (record (Input prompt) w))))
        as [He [Hf Ht]].
      rewrite He, Hf, Ht. world_simpl. repeat split.
      rewrite <- app_assoc. now apply tagger_calls_app.
Qed.

(** One conversion that keeps its source, whatever its outcome: the tagger
    is not run, the file system is as before or has the target as one more
    file, and when the conversion returns the target exists. *)
Lemma wav_to_mp3_kept (p : Path) (out : option Path) (w : World) :
  env (snd (wav_to_mp3 p true out w)) = env w
  /\ tagger_calls (trace (snd (wav_to_mp3 p true out w))) = tagger_calls (trace w)
  /\ (fs (snd (wav_to_mp3 p true out w)) = fs w
      \/ fs (snd (wav_to_mp3 p true out w))
         = (fs w ++ [(mp3_target out p, File)])%list)
  /\ (forall v, fst (wav_to_mp3 p true out w) = Ok v ->
                exists_ (mp3_target out p) (fs (snd (wav_to_mp3 p true out w))) = true).
Proof.
  unfold wav_to_mp3, bind, get_fs, resolve. cbv beta.
  destruct (is_file p (fs w)) eqn:Hfile; cbn [negb]; cbv beta iota;
    [|simpl; repeat split; auto; discriminate].
  change (joinpath _ (stem p ++ ".mp3")) with (mp3_target out p).
  destruct (is_dir _ (fs w)) eqn:Hdir; cbn [negb]; cbv beta iota;
    [|simpl; repeat split; auto; discriminate].
  destruct (is_file (mp3_target out p) (fs w)) eqn:Hmp3.
  - pose proof (overwrite_loop_quiet
                  (path_str (mp3_target out p) ++ " exists. Overwrite? [y/N]: ")
                  (stdin w) w) as [He [Hf Ht]].
    destruct (overwrite_loop _ (stdin w) w) as [[[|]|e] w1];
      simpl in He, Hf, Ht; cbn [negb]; cbv beta iota.
    + unfold run_ffmpeg. rewrite He, Hf.
      rewrite write_file_existing by (now apply is_file_exists).
      destruct (ffmpeg_ok (env w) p (mp3_target out p)).
      * world_simpl. rewrite Hmp3. cbn [andb negb ret snd fst]. world_simpl.
        repeat split; auto.
        -- rewrite tagger_calls_app by reflexivity. assumption.
        -- intros _ _. now apply is_file_exists.
      * cbn [snd fst]. world_simpl. repeat split; auto.
        -- rewrite tagger_calls_app by reflexivity. assumption.
        -- discriminate.
    + unfold ret. cbn [snd fst]. rewrite Hf. repeat split; auto.
      intros _ _. now apply is_file_exists.
    + cbn [snd fst]. repeat split; auto. discriminate.
  - unfold ret, run_ffmpeg. cbn [negb]. cbv beta iota.
    destruct (ffmpeg_ok (env w) p (mp3_target out p)).
    + world_simpl.
      assert (Hex : exists_ (mp3_target out p)
                      (write_file (mp3_target out p) (fs w)) = true).
      { unfold write_file.
        destruct (exists_ (mp3_target out p) (fs w)) eqn:He; [assumption|].
        apply is_file_exists. now apply is_file_appended. }
      destruct (is_file (mp3_target out p) (write_file (mp3_target out p) (fs w)));
        cbn [andb negb snd fst]; world_simpl.
      * repeat split; auto.
        -- now apply tagger_calls_app.
        -- unfold write_file. destruct (exists_ _ (fs w)); auto.
      * repeat split; auto.
        -- now apply tagger_calls_app.
        -- unfold write_file. destruct (exists_ _ (fs w)); auto.
    + cbn [snd fst]. world_simpl. repeat split; auto.
      * now apply tagger_calls_app.
      * discriminate.
Qed.

(** The conversion loop, whatever its outcome: the tagger is not run, and
    the file system has got at most new files, each a target of one of the
    entries; when the loop returns, the target of every .wav entry
    exists. *)
Lemma convert_wav_files_kept (out : option Path) :
  forall (files : list Path) (w : World),
    env (snd (convert_wav_files files out w)) = env w
    /\ tagger_calls (trace (snd (convert_wav_files files out w)))
       = tagger_calls (trace w)
    /\ (exists added,
           fs (snd (convert_wav_files files out w))
           = (fs w ++ map (fun q => (q, File)) added)%list
           /\ Forall (fun q => exists p, In p files /\ q = mp3_target out p) added)
    /\ (fst (convert_wav_files files out w) = Ok tt ->
        forall p, In p files -> is_wav p = true ->
                  exists_ (mp3_target out p)
                          (fs (snd (convert_wav_files files out w))) = true).
Proof.
  induction files as [|p files IH]; intros w.
  - simpl. split; [reflexivity|]. split; [reflexivity|]. split.
    + exists []. simpl. rewrite app_nil_r. auto.
    + intros _ p [].
  - rewrite convert_wav_files_cons.
    destruct (is_wav p) eqn:Hw.
    + destruct (wav_to_mp3_kept p out w) as [He [Ht [Hf Hex]]].
      destruct (wav_to_mp3 p true out w) as [[v|e] w1]; simpl in He, Ht, Hf, Hex.
      * destruct (IH w1) as [He' [Ht' [[added [Hf' Hadded]] Hex']]].
        rewrite He', Ht', He, Ht. repeat split; auto.
        -- destruct Hf as [Hf | Hf]; rewrite Hf', Hf.
           ++ exists added. split; [reflexivity|].
              eapply Forall_impl; [|exact Hadded].
              intros q [p' [Hp' Hq]]. exists p'. split; [now right|assumption].
           ++ exists (mp3_target out p :: added). split.
              ** now rewrite <- app_assoc.
              ** constructor; [exists p; split; [now left|reflexivity]|].
                 eapply Forall_impl; [|exact Hadded].
                 intros q [p' [Hp' Hq]]. exists p'. split; [now right|assumption].
        -- intros Hok q [<- | Hq] Hwq.
           ++ rewrite Hf'. apply exists_app. now apply (Hex v).
           ++ now apply Hex'.
      * cbn [snd fst]. rewrite He, Ht. repeat split; auto; [|discriminate].
        destruct Hf as [Hf | Hf]; rewrite Hf.
        -- exists []. simpl. now rewrite app_nil_r.
        -- exists [mp3_target out p]. split; [reflexivity|].
           constructor; [|constructor]. exists p. split; [now left|reflexivity].
    + destruct (IH w) as [He' [Ht' [[added [Hf' Hadded]] Hex']]].
      repeat split; auto.
      * exists added. split; [assumption|].
        eapply Forall_impl; [|exact Hadded].
        intros q [p' [Hp' Hq]]. exists p'. split; [now right|assumption].
      * intros Hok q [<- | Hq] Hwq; [congruence|]. now apply Hex'.
Qed.

End ConversionStep.

Section PipelineLimits.

Import CdRipper.

Lemma slice_to_append (s t : string) : slice_to (String.length s) (s ++ t) = s.
Proof.
  unfold slice_to. induction s as [|c s IH]; simpl.
  - destruct t; reflexivity.
  - now rewrite IH.
Qed.

(** The file written for a non-empty stem has that stem. *)
Lemma stem_mp3 (d : Path) (s : string) :
  s <> "" -> stem (joinpath d (s ++ ".mp3")) = s.
Proof.
  intros Hs. unfold stem. rewrite name_joinpath, rfind_append_mp3.
  rewrite length_append, slice_to_append.
  destruct s as [|c s]; [contradiction|]. simpl String.length.
  replace (0 <? S (String.length s))%nat with true by reflexivity.
  replace (S (String.length s) <? S (String.length s) + 4 - 1)%nat with true
    by (symmetry; apply Nat.ltb_lt; lia).
  reflexivity.
Qed.

Lemma resolve_config_world (album : Path) (config_json : option Path) (w : World) :
  snd (resolve_config album config_json w) = w.
Proof.
  unfold resolve_config. destruct config_json as [given|].
  - unfold bind, get_fs. destruct (is_file given (fs w)); reflexivity.
  - unfold bind, reading.
    destruct (iterdir album (fs w)) as [entries|e]; [|reflexivity].
    destruct (filter _ entries); reflexivity.
Qed.

Lemma load_album_config_file_world (config : Path) (w : World) :
  snd (load_album_config_file config w) = w.
Proof.
  unfold load_album_config_file.
  destruct (is_file config (fs w)).
  - destruct (json_of (env w) config); reflexivity.
  - destruct (is_dir config (fs w)); reflexivity.
Qed.

(** X7.  When the transcoder writes into another directory, the conversion
    step leaves the listing of the album directory as it was: the matcher
    will see the files that were there before, the .wav files among them,
    and none of the .mp3 files just made. *)
Theorem separate_output_keeps_album_listing
    (album out : Path) (files : list Path) (w : World) :
  out <> album ->
  listing album (fs (snd (convert_wav_files files (Some out) w)))
  = listing album (fs w).
Proof.
  intros Hne.
  destruct (convert_wav_files_kept (Some out) files w)
    as [_ [_ [[added [Hfs Hadded]] _]]].
  rewrite Hfs, listing_app.
  replace (listing album (map (fun q => (q, File)) added)) with (@nil Path);
    [now rewrite app_nil_r|].
  symmetry. unfold listing. rewrite map_map. simpl. rewrite map_id.
  apply filter_none. intros q Hq.
  rewrite Forall_forall in Hadded. destruct (Hadded q Hq) as [p [_ ->]].
  destruct (child_of album (mp3_target (Some out) p)) eqn:Hc; [|reflexivity].
  apply child_of_parent in Hc as [Hparent _].
  unfold mp3_target in Hparent. rewrite parent_joinpath in Hparent. contradiction.
Qed.

(** With [resolve] for the links, the parametrised pipeline is the
    pipeline of [CdRipper]. *)
Lemma linked_pipeline_without_links
    (album : Path) (config_json output_directory : option Path) :
  Linked.populate_album_metadata resolve album config_json output_directory
  = populate_album_metadata album config_json output_directory.
Proof. reflexivity. Qed.

Variable links : Path -> Path.

(** A conversion works on the resolved path. *)
Lemma linked_wav_to_mp3 (p : Path) (keep_wav : bool) (out : option Path) :
  Linked.wav_to_mp3 links p keep_wav out = wav_to_mp3 (links p) keep_wav out.
Proof. reflexivity. Qed.

Lemma linked_convert_wav_files_cons (p : Path) (l : list Path)
    (output_directory : option Path) (w : World) :
  Linked.convert_wav_files links (p :: l) output_directory w
  = if is_wav p
    then match wav_to_mp3 (links p) true output_directory w with
         | (Ok _, w1) => Linked.convert_wav_files links l output_directory w1
         | (Raise e, w1) => (Raise e, w1)
         end
    else Linked.convert_wav_files links l output_directory w.
Proof.
  unfold Linked.convert_wav_files, is_wav. cbn [for_each]. unfold bind, ret.
  destruct (suffix p =? ".wav")%string; [|reflexivity].
  rewrite linked_wav_to_mp3.
  destruct (wav_to_mp3 (links p) true output_directory w) as [[mp3|e] w1];
    reflexivity.
Qed.

(** The conversion loop on a file system with links, whatever its outcome:
    the tagger is not run and the file system has got at most new entries;
    when the loop returns, the target of every .wav entry, which lies next
    to the file the entry resolves to, exists. *)
Lemma linked_convert_wav_files_kept (out : option Path) :
  forall (files : list Path) (w : World),
    env (snd (Linked.convert_wav_files links files out w)) = env w
    /\ tagger_calls (trace (snd (Linked.convert_wav_files links files out w)))
       = tagger_calls (trace w)
    /\ (exists added,
           fs (snd (Linked.convert_wav_files links files out w))
           = (fs w ++ added)%list)
    /\ (fst (Linked.convert_wav_files links files out w) = Ok tt ->
        forall p, In p files -> is_wav p = true ->
                  exists_ (mp3_target out (links p))
                          (fs (snd (Linked.convert_wav_files links files out w)))
                  = true).
Proof.
  induction files as [|p files IH]; intros w.
  - simpl. split; [reflexivity|]. split; [reflexivity|]. split.
    + exists []. simpl. now rewrite app_nil_r.
    + intros _ p [].
  - rewrite linked_convert_wav_files_cons.
    destruct (is_wav p) eqn:Hw.
    + destruct (wav_to_mp3_kept (links p) out w) as [He [Ht [Hf Hex]]].
      destruct (wav_to_mp3 (links p) true out w) as [[v|e] w1];
        simpl in He, Ht, Hf, Hex.
      * destruct (IH w1) as [He' [Ht' [[added Hf'] Hex']]].
        rewrite He', Ht', He, Ht.
        split; [reflexivity|]. split; [reflexivity|]. split.
        -- destruct Hf as [Hf | Hf]; rewrite Hf', Hf.
           ++ now exists added.
           ++ eexists. now rewrite <- app_assoc.
        -- intros Hok q [<- | Hq] Hwq.
           ++ rewrite Hf'. apply exists_app. now apply (Hex v).
           ++ now apply Hex'.
      * cbn [snd fst]. rewrite He, Ht.
        split; [reflexivity|]. split; [reflexivity|]. split; [|discriminate].
        destruct Hf as [Hf | Hf]; rewrite Hf.
        -- exists []. now rewrite app_nil_r.
        -- now eexists.
    + destruct (IH w) as [He' [Ht' [Hadded Hex']]].
      split; [assumption|]. split; [assumption|]. split; [assumption|].
      intros Hok q [<- | Hq] Hwq; [congruence|]. now apply Hex'.
Qed.

Lemma linked_resolve_config_world (album : Path) (config_json : option Path)
    (w : World) :
  snd (Linked.resolve_config links album config_json w) = w.
Proof.
  unfold Linked.resolve_config. destruct config_json as [given|].
  - unfold bind, get_fs. destruct (is_file given (fs w)); reflexivity.
  - unfold bind, reading.
    destruct (iterdir album (fs w)) as [entries|e]; [|reflexivity].
    destruct (filter _ entries); reflexivity.
Qed.

Lemma wav_in_album_run (album : Path) (config_json : option Path) (w : World)
    (p : Path) :
  In p (listing album (fs w)) ->
  is_wav p = true ->
  links p = p ->
  exists e w',
    Linked.populate_album_metadata links album config_json None w = (Raise e, w')
    /\ tagger_calls (trace w') = tagger_calls (trace w).
Proof.
  intros Hp Hw Hself.
  unfold Linked.populate_album_metadata.
  unfold bind at 1. unfold get_fs at 1.
  destruct (is_dir album (fs w)) eqn:Hdir; cbn [negb];
    [|eexists; eexists; split; reflexivity].
  unfold bind at 1.
  pose proof (linked_resolve_config_world album config_json w) as Hw1.
  destruct (Linked.resolve_config links album config_json w) as [[config|e] w1];
    simpl in Hw1; subst w1; [|eexists; eexists; split; reflexivity].
  unfold bind at 1. unfold emit at 1.
  set (w1 := record (Print ("(1) Loading album metadata from "
                            ++ path_str (links config))) w).
  unfold bind at 1.
  pose proof (load_album_config_file_world config w1) as Hw2.
  destruct (load_album_config_file config w1) as [[cfg|e] w2];
    simpl in Hw2; subst w2;
    [|eexists; eexists; split; [reflexivity|now apply tagger_calls_app]].
  unfold bind at 1. unfold emit at 1.
  set (w2 := record (Print "(2) Converting .wav files to .mp3") w1).
  assert (Ht2 : tagger_calls (trace w2) = tagger_calls (trace w)).
  { unfold w2, w1. world_simpl. now rewrite !tagger_calls_app by reflexivity. }
  unfold bind at 1. unfold reading at 1.
  change (fs w2) with (fs w). rewrite (iterdir_of_dir _ _ Hdir).
  unfold bind at 1.
  destruct (linked_convert_wav_files_kept None (listing album (fs w)) w2)
    as [_ [Ht3 [[added Hfs] Hex]]].
  destruct (Linked.convert_wav_files links (listing album (fs w)) None w2)
    as [[[]|e] w3];
    simpl in Ht3, Hfs, Hex;
    [|eexists; eexists; split; [reflexivity|rewrite Ht3; exact Ht2]].
  unfold bind at 1. unfold emit at 1.
  set (w4 := record (Print "(3) Attempting to match metadata song titles with files")
               w3).
  assert (Ht4 : tagger_calls (trace w4) = tagger_calls (trace w)).
  { unfold w4. world_simpl. rewrite tagger_calls_app by reflexivity.
    rewrite Ht3. exact Ht2. }
  unfold bind at 1.
  destruct (cfg_songs cfg) as [songs|];
    [|eexists; eexists; split; [reflexivity|exact Ht4]].
  unfold ret at 1. unfold bind at 1. unfold reading at 1.
  change (fs w4) with (fs w3).
  destruct (match_titles_to_files songs album (fs w3)) as [mapping|e] eqn:Hmatch;
    [|eexists; eexists; split; [reflexivity|exact Ht4]].
  exfalso.
  assert (Hc : child_of album p = true).
  { unfold listing in Hp. apply filter_In in Hp. tauto. }
  destruct (sibling_mp3_is_music album p Hc Hw) as [Hcs Hss].
  apply (same_stem_no_mapping songs album (fs w3) p (sibling_mp3 p) mapping);
    [| | |symmetry|assumption].
  - apply filter_In. split.
    + rewrite Hfs, listing_app. apply in_or_app. now left.
    + unfold is_music. apply is_wav_suffix in Hw. now rewrite Hw.
  - apply filter_In. split.
    + apply exists_in_listing; [assumption|].
      pose proof (Hex eq_refl p Hp Hw) as Hthere.
      rewrite Hself in Hthere. exact Hthere.
    + unfold is_music. now rewrite Hss.
  - intros Heq. apply is_wav_suffix in Hw. rewrite Heq in Hw. congruence.
  - apply child_of_parent in Hc as [_ Hne].
    unfold sibling_mp3. apply stem_mp3.
    apply name_stem_suffix. apply is_wav_suffix in Hw. rewrite Hw. discriminate.
Qed.

(** X8.  With no output directory, an album directory that lists a .wav
    entry which resolves to itself, that is, which is no symbolic link, is
    never tagged, whatever the other entries resolve to: the run of the
    pipeline ends with an exception and the tagger has not been run.
    Either a step before the matcher fails, or the .wav file and the .mp3
    file the transcoder has written next to it, which have the same stem,
    make the matcher fail. *)
Theorem wav_in_album_blocks_tagging
    (album : Path) (config_json : option Path) (w : World) (p : Path) :
  In p (listing album (fs w)) ->
  is_wav p = true ->
  links p = p ->
  (exists e,
      fst (Linked.populate_album_metadata links album config_json None w) = Raise e)
  /\ tagger_calls
       (trace (snd (Linked.populate_album_metadata links album config_json None w)))
     = tagger_calls (trace w).
Proof.
  intros Hp Hw Hself.
  destruct (wav_in_album_run album config_json w p Hp Hw Hself)
    as [e [w' [Hrun Ht]]].
  rewrite Hrun. split; [now exists e|exact Ht].
Qed.

End PipelineLimits.

(* ===================================================================== *)
(** ** The pipeline: tagging *)
(* ===================================================================== *)

Section Tagging.

Import CdRipper.

Lemma record_all_record (e : Event) (es : list Event) (w : World) :
  record_all es (record e w) = record_all (e :: es) w.
Proof. unfold record_all, record. simpl. now rewrite <- app_assoc. Qed.

Lemma record_all_nil (w : World) : record_all [] w = w.
Proof. destruct w. unfold record_all. simpl. now rewrite app_nil_r. Qed.

Lemma record_all_app (es es' : list Event) (w : World) :
  record_all es' (record_all es w) = record_all (es ++ es') w.
Proof. unfold record_all. simpl. now rewrite <- app_assoc. Qed.

Lemma tagging_events_app (tags : Tags) (done rest : list (string * Path)) (k : nat) :
  tagging_events tags (done ++ rest) k
  = (tagging_events tags done k
     ++ tagging_events tags rest (k + length done))%list.
Proof.
  revert k. induction done as [|[t g] done IH]; intros k; simpl.
  - now rewrite Nat.add_0_r.
  - rewrite IH.
    replace (k + 1 + length done) with (k + S (length done)) by lia.
    reflexivity.
Qed.

(** Tagging goes through the pairs whose file is there and accepted by the
    tagger, and carries on with the others. *)
Lemma tag_all_app (tags : Tags) (done rest : list (string * Path)) :
  forall (k : nat) (w : World),
    (forall pr, In pr done ->
                is_file (snd pr) (fs w) = true /\ mid3v2_ok (env w) (snd pr) = true) ->
    tag_all tags (done ++ rest) k w
    = tag_all tags rest (k + length done) (record_all (tagging_events tags done k) w).
Proof.
  induction done as [|[t g] done IH]; intros k w Hok.
  - simpl. now rewrite Nat.add_0_r, record_all_nil.
  - destruct (Hok (t, g) (or_introl eq_refl)) as [Hf Ht]. simpl in Hf, Ht.
    cbn [app tag_all tagging_events]. unfold bind, add_metadata, resolve.
    rewrite Hf, Ht. cbn [negb].
    rewrite IH.
    + rewrite record_all_record. simpl length.
      replace (k + 1 + length done) with (k + S (length done)) by lia.
      reflexivity.
    + intros pr Hpr. apply Hok. now right.
Qed.

Lemma tag_all_run (tags : Tags) (mapping : list (string * Path))
    (track_num : nat) (w : World) :
  (forall pr, In pr mapping ->
              is_file (snd pr) (fs w) = true /\ mid3v2_ok (env w) (snd pr) = true) ->
  tag_all tags mapping track_num w
  = (Ok tt, record_all (tagging_events tags mapping track_num) w).
Proof.
  intros Hok.
  rewrite <- (app_nil_r mapping) at 1.
  rewrite tag_all_app by assumption.
  reflexivity.
Qed.

(** X9.  The tagging step, when every matched file is there and the tagger
    accepts it: the tagger is run once per pair, in the order of the
    mapping, with the title of the pair and the track numbers [track_num],
    [track_num + 1], and so on. *)
Theorem tagging_numbers_the_tracks (tags : Tags) (mapping : list (string * Path))
    (track_num : nat) (w : World) :
  (forall pr, In pr mapping ->
              is_file (snd pr) (fs w) = true /\ mid3v2_ok (env w) (snd pr) = true) ->
  tag_all tags mapping track_num w
  = (Ok tt, record_all (tagging_events tags mapping track_num) w).
Proof. apply tag_all_run. Qed.

(** X10.  The tagging step stops at the first pair it cannot tag: the pairs
    before it have been tagged and stay so, the pairs after it are not
    touched. When the file of the pair is missing, [FileNotFoundError] is
    raised and the tagger is not run on it; when the tagger rejects the
    file, [CalledProcessError] is raised. *)
Theorem tagging_stops_at_first_failure (tags : Tags)
    (done later : list (string * Path)) (title : string) (file : Path)
    (track_num : nat) (w : World) :
  (forall pr, In pr done ->
              is_file (snd pr) (fs w) = true /\ mid3v2_ok (env w) (snd pr) = true) ->
  is_file file (fs w) && mid3v2_ok (env w) file = false ->
  tag_all tags (done ++ (title, file) :: later) track_num w
  = if is_file file (fs w)
    then (Raise (CalledProcessError
                   (mid3v2_command file tags (Some title)
                                   (Some (track_num + length done)))),
          record_all (tagging_events tags (done ++ [(title, file)]) track_num) w)
    else (Raise (FileNotFoundError (path_str file)),
          record_all (tagging_events tags done track_num) w).
Proof.
  intros Hok Hbad.
  rewrite tag_all_app by assumption.
  cbn [tag_all]. unfold bind, add_metadata, resolve.
  change (fs (record_all _ w)) with (fs w).
  change (env (record_all _ w)) with (env w).
  destruct (is_file file (fs w)); cbn [negb]; [|reflexivity].
  simpl in Hbad. rewrite Hbad.
  rewrite tagging_events_app. simpl tagging_events.
  unfold record_all, record. simpl. now rewrite <- app_assoc.
Qed.

Lemma convert_no_wav (files : list Path) (out : option Path) (w : World) :
  (forall p, In p files -> is_wav p = false) ->
  convert_wav_files files out w = (Ok tt, w).
Proof.
  induction files as [|p files IH]; intros Hno; [reflexivity|].
  rewrite convert_wav_files_cons, (Hno p (or_introl eq_refl)).
  apply IH. intros q Hq. apply Hno. now right.
Qed.

(** X11.  A complete run of the pipeline. The album directory lists no .wav
    file, its first .json entry holds the tag fields and the titles, the
    matcher returns a mapping, and every matched file is a regular file the
    tagger accepts. Then the pipeline returns, leaves the file system as it
    is, prints its four progress lines and runs the tagger once per title,
    in title order, with the tag fields of the configuration, the title, and
    the track numbers 1, 2, and so on. *)
Theorem pipeline_tags_in_title_order
    (album config : Path) (output_directory : option Path) (cfg : AlbumConfig)
    (titles : list string) (mapping : list (string * Path)) (w : World) :
  is_dir album (fs w) = true ->
  hd_error (filter is_json (listing album (fs w))) = Some config ->
  is_file config (fs w) = true ->
  json_of (env w) config = Some cfg ->
  cfg_songs cfg = Some titles ->
  (forall p, In p (listing album (fs w)) -> is_wav p = false) ->
  match_titles_to_files titles album (fs w) = Ok mapping ->
  (forall pr, In pr mapping ->
              is_file (snd pr) (fs w) = true /\ mid3v2_ok (env w) (snd pr) = true) ->
  populate_album_metadata album None output_directory w
  = (Ok tt,
     record_all (progress_lines config ++ tagging_events (tags_of cfg) mapping 1) w).
Proof.
  intros Hdir Hcfg Hcfile Hjson Hsongs Hnowav Hmatch Hok.
  unfold populate_album_metadata, bind, get_fs. cbv beta.
  rewrite Hdir. cbn [negb]. cbv beta iota.
  unfold resolve_config, reading, bind. cbv beta.
  rewrite (iterdir_of_dir _ _ Hdir). cbv beta iota.
  change (fun f : Path => (suffix f =? ".json")%string) with is_json.
  destruct (filter is_json (listing album (fs w))) as [|c others];
    [discriminate|].
  simpl in Hcfg. inversion Hcfg; subst c.
  unfold ret, emit, load_album_config_file. cbv beta iota.
  change (fs (record _ w)) with (fs w).
  change (env (record _ w)) with (env w).
  rewrite Hcfile, Hjson. cbv beta iota.
  change (fs (record _ (record _ w))) with (fs w).
  rewrite (iterdir_of_dir _ _ Hdir). cbv beta iota.
  rewrite convert_no_wav by assumption. cbv beta iota.
  rewrite Hsongs. cbv beta iota.
  change (fs (record _ (record _ (record _ w)))) with (fs w).
  rewrite Hmatch. cbv beta iota.
  fold (tags_of cfg).
  rewrite tag_all_run.
  - unfold progress_lines, record_all, record. simpl.
    now rewrite <- !app_assoc.
  - exact Hok.
Qed.

End Tagging.

(* ===================================================================== *)
(** ** The sequencer: names *)
(* ===================================================================== *)

Section SequencerNames.

Import Raw.

Lemma append_prefix (p1 p2 r1 r2 : string) :
  p1 ++ r1 = p2 ++ r2 -> prefix p1 p2 = true \/ prefix p2 p1 = true.
Proof.
  revert p2. induction p1 as [|a p1 IH]; intros p2 H.
  - left. destruct p2; reflexivity.
  - destruct p2 as [|b p2]; [right; reflexivity|].
    simpl in H. inversion H; subst.
    destruct (IH p2 H2) as [Hp | Hp]; [left|right]; simpl;
      destruct (ascii_dec b b); congruence.
Qed.

Lemma prefixes_checked :
  forallb (fun n1 => forallb (fun n2 => (n1 =? n2)%nat || prefixes_apart n1 n2)
                             (seq 1 99))
          (seq 1 99) = true.
Proof. vm_compute. reflexivity. Qed.

(** X12.  Files of different discs, among the discs 1 to 99, never get the
    same name in the raw-track directory, whatever their numbers: no file of
    one disc is overwritten by a file of another. *)
Theorem discs_never_share_a_name (n1 n2 : nat) (number1 number2 : Z) :
  1 <= n1 <= 99 -> 1 <= n2 <= 99 -> n1 <> n2 ->
  target_name (disc_prefix n1) number1 <> target_name (disc_prefix n2) number2.
Proof.
  intros H1 H2 Hne Heq. unfold target_name in Heq.
  pose proof prefixes_checked as Hall.
  rewrite forallb_forall in Hall.
  assert (Hapart : forall a b, 1 <= a <= 99 -> 1 <= b <= 99 -> a <> b ->
                               prefix (disc_prefix a) (disc_prefix b) = false).
  { intros a b Ha Hb Hab.
    assert (Hina : In a (seq 1 99)) by (apply in_seq; lia).
    assert (Hinb : In b (seq 1 99)) by (apply in_seq; lia).
    specialize (Hall a Hina). rewrite forallb_forall in Hall.
    specialize (Hall b Hinb). apply orb_true_iff in Hall as [Hall|Hall].
    - apply Nat.eqb_eq in Hall. contradiction.
    - unfold prefixes_apart in Hall. now apply negb_true_iff in Hall. }
  apply append_prefix in Heq as [Hp | Hp].
  - rewrite Hapart in Hp by auto. discriminate.
  - rewrite Hapart in Hp by auto. discriminate.
Qed.

Lemma substring_beyond (n m : nat) (s : string) :
  String.length s <= n -> substring n m s = "".
Proof.
  revert n. induction s as [|c s IH]; intros [|n] H; simpl in *;
    try lia; try reflexivity.
  - destruct m; reflexivity.
  - apply IH. lia.
Qed.

(** X13.  A file of the scratch directory whose name, up to its first dot,
    has at most five characters stops the relocation: the two characters
    parsed as the track index are missing, [int] raises [ValueError], and
    when the file is the first of the listing nothing has been moved or
    reported. *)
Theorem short_name_stops_relocation (wav album : Path) (initial_index : Z)
    (prefix : string) (mock_run : bool) (w : World) (x : Path) (others : list Path) :
  is_dir wav (fs w) = true ->
  listing wav (fs w) = x :: others ->
  String.length (split_head "." (stem x)) <= 5 ->
  move_wav_files_to_album wav album initial_index prefix mock_run w
  = (Raise (ValueError "invalid literal for int() with base 10: ''"), w).
Proof.
  intros Hdir Hlist Hshort.
  unfold move_wav_files_to_album, bind, reading. cbv beta.
  rewrite (iterdir_of_dir _ _ Hdir), Hlist. cbv beta iota.
  cbn [for_each]. unfold bind. cbv beta.
  unfold slice. rewrite (substring_beyond 5 (7 - 5) _ Hshort).
  reflexivity.
Qed.

End SequencerNames.

Section DryRelocationTargets.

Import Raw.

Lemma stem_joinpath (d : Path) (n : string) : stem (joinpath d n) = stem [n].
Proof. unfold stem. now rewrite name_joinpath. Qed.

Lemma parses_checked : forallb parses_back (seq 0 100) = true.
Proof. vm_compute. reflexivity. Qed.

(** The index the ripper writes into the name of track [k] is the number
    the relocation reads from it, for every index below 100. *)
Lemma track_index_parses_back (d : Path) (k : nat) :
  k < 100 ->
  int (slice 5 7 (split_head "." (stem (joinpath d (Scenario.cdda_name k)))))
  = Ok (Z.of_nat k).
Proof.
  intros Hk. rewrite stem_joinpath.
  pose proof parses_checked as Hall. rewrite forallb_forall in Hall.
  assert (Hin : In k (seq 0 100)) by (apply in_seq; lia).
  specialize (Hall k Hin). unfold parses_back in Hall.
  destruct (int _) as [z|e]; [|discriminate].
  apply Z.eqb_eq in Hall. now subst z.
Qed.

Lemma dry_loop_reports (wav album : Path) (initial_index : Z) (prefix : string) :
  forall (ks : list nat) (w : World),
    Forall (fun k => k < 100) ks ->
    for_each (map (fun k => joinpath wav (Scenario.cdda_name k)) ks)
      (fun _file =>
         parsed <- (fun w => (int (slice 5 7 (split_head "." (stem _file))), w)) ;;
         emit (LogInfo "shutil.move(%s, %s)"
                 [_file;
                  joinpath (joinpath album "raw")
                           (target_name prefix (parsed + initial_index)%Z)])) w
    = (Ok tt, record_all (map (log_of wav album prefix initial_index) ks) w).
Proof.
  induction ks as [|k ks IH]; intros w Hks.
  - simpl. now rewrite record_all_nil.
  - inversion Hks as [|? ? Hk Hks']; subst.
    cbn [map for_each]. unfold bind at 1. unfold bind at 1.
    rewrite (track_index_parses_back wav k Hk).
    unfold emit at 1. rewrite IH by assumption.
    rewrite record_all_record. reflexivity.
Qed.

(** X14.  A dry relocation of a scratch directory that holds the ripped
    tracks [ks], under the names the ripper gives them: for each track [k],
    in the order of the listing, it reports the move to the raw-track
    directory under the prefix followed by the number [k] plus the offset,
    with a leading 0 when that number is below 10; it returns the number of
    files and moves nothing. *)
Theorem dry_relocation_reports_targets (wav album : Path) (initial_index : Z)
    (prefix : string) (w : World) (ks : list nat) :
  is_dir wav (fs w) = true ->
  listing wav (fs w) = map (fun k => joinpath wav (Scenario.cdda_name k)) ks ->
  Forall (fun k => k < 100) ks ->
  move_wav_files_to_album wav album initial_index prefix true w
  = (Ok (Z.of_nat (length ks)),
     record_all (map (log_of wav album prefix initial_index) ks) w).
Proof.
  intros Hdir Hlist Hks.
  unfold move_wav_files_to_album.
  unfold bind at 1. unfold reading at 1.
  rewrite (iterdir_of_dir _ _ Hdir), Hlist.
  unfold bind at 1.
  rewrite (dry_loop_reports wav album initial_index prefix ks w Hks).
  unfold bind, reading, ret.
  change (fs (record_all _ w)) with (fs w).
  rewrite (iterdir_of_dir _ _ Hdir), Hlist, length_map.
  reflexivity.
Qed.

End DryRelocationTargets.

(* ===================================================================== *)
(** ** From the sequencer to the matcher *)
(* ===================================================================== *)

Section SingleDisc.

Import CdRipper.

Lemma single_disc_names_ok : single_disc_names_checked = true.
Proof. vm_compute. reflexivity. Qed.

Lemma single_disc_names_facts (i j : nat) :
  1 <= i <= 99 -> 1 <= j <= 99 ->
  number_in_name i i = true
  /\ (j < i -> number_in_name i j = false)
  /\ (i <> j -> single_disc_name i <> single_disc_name j).
Proof.
  intros Hi Hj. pose proof single_disc_names_ok as Hall.
  unfold single_disc_names_checked in Hall. rewrite forallb_forall in Hall.
  assert (Hini : In i (seq 1 99)) by (apply in_seq; lia).
  assert (Hinj : In j (seq 1 99)) by (apply in_seq; lia).
  specialize (Hall i Hini).
  apply andb_true_iff in Hall as [Hall Hnames].
  apply andb_true_iff in Hall as [Hself Hlow].
  rewrite forallb_forall in Hlow, Hnames.
  specialize (Hlow j Hinj). specialize (Hnames j Hinj).
  split; [assumption|split].
  - intros Hlt. apply orb_true_iff in Hlow as [Hle|Hno].
    + apply Nat.leb_le in Hle. lia.
    + now apply negb_true_iff in Hno.
  - intros Hne Heq. apply orb_true_iff in Hnames as [He|Hno].
    + apply Nat.eqb_eq in He. contradiction.
    + apply negb_true_iff in Hno. apply String.eqb_neq in Hno. contradiction.
Qed.

Lemma nth_error_names (d : Path) (N i : nat) (g : Path) :
  nth_error (map (fun k => joinpath d (single_disc_name k)) (seq 1 N)) i = Some g ->
  i < N /\ g = joinpath d (single_disc_name (i + 1)).
Proof.
  rewrite nth_error_map, nth_error_seq.
  destruct (i <? N)%nat eqn:Hi; simpl; [|discriminate].
  apply Nat.ltb_lt in Hi. intros H. inversion H.
  split; [assumption|]. now rewrite Nat.add_comm.
Qed.

(** X15.  The files of a single-disc album, as the sequencer names them (at
    most 99 tracks), are matched title by title: when no title occurs in any
    of the stems, the matcher pairs the title of rank [i] with the file of
    track [i+1]. *)
Theorem single_disc_album_is_matched
    (titles : list string) (d : Path) (f : FS) :
  is_dir d f = true ->
  length titles <= 99 ->
  Permutation (map (fun k => joinpath d (single_disc_name k))
                   (seq 1 (length titles)))
              (filter is_music (listing d f)) ->
  (forall t k, In t titles -> 1 <= k <= length titles ->
               str_in t (stem (joinpath d (single_disc_name k))) = false) ->
  match_titles_to_files titles d f
  = Ok (combine titles
                (map (fun k => joinpath d (single_disc_name k))
                     (seq 1 (length titles)))).
Proof.
  intros Hd HN Hperm Htitles.
  set (gs := map (fun k => joinpath d (single_disc_name k)) (seq 1 (length titles)))
    in *.
  assert (Hlen : length titles = length gs)
    by (unfold gs; now rewrite length_map, length_seq).
  assert (Hnd : NoDup gs).
  { unfold gs. apply NoDup_map_NoDup_ForallPairs; [|apply seq_NoDup].
    intros x y Hx Hy Heq. apply in_seq in Hx, Hy.
    unfold joinpath in Heq. apply app_inj_tail in Heq as [_ Heq].
    destruct (Nat.eq_dec x y) as [|Hne]; [assumption|].
    destruct (single_disc_names_facts x y) as [_ [_ Hdiff]]; try lia.
    now apply Hdiff in Hne. }
  rewrite match_titles_to_files_listing by assumption.
  unfold match_entries.
  rewrite <- (Permutation_length Hperm), <- Hlen, Nat.eqb_refl. cbn [negb].
  unfold enumerate. rewrite length_rev.
  rewrite (match_loop_claims (length titles) titles gs 0); auto.
  - simpl. now rewrite rev_involutive.
  - apply (Permutation_NoDup Hperm Hnd).
  - intros x. split; intros Hx.
    + apply (Permutation_in x (Permutation_sym Hperm) Hx).
    + apply (Permutation_in x Hperm Hx).
  - intros i t g Ht Hg. apply nth_error_names in Hg as [Hi ->].
    unfold is_possible. rewrite stem_joinpath.
    destruct (single_disc_names_facts (i + 1) (i + 1)) as [Hself _]; try lia.
    unfold number_in_name in Hself. now rewrite Hself.
  - intros i j t g Hji Ht Hg. apply nth_error_names in Hg as [Hj ->].
    assert (Hi : i < length titles) by (apply nth_error_Some; congruence).
    unfold is_possible.
    rewrite (Htitles t (j + 1)); [|now apply (nth_error_In _ i)|lia].
    rewrite stem_joinpath.
    destruct (single_disc_names_facts (i + 1) (j + 1)) as [_ [Hlow _]]; try lia.
    unfold number_in_name in Hlow. rewrite Hlow by lia. reflexivity.
Qed.

End SingleDisc.

(* ===================================================================== *)
(** ** The sequencer: prompts and ripper runs *)
(* ===================================================================== *)

Section Dialogue.

Import Raw.

Lemma dialogue_app (tr es : list Event) :
  dialogue (tr ++ es)%list = (dialogue tr ++ dialogue es)%list.
Proof. unfold dialogue. apply filter_app. Qed.

Lemma quiet_refl (w : World) : quiet_between w w.
Proof. split; reflexivity. Qed.

Lemma quiet_trans (w1 w2 w3 : World) :
  quiet_between w1 w2 -> quiet_between w2 w3 -> quiet_between w1 w3.
Proof. unfold quiet_between. intros [H1 H2] [H3 H4]. split; congruence. Qed.

Lemma quiet_record (e : Event) (w : World) :
  is_dialogue e = false -> quiet_between w (record e w).
Proof.
  intros He. split; [reflexivity|]. world_simpl.
  rewrite dialogue_app. simpl. rewrite He. apply app_nil_r.
Qed.

(** A relocation, dry or live, neither prompts nor runs a tool. *)
Lemma relocation_quiet (wav album : Path) (initial_index : Z) (prefix : string)
    (mock_run : bool) :
  preserves quiet_between
    (move_wav_files_to_album wav album initial_index prefix mock_run).
Proof.
  unfold move_wav_files_to_album.
  apply (preserves_bind _ quiet_trans);
    [apply (preserves_reading _ quiet_refl)|].
  intros files.
  apply (preserves_bind _ quiet_trans).
  - apply (preserves_for_each _ quiet_refl quiet_trans).
    intros x.
    apply (preserves_bind _ quiet_trans).
    + intros w. apply quiet_refl.
    + intros parsed. destruct mock_run.
      * intros w. now apply quiet_record.
      * intros w. unfold shutil_move.
        destruct (negb (exists_ x (fs w))); [now apply quiet_record|].
        destruct (is_dir _ (fs w) && exists_ _ (fs w)); [now apply quiet_record|].
        destruct (negb (is_dir _ (fs w))); now apply (quiet_record _ w).
  - intros _.
    apply (preserves_bind _ quiet_trans);
      [apply (preserves_reading _ quiet_refl)|].
    intros remaining. apply (preserves_ret _ quiet_refl).
Qed.

(** What the trace shows of prompts and ripper runs after the outcome [r]
    of a run over the discs [ns]: the whole script when the run returned, a
    beginning of it otherwise. *)
Lemma disc_loop_dialogue (temp_dir folder : Path) (mock_run : bool) :
  forall (ns : list nat) (track_num : Z) (w : World),
  exists r w',
    disc_loop ns temp_dir folder track_num mock_run w = (r, w')
    /\ env w' = env w
    /\ match r with
       | Ok _ =>
           dialogue (trace w')
           = (dialogue (trace w)
              ++ rip_script (cdparanoia_command temp_dir (getenv_pwd (env w))) ns)%list
       | Raise _ =>
           exists m,
             dialogue (trace w')
             = (dialogue (trace w)
                ++ firstn m (rip_script
                               (cdparanoia_command temp_dir (getenv_pwd (env w)))
                               ns))%list
       end.
Proof.
  induction ns as [|n ns IH]; intros track_num w.
  - exists (Ok tt), w. simpl. split; [reflexivity|]. split; [reflexivity|].
    now rewrite app_nil_r.
  - cbn [disc_loop]. fold (load_prompt n).
    unfold bind at 1. unfold input.
    destruct (stdin w) as [|a rest].
    { eexists. eexists. split; [reflexivity|]. split; [reflexivity|].
      exists 1. world_simpl. now rewrite dialogue_app. }
    set (w1 := set_stdin rest (record (Input (load_prompt n)) w)).
    assert (Hd1 : dialogue (trace w1)
                  = (dialogue (trace w) ++ [Input (load_prompt n)])%list).
    { unfold w1. world_simpl. now rewrite dialogue_app. }
    unfold bind at 1. unfold rip_cd_to_folder.
    destruct (is_dir temp_dir (fs w1)); cbn [negb].
    2:{ eexists. eexists. split; [reflexivity|]. split; [reflexivity|].
        exists 1. exact Hd1. }
    change (env w1) with (env w).
    set (cmd := cdparanoia_command temp_dir (getenv_pwd (env w))).
    unfold bind at 1. unfold emit at 1. unfold run_cdparanoia.
    set (w2 := record (Subprocess cmd)
                 (record (LogDebug "Running command: %s" [cmd]) w1)).
    assert (Hd2 : dialogue (trace w2)
                  = (dialogue (trace w)
                     ++ [Input (load_prompt n); Subprocess cmd])%list).
    { unfold w2. world_simpl. rewrite !dialogue_app, Hd1. simpl.
      rewrite app_nil_r. now rewrite <- app_assoc. }
    change (drive (record (LogDebug "Running command: %s" [cmd]) w1)) with (drive w).
    destruct (drive w) as [|d discs].
    { eexists. eexists. split; [reflexivity|]. split; [reflexivity|].
      exists 2. exact Hd2. }
    change (fs (record (LogDebug "Running command: %s" [cmd]) w1)) with (fs w).
    set (w3 := set_drive discs (set_fs _ w2)).
    assert (Hd3 : dialogue (trace w3) = dialogue (trace w2)) by reflexivity.
    destruct (disc_ok d).
    2:{ eexists. eexists. split; [reflexivity|]. split; [reflexivity|].
        exists 2. exact Hd2. }
    unfold bind at 1.
    pose proof (relocation_quiet temp_dir folder track_num (disc_prefix n) mock_run w3)
      as [He4 Hd4].
    destruct (move_wav_files_to_album temp_dir folder track_num (disc_prefix n)
                mock_run w3) as [[moved|e] w4]; cbn [fst snd] in He4, Hd4.
    2:{ eexists. eexists. split; [reflexivity|]. split; [exact He4|].
        exists 2. rewrite Hd4, Hd3. exact Hd2. }
    destruct (IH (track_num + moved)%Z w4) as [r [w5 [Hrun [He5 Hd5]]]].
    exists r, w5. split; [exact Hrun|]. split; [rewrite He5; exact He4|].
    rewrite He4 in Hd5. change (env w3) with (env w) in Hd5. fold cmd in Hd5.
    destruct r as [u|e].
    + rewrite Hd4, Hd3, Hd2, <- app_assoc in Hd5. exact Hd5.
    + destruct Hd5 as [m Hd5]. exists (2 + m).
      rewrite Hd4, Hd3, Hd2, <- app_assoc in Hd5. exact Hd5.
Qed.

Lemma mkdir_cases (p : Path) (w : World) :
  (exists e, mkdir_exist_ok p w = (Raise e, w))
  \/ mkdir_exist_ok p w = (Ok tt, w)
  \/ (exists_ p (fs w) = false
      /\ mkdir_exist_ok p w = (Ok tt, set_fs (fs w ++ [(p, Dir)])%list w)).
Proof.
  unfold mkdir_exist_ok.
  destruct (is_dir p (fs w)); [right; left; reflexivity|].
  destruct (exists_ p (fs w)); [left; eexists; reflexivity|].
  destruct (is_dir (parent p) (fs w)).
  - right. right. split; reflexivity.
  - left. eexists. reflexivity.
Qed.

(** X16.  The operator's side of a run of the sequencer, dry or live. When
    the run returns, the operator has been prompted once per disc, for the
    discs 1 to [cd_count] in turn, and each prompt has been followed by one
    run of the ripper. When the run ends by an exception, what has happened
    is a beginning of that script: no disc is ripped without its prompt, no
    disc is prompted twice, and nothing follows a failure. *)
Theorem sequencer_follows_the_script (folder : Path) (cd_count : Z)
    (mock_run : bool) (w : World) :
  let run := rip_album_from_cd folder cd_count mock_run w in
  let script := rip_script (cdparanoia_command (mkdtemp (env w)) (getenv_pwd (env w)))
                           (disc_range cd_count) in
  match fst run with
  | Ok _ => dialogue (trace (snd run)) = (dialogue (trace w) ++ script)%list
  | Raise _ =>
      exists m, dialogue (trace (snd run)) = (dialogue (trace w) ++ firstn m script)%list
  end.
Proof.
  cbv zeta.
  assert (Hrun : exists r w',
             rip_album_from_cd folder cd_count mock_run w = (r, w')
             /\ match r with
                | Ok _ =>
                    dialogue (trace w')
                    = (dialogue (trace w)
                       ++ rip_script (cdparanoia_command (mkdtemp (env w))
                                                         (getenv_pwd (env w)))
                                     (disc_range cd_count))%list
                | Raise _ =>
                    exists m,
                      dialogue (trace w')
                      = (dialogue (trace w)
                         ++ firstn m (rip_script
                                        (cdparanoia_command (mkdtemp (env w))
                                                            (getenv_pwd (env w)))
                                        (disc_range cd_count)))%list
                end).
  { unfold rip_album_from_cd. unfold bind.
    assert (Hstop : exists m,
               dialogue (trace w)
               = (dialogue (trace w)
                  ++ firstn m (rip_script
                                 (cdparanoia_command (mkdtemp (env w))
                                                     (getenv_pwd (env w)))
                                 (disc_range cd_count)))%list).
    { exists 0. simpl. now rewrite app_nil_r. }
    destruct (mkdir_cases (joinpath folder "raw") w)
      as [[e Hm] | [Hm | [_ Hm]]]; rewrite Hm.
    - eexists. eexists. split; [reflexivity|exact Hstop].
    - unfold with_temporary_directory.
      destruct (exists_ (mkdtemp (env w)) (fs w));
        [eexists; eexists; split; [reflexivity|exact Hstop]|].
      destruct (is_dir (parent (mkdtemp (env w))) (fs w)); cbn [negb];
        [|eexists; eexists; split; [reflexivity|exact Hstop]].
      destruct (disc_loop_dialogue (mkdtemp (env w)) folder mock_run
                  (disc_range cd_count) 0
                  (set_fs (fs w ++ [(mkdtemp (env w), Dir)])%list w))
        as [r [w' [Hloop [_ Hd]]]].
      rewrite Hloop. eexists. eexists. split; [reflexivity|exact Hd].
    - unfold with_temporary_directory. world_simpl.
      destruct (exists_ (mkdtemp (env w)) _);
        [eexists; eexists; split; [reflexivity|exact Hstop]|].
      destruct (is_dir (parent (mkdtemp (env w))) _); cbn [negb];
        [|eexists; eexists; split; [reflexivity|exact Hstop]].
      match goal with
      | |- context [disc_loop ?ns ?t ?f ?k ?m ?w0] =>
          destruct (disc_loop_dialogue t f m ns k w0) as [r [w' [Hloop [_ Hd]]]]
      end.
      rewrite Hloop. eexists. eexists. split; [reflexivity|exact Hd]. }
  destruct Hrun as [r [w' [Hrun Hd]]]. rewrite Hrun. exact Hd.
Qed.

End Dialogue.

(* ===================================================================== *)
(** ** The sequencer: what stays on disk *)
(* ===================================================================== *)

Section OnDisk.

Import Raw.






(** A dry relocation leaves the file system as it is, whatever its
    outcome. *)
Lemma dry_relocation_same_fs (wav album : Path) (initial_index : Z) (prefix : string) :
  preserves same_fs_between
    (move_wav_files_to_album wav album initial_index prefix true).
Proof.
  unfold move_wav_files_to_album.
  apply (preserves_bind _ same_fs_trans);
    [apply (preserves_reading _ same_fs_refl)|].
  intros files.
  apply (preserves_bind _ same_fs_trans).
  - apply (preserves_for_each _ same_fs_refl same_fs_trans).
    intros x. apply (preserves_bind _ same_fs_trans).
    + intros w. reflexivity.
    + intros parsed w. reflexivity.
  - intros _.
    apply (preserves_bind _ same_fs_trans);
      [apply (preserves_reading _ same_fs_refl)|].
    intros remaining. apply (preserves_ret _ same_fs_refl).
Qed.


Lemma remove_tree_outside (q : Path) (f : FS) :
  forall p, In p (map fst (remove_tree q f)) -> below q p = false.
Proof.
  intros p Hp. unfold remove_tree in Hp.
  apply in_map_iff in Hp as [[p' k] [<- Hin]].
  apply filter_In in Hin as [_ Hb]. simpl in *.
  now apply negb_true_iff in Hb.
Qed.



Lemma outside_raw_added (q raw : Path) (f : FS) :
  outside q f -> below q raw = false -> outside q (f ++ [(raw, Dir)])%list.
Proof.
  intros Hout Hraw p Hp. rewrite map_app in Hp.
  apply in_app_or in Hp as [Hp | [<- | []]]; [now apply Hout|assumption].
Qed.

(** X17.  The scratch directory does not outlive a run of the sequencer, dry
    or live, however the run ends: when nothing was at its place or below
    before the run, nothing is there after it. *)
Theorem scratch_directory_is_removed (folder : Path) (cd_count : Z)
    (mock_run : bool) (w : World) :
  outside (mkdtemp (env w)) (fs w) ->
  below (mkdtemp (env w)) (joinpath folder "raw") = false ->
  outside (mkdtemp (env w))
          (fs (snd (rip_album_from_cd folder cd_count mock_run w))).
Proof.
  intros Hout Hraw. unfold rip_album_from_cd, bind.
  destruct (mkdir_cases (joinpath folder "raw") w)
    as [[e Hm] | [Hm | [_ Hm]]]; rewrite Hm.
  - exact Hout.
  - unfold with_temporary_directory.
    destruct (exists_ (mkdtemp (env w)) (fs w)); [exact Hout|].
    destruct (negb (is_dir (parent (mkdtemp (env w))) (fs w))); [exact Hout|].
    destruct (disc_loop _ _ _ _ _ _) as [r w']. cbn [snd fs set_fs].
    intros p Hp. now apply (remove_tree_outside _ (fs w')).
  - unfold with_temporary_directory. world_simpl.
    pose proof (outside_raw_added _ _ _ Hout Hraw) as Hout'.
    destruct (exists_ (mkdtemp (env w)) _); [exact Hout'|].
    destruct (negb (is_dir (parent (mkdtemp (env w))) _)); [exact Hout'|].
    destruct (disc_loop _ _ _ _ _ _) as [r w']. cbn [snd fs set_fs].
    intros p Hp. now apply (remove_tree_outside _ (fs w')).
Qed.



End OnDisk.

(* ===================================================================== *)
(** ** The value a relocation returns *)
(* ===================================================================== *)

Section RelocationCount.

Import Raw.

(** X19.  A live relocation out of a scratch directory that is not the raw-
    track directory nor below it returns 0 whenever it returns, however many
    files it has moved: the files are counted after the moves. *)
Theorem live_relocation_counts_nothing (wav album : Path) (initial_index : Z)
    (prefix : string) (w : World) :
  below (joinpath album "raw") wav = false ->
  match fst (move_wav_files_to_album wav album initial_index prefix false w) with
  | Ok n => n = 0%Z
  | Raise _ => True
  end.
Proof.
  intros Hout.
  destruct (move_wav_files_to_album wav album initial_index prefix false w)
    as [[n|e] w'] eqn:Hrun; simpl; [|exact I].
  now apply (live_relocation_returns_zero wav album initial_index prefix w w' n).
Qed.

(** X20.  A dry relocation leaves the file system as it is, and when it
    returns it returns the number of entries of the scratch directory, stale
    ones included. *)
Theorem dry_relocation_counts_entries (wav album : Path) (initial_index : Z)
    (prefix : string) (w : World) :
  fs (snd (move_wav_files_to_album wav album initial_index prefix true w)) = fs w
  /\ match fst (move_wav_files_to_album wav album initial_index prefix true w) with
     | Ok n => n = Z.of_nat (length (listing wav (fs w)))
     | Raise _ => True
     end.
Proof.
  split; [apply dry_relocation_same_fs|].
  destruct (move_wav_files_to_album wav album initial_index prefix true w)
    as [[n|e] w'] eqn:Hrun; simpl; [|exact I].
  now apply (dry_relocation_returns_count wav album initial_index prefix w w' n).
Qed.

(** X21.  A dry run of the sequencer carries out no move, whatever the
    discs, the directories and the operator's answers. *)
Theorem dry_run_moves_nothing (folder : Path) (cd_count : Z) (w : World) :
  executed_moves (trace (snd (rip_album_from_cd folder cd_count true w)))
  = executed_moves (trace w).
Proof. apply dry_run_no_move. Qed.

End RelocationCount.

Section LateKeyError.

Import CdRipper.

(** X22.  A configuration without the key songs is found out only after the
    conversion step: when the conversions go through, the pipeline raises
    [KeyError] for songs, and by then every .wav entry of the album
    directory has its .mp3 next to it. *)
Theorem missing_songs_is_found_late
    (album config : Path) (cfg : AlbumConfig) (w : World) :
  is_dir album (fs w) = true ->
  NoDup (listing album (fs w)) ->
  hd_error (filter is_json (listing album (fs w))) = Some config ->
  is_file config (fs w) = true ->
  json_of (env w) config = Some cfg ->
  cfg_songs cfg = None ->
  (forall p, In p (listing album (fs w)) -> is_wav p = true ->
             is_file p (fs w) = true
             /\ ffmpeg_ok (env w) p (sibling_mp3 p) = true) ->
  Forall valid_answer (stdin w) ->
  length (awaiting_overwrite (listing album (fs w)) (fs w)) <= length (stdin w) ->
  exists w',
    populate_album_metadata album None None w = (Raise (KeyError "songs"), w')
    /\ forall p, In p (listing album (fs w)) -> is_wav p = true ->
                 exists_ (sibling_mp3 p) (fs w') = true.
Proof.
  intros Hdir Hnd Hcfg Hcfile Hjson Hsongs Hok Hvalid Hans.
  set (w2 := record (Print "(2) Converting .wav files to .mp3")
               (record (Print ("(1) Loading album metadata from "
                               ++ path_str (resolve config))) w)).
  destruct (convert_wav_files_adds album (listing album (fs w)) w2)
    as [w3 [added [Hloop _]]]; auto.
  { intros p Hp. unfold listing in Hp. apply filter_In in Hp. tauto. }
  destruct (convert_wav_files_kept None (listing album (fs w)) w2)
    as [_ [_ [_ Hex]]].
  rewrite Hloop in Hex. cbn [fst snd] in Hex. specialize (Hex eq_refl).
  exists (record (Print "(3) Attempting to match metadata song titles with files") w3).
  split; [|exact Hex].
  unfold populate_album_metadata, bind, get_fs. cbv beta.
  rewrite Hdir. cbn [negb]. cbv beta iota.
  unfold resolve_config, reading, bind. cbv beta.
  rewrite (iterdir_of_dir _ _ Hdir). cbv beta iota.
  change (fun f : Path => (suffix f =? ".json")%string) with is_json.
  destruct (filter is_json (listing album (fs w))) as [|c others];
    [discriminate|].
  simpl in Hcfg. inversion Hcfg; subst c.
  unfold ret, emit, load_album_config_file. cbv beta iota.
  change (fs (record _ w)) with (fs w).
  change (env (record _ w)) with (env w).
  rewrite Hcfile, Hjson. cbv beta iota.
  fold w2. change (fs w2) with (fs w).
  rewrite (iterdir_of_dir _ _ Hdir). cbv beta iota.
  rewrite Hloop. cbv beta iota.
  rewrite Hsongs. reflexivity.
Qed.

End LateKeyError.

(* ===================================================================== *)
(** ** Instances *)
(* ===================================================================== *)

Section MatcherInstances.

Import CdRipper.

Ltac distinct_paths :=
  repeat constructor; simpl; intros H;
  repeat (destruct H as [H|H]; [discriminate H|]); exact H.

Lemma matcher_result_is_sound_witness :
  length [("Intro", Scenario.intro_file); ("Main Theme", Scenario.theme_file)]
  = length Scenario.intro_titles
  /\ map fst [("Intro", Scenario.intro_file); ("Main Theme", Scenario.theme_file)]
     = Scenario.intro_titles
  /\ (forall i t g,
         nth_error [("Intro", Scenario.intro_file); ("Main Theme", Scenario.theme_file)] i
         = Some (t, g) ->
         is_possible (i + 1) t g = true)
  /\ NoDup (map snd [("Intro", Scenario.intro_file);
                     ("Main Theme", Scenario.theme_file)])
  /\ Permutation
       (map snd [("Intro", Scenario.intro_file); ("Main Theme", Scenario.theme_file)])
       (filter is_music
          (listing Scenario.album
             (Scenario.album_with ["02-Main-Theme.wav"; "cd01track01.wav"]))).
Proof.
  apply (matcher_result_is_sound Scenario.intro_titles Scenario.album
           (Scenario.album_with ["02-Main-Theme.wav"; "cd01track01.wav"])).
  vm_compute. reflexivity.
Defined.

Lemma matcher_no_match_witness :
  match_titles_to_files Cases.trio_titles Scenario.album Cases.stray_fs
  = Raise (RuntimeError "Found no music files matching 2-Beta").
Proof.
  apply (matcher_no_match ["Alpha"] ["Gamma"] "Beta" Scenario.album Cases.stray_fs
           [joinpath Scenario.album "x.mp3"; joinpath Scenario.album "y.mp3"]
           [joinpath Scenario.album "3-Gamma.mp3"]).
  - reflexivity.
  - vm_compute. apply Permutation_refl.
  - distinct_paths.
  - reflexivity.
  - reflexivity.
  - intros [|j] t' g Ht Hg; simpl in Ht, Hg; [|destruct j; discriminate].
    inversion Ht; inversion Hg; subst. vm_compute. reflexivity.
  - intros [|j] t' x Ht Hx; simpl in Ht; [|destruct j; discriminate].
    inversion Ht; subst.
    destruct Hx as [[<-|[<-|[]]] | [j' [Hlt _]]]; try lia; vm_compute; reflexivity.
  - intros x [<-|[<-|[]]]; vm_compute; reflexivity.
Defined.

Lemma matcher_ambiguous_witness :
  match_titles_to_files Cases.trio_titles Scenario.album Cases.twin_fs
  = Raise (TypeError "sequence item 0: expected str instance, PosixPath found").
Proof.
  apply (matcher_ambiguous ["Alpha"] ["Gamma"] "Beta" Scenario.album Cases.twin_fs
           [joinpath Scenario.album "2-a.mp3"; joinpath Scenario.album "2-b.mp3"]
           [joinpath Scenario.album "3-Gamma.mp3"]
           (joinpath Scenario.album "2-a.mp3") (joinpath Scenario.album "2-b.mp3")).
  - reflexivity.
  - vm_compute. apply Permutation_refl.
  - distinct_paths.
  - reflexivity.
  - reflexivity.
  - intros [|j] t' g Ht Hg; simpl in Ht, Hg; [|destruct j; discriminate].
    inversion Ht; inversion Hg; subst. vm_compute. reflexivity.
  - intros [|j] t' x Ht Hx; simpl in Ht; [|destruct j; discriminate].
    inversion Ht; subst.
    destruct Hx as [[<-|[<-|[]]] | [j' [Hlt _]]]; try lia; vm_compute; reflexivity.
  - left. reflexivity.
  - right. left. reflexivity.
  - discriminate.
  - vm_compute. reflexivity.
  - vm_compute. reflexivity.
Defined.

Lemma same_stem_blocks_matching_witness :
  ~ exists mapping,
      match_titles_to_files ["Alpha"; "Beta"] Scenario.album
        (fs Scenario.rerun_world) = Ok mapping.
Proof.
  intros [mapping Hrun]. revert mapping Hrun.
  apply (same_stem_blocks_matching ["Alpha"; "Beta"] Scenario.album
           (fs Scenario.rerun_world)
           (joinpath Scenario.album "1-Alpha.wav")
           (joinpath Scenario.album "1-Alpha.mp3")).
  - vm_compute. left. reflexivity.
  - vm_compute. right. left. reflexivity.
  - discriminate.
  - vm_compute. reflexivity.
Defined.

Lemma single_disc_album_is_matched_witness :
  match_titles_to_files Scenario.intro_titles Scenario.album Cases.single_disc_fs
  = Ok [("Intro", joinpath Scenario.album "cd01track01.wav");
        ("Main Theme", joinpath Scenario.album "cd01track02.wav")].
Proof.
  apply (single_disc_album_is_matched Scenario.intro_titles Scenario.album
           Cases.single_disc_fs).
  - reflexivity.
  - vm_compute. lia.
  - vm_compute. apply Permutation_refl.
  - intros t k [<-|[<-|[]]] Hk; simpl in Hk;
      (destruct k as [|[|[|k]]]; try lia; vm_compute; reflexivity).
Defined.

End MatcherInstances.

Section PipelineInstances.

Import CdRipper.

Lemma first_conversion_witness :
  wav_to_mp3 (joinpath Scenario.album "a.wav") false None Cases.wav_only_world
  = (Ok (joinpath Scenario.album "a.mp3"),
     set_fs (Scenario.album_with ["a.mp3"])
            (record (Subprocess (ffmpeg_command (joinpath Scenario.album "a.wav")
                                                (joinpath Scenario.album "a.mp3")))
                    Cases.wav_only_world)).
Proof.
  destruct (first_conversion (joinpath Scenario.album "a.wav") false None
              Cases.wav_only_world) as [Hrun _];
    [vm_compute; reflexivity | vm_compute; reflexivity | vm_compute; reflexivity |].
  rewrite Hrun. vm_compute. reflexivity.
Defined.

Lemma converting_an_mp3_removes_it_witness :
  mp3_target None (joinpath Scenario.album "a.mp3") = joinpath Scenario.album "a.mp3"
  /\ fst (wav_to_mp3 (joinpath Scenario.album "a.mp3") false None Cases.mp3_only_world)
     = Ok (joinpath Scenario.album "a.mp3")
  /\ exists_ (joinpath Scenario.album "a.mp3")
       (fs (snd (wav_to_mp3 (joinpath Scenario.album "a.mp3") false None
                            Cases.mp3_only_world))) = false.
Proof.
  apply (converting_an_mp3_removes_it (joinpath Scenario.album "a.mp3")
           Cases.mp3_only_world []).
  - discriminate.
  - vm_compute. reflexivity.
  - vm_compute. reflexivity.
  - vm_compute. reflexivity.
  - reflexivity.
  - reflexivity.
Defined.

Lemma separate_output_keeps_album_listing_witness :
  listing Scenario.album
    (fs (snd (convert_wav_files [joinpath Scenario.album "a.wav"]
                                (Some Cases.out_dir) Cases.two_dirs_world)))
  = listing Scenario.album (fs Cases.two_dirs_world).
Proof.
  apply (separate_output_keeps_album_listing Scenario.album Cases.out_dir
           [joinpath Scenario.album "a.wav"] Cases.two_dirs_world).
  discriminate.
Defined.

Lemma wav_in_album_blocks_tagging_witness :
  (exists e,
      fst (Linked.populate_album_metadata Cases.beta_links Scenario.album None None
             Cases.beta_linked_world) = Raise e)
  /\ tagger_calls
       (trace (snd (Linked.populate_album_metadata Cases.beta_links Scenario.album
                      None None Cases.beta_linked_world)))
     = tagger_calls (trace Cases.beta_linked_world).
Proof.
  apply (wav_in_album_blocks_tagging Cases.beta_links Scenario.album None
           Cases.beta_linked_world (joinpath Scenario.album "01-Alpha.wav")).
  - vm_compute. left. reflexivity.
  - vm_compute. reflexivity.
  - vm_compute. reflexivity.
Defined.

(** The run of the witness: the .mp3 of the linked track is written in the
    other directory, the .mp3 of the regular track next to it, and three
    audio files are found for two titles. *)
Example beta_linked_run :
  fst (Linked.populate_album_metadata Cases.beta_links Scenario.album None None
         Cases.beta_linked_world)
  = Raise (ValueError "Found 3 music files, but given 2 titles.")
  /\ is_file (joinpath Cases.store "b.mp3")
       (fs (snd (Linked.populate_album_metadata Cases.beta_links Scenario.album
                   None None Cases.beta_linked_world))) = true.
Proof. split; vm_compute; reflexivity. Qed.

(** Without the hypothesis the conclusion fails: when the only .wav entry
    is a link to a file elsewhere, its .mp3 is written there, the album
    directory lists one audio file for the one title, and the entry is
    tagged. *)
Example linked_entry_is_tagged :
  In (joinpath Scenario.album "01-Only.wav")
     (listing Scenario.album (fs Cases.only_linked_world))
  /\ fst (Linked.populate_album_metadata Cases.only_links Scenario.album None None
            Cases.only_linked_world) = Ok tt
  /\ tagger_calls
       (trace (snd (Linked.populate_album_metadata Cases.only_links Scenario.album
                      None None Cases.only_linked_world)))
     = [Subprocess
          (Linked.mid3v2_command Cases.only_links
             (joinpath Scenario.album "01-Only.wav")
             (tags_of Scenario.only_config) (Some "Only") (Some 1))]
  /\ listing Scenario.album
       (fs (snd (Linked.populate_album_metadata Cases.only_links Scenario.album
                   None None Cases.only_linked_world)))
     = listing Scenario.album (fs Cases.only_linked_world).
Proof.
  split; [vm_compute; left; reflexivity|].
  split; [vm_compute; reflexivity|].
  split; vm_compute; reflexivity.
Qed.

Lemma tagging_numbers_the_tracks_witness :
  tag_all Cases.band_tags Cases.three_pairs 1 Cases.plain_world
  = (Ok tt,
     record_all (tagging_events Cases.band_tags Cases.three_pairs 1) Cases.plain_world).
Proof.
  apply (tagging_numbers_the_tracks Cases.band_tags Cases.three_pairs 1
           Cases.plain_world).
  intros pr [<-|[<-|[<-|[]]]]; split; vm_compute; reflexivity.
Defined.

Lemma tagging_stops_at_first_failure_witness :
  tag_all Cases.band_tags Cases.three_pairs 1 Cases.picky_world
  = (Raise (CalledProcessError
              (mid3v2_command (joinpath Scenario.album "2.mp3") Cases.band_tags
                              (Some "Two") (Some 2))),
     record_all
       (tagging_events Cases.band_tags
          [("One", joinpath Scenario.album "1.mp3");
           ("Two", joinpath Scenario.album "2.mp3")] 1)
       Cases.picky_world).
Proof.
  assert (Hdone : forall pr, In pr [("One", joinpath Scenario.album "1.mp3")] ->
                    is_file (snd pr) (fs Cases.picky_world) = true
                    /\ mid3v2_ok (env Cases.picky_world) (snd pr) = true).
  { intros pr [<-|[]]; split; vm_compute; reflexivity. }
  assert (Hbad : is_file (joinpath Scenario.album "2.mp3") (fs Cases.picky_world)
                 && mid3v2_ok (env Cases.picky_world) (joinpath Scenario.album "2.mp3")
                 = false) by (vm_compute; reflexivity).
  exact (tagging_stops_at_first_failure Cases.band_tags
           [("One", joinpath Scenario.album "1.mp3")]
           [("Three", joinpath Scenario.album "3.mp3")]
           "Two" (joinpath Scenario.album "2.mp3") 1 Cases.picky_world Hdone Hbad).
Defined.

Lemma pipeline_tags_in_title_order_witness :
  populate_album_metadata Scenario.album None None Scenario.one_config_world
  = (Ok tt,
     record_all
       (progress_lines (joinpath Scenario.album "album.json")
        ++ tagging_events (tags_of Scenario.only_config)
             [("Only", joinpath Scenario.album "01-Only.mp3")] 1)%list
       Scenario.one_config_world).
Proof.
  apply (pipeline_tags_in_title_order Scenario.album
           (joinpath Scenario.album "album.json") None Scenario.only_config
           ["Only"] [("Only", joinpath Scenario.album "01-Only.mp3")]
           Scenario.one_config_world).
  - vm_compute. reflexivity.
  - vm_compute. reflexivity.
  - vm_compute. reflexivity.
  - vm_compute. reflexivity.
  - reflexivity.
  - intros p Hp. vm_compute in Hp.
    destruct Hp as [<-|[<-|[]]]; vm_compute; reflexivity.
  - vm_compute. reflexivity.
  - intros pr [<-|[]]; split; vm_compute; reflexivity.
Defined.

Lemma missing_songs_is_found_late_witness :
  exists w',
    populate_album_metadata Scenario.album None None Cases.no_songs_world
    = (Raise (KeyError "songs"), w')
    /\ forall p, In p (listing Scenario.album (fs Cases.no_songs_world)) ->
                 is_wav p = true ->
                 exists_ (sibling_mp3 p) (fs w') = true.
Proof.
  apply (missing_songs_is_found_late Scenario.album
           (joinpath Scenario.album "album.json") Cases.no_songs_config
           Cases.no_songs_world).
  - vm_compute. reflexivity.
  - vm_compute. repeat constructor; simpl; intros H;
      repeat (destruct H as [H|H]; [discriminate H|]); exact H.
  - vm_compute. reflexivity.
  - vm_compute. reflexivity.
  - vm_compute. reflexivity.
  - reflexivity.
  - intros p Hp Hw. vm_compute in Hp.
    destruct Hp as [<-|[<-|[]]]; [|discriminate Hw].
    split; vm_compute; reflexivity.
  - constructor.
  - vm_compute. lia.
Defined.

End PipelineInstances.

Section SequencerInstances.

Import Raw.

Lemma discs_never_share_a_name_witness :
  target_name (disc_prefix 1) 11 <> target_name (disc_prefix 11) 1.
Proof. apply (discs_never_share_a_name 1 11 11 1); lia. Defined.

Lemma short_name_stops_relocation_witness :
  move_wav_files_to_album Scenario.temp_dir Scenario.album 0 (disc_prefix 1) false
                          Cases.odd_scratch_world
  = (Raise (ValueError "invalid literal for int() with base 10: ''"),
     Cases.odd_scratch_world).
Proof.
  apply (short_name_stops_relocation Scenario.temp_dir Scenario.album 0
           (disc_prefix 1) false Cases.odd_scratch_world
           (joinpath Scenario.temp_dir "a.wav") []).
  - vm_compute. reflexivity.
  - vm_compute. reflexivity.
  - vm_compute. lia.
Defined.

Lemma dry_relocation_reports_targets_witness :
  move_wav_files_to_album Scenario.temp_dir Scenario.album 10 (disc_prefix 2) true
                          Scenario.ripped_world
  = (Ok (Z.of_nat (length (seq 1 10))),
     record_all (map (log_of Scenario.temp_dir Scenario.album (disc_prefix 2) 10)
                     (seq 1 10))
                Scenario.ripped_world).
Proof.
  apply (dry_relocation_reports_targets Scenario.temp_dir Scenario.album 10
           (disc_prefix 2) Scenario.ripped_world (seq 1 10)).
  - vm_compute. reflexivity.
  - vm_compute. reflexivity.
  - apply Forall_forall. intros k Hk. apply in_seq in Hk. lia.
Defined.

Lemma scratch_directory_is_removed_witness :
  outside (mkdtemp (env (Scenario.ripping_world [Scenario.disc_of 2])))
          (fs (snd (rip_album_from_cd Scenario.album 1 false
                      (Scenario.ripping_world [Scenario.disc_of 2])))).
Proof.
  apply (scratch_directory_is_removed Scenario.album 1 false
           (Scenario.ripping_world [Scenario.disc_of 2])).
  - intros p Hp. simpl in Hp.
    destruct Hp as [<-|[<-|[<-|[]]]]; vm_compute; reflexivity.
  - vm_compute. reflexivity.
Defined.


Lemma live_relocation_counts_nothing_witness :
  match fst (move_wav_files_to_album Scenario.temp_dir Scenario.album 0
               (disc_prefix 1) false Scenario.ripped_world) with
  | Ok n => n = 0%Z
  | Raise _ => True
  end.
Proof.
  apply (live_relocation_counts_nothing Scenario.temp_dir Scenario.album 0
           (disc_prefix 1) Scenario.ripped_world).
  vm_compute. reflexivity.
Defined.

End SequencerInstances.
